(** * gocryptfs: the config file and the FUSE file handle

    A shallow embedding of
    - [internal/cryptocore] ([New]),
    - [internal/configfile] ([CreateConfFile], [LoadConfFile], [EncryptKey],
      [WriteFile]),
    - [internal/fusefrontend] (the [file] handle: [doRead], [doWrite],
      [Read], [Write], [Release], [Flush], [Fsync], [Truncate], [Chmod],
      [Chown], [GetAttr], [Allocate], [Utimens]; the paths of names.go:
      [isFiltered], [getBackingPath], [encryptPath], [decryptPath]),
    - package main ([readPassword], [readPasswordTwice]),
    followed by the properties of the specification that concern them.

    Go code is stateful and may panic; it is embedded in a state monad with
    a panic outcome.  Everything the operating system decides (a failing
    system call) is read from a script of injected faults held in the state,
    randomness from a tape.  Every effect that the statements talk about is
    also appended to a trace. *)

From Stdlib Require Import ZArith Lia.
From Stdlib Require Import Strings.Byte.
From stdpp Require Import base gmap strings list.

Local Open Scope Z_scope.
Local Set Warnings "-abstract-large-number".

(** ** Go runtime: integers, slices, byte strings *)

Global Instance byte_eq_dec : EqDecision byte := Byte.byte_eq_dec.

Definition bytes := list byte.

(** [uint64(x)], [uint32(x)]: wrap-around conversions. *)
Definition u64 (x : Z) : Z := x mod 2 ^ 64.
Definition u32 (x : Z) : Z := x mod 2 ^ 32.
Definition u16 (x : Z) : Z := x mod 2 ^ 16.

(** [int64(x)] and, on the 64-bit targets of the program, [int(x)]. *)
Definition i64 (x : Z) : Z :=
  let y := x mod 2 ^ 64 in if y <? 2 ^ 63 then y else y - 2 ^ 64.

(** [len(l)] as an integer. *)
Definition len {A} (l : list A) : Z := Z.of_nat (length l).

(** [l[lo:hi]]; [None] stands for the run-time panic on bad bounds. *)
Definition slice {A} (l : list A) (lo hi : Z) : option (list A) :=
  if (0 <=? lo) && (lo <=? hi) && (hi <=? len l)
  then Some (take (Z.to_nat (hi - lo)) (drop (Z.to_nat lo) l))
  else None.

(** [make([]byte, n)]: zero bytes. *)
Definition zeros (n : Z) : bytes := replicate (Z.to_nat n) x00.

(** ** The monad of Go statements: state, and panics *)

Inductive outcome (St A : Type) : Type :=
| Ret (a : A) (s : St)
| Panic (msg : string) (s : St).
Arguments Ret {St A} a s.
Arguments Panic {St A} msg s.

Definition M (St A : Type) : Type := St -> outcome St A.

Global Instance M_ret {St} : MRet (M St) := fun A a s => Ret a s.
Global Instance M_bind {St} : MBind (M St) := fun A B k m s =>
  match m s with
  | Ret a s' => k a s'
  | Panic msg s' => Panic msg s'
  end.

Definition get {St} : M St St := fun s => Ret s s.
Definition modify {St} (g : St -> St) : M St unit := fun s => Ret tt (g s).
Definition panic {St A} (msg : string) : M St A := fun s => Panic msg s.

(** [defer cleanup; body]: the cleanup runs when the body returns and when
    it panics. *)
Definition defer {St A} (cleanup : M St unit) (body : M St A) : M St A :=
  fun s =>
    match body s with
    | Ret a s1 =>
        match cleanup s1 with
        | Ret _ s2 => Ret a s2
        | Panic m s2 => Panic m s2
        end
    | Panic m s1 =>
        match cleanup s1 with
        | Ret _ s2 => Panic m s2
        | Panic m' s2 => Panic m' s2
        end
    end.

(** The state reached by an outcome, whichever it is. *)
Definition final {St A} (o : outcome St A) : St :=
  match o with Ret _ s => s | Panic _ s => s end.

(** ** Randomness *)

(** The random source is a tape of bytes and a read position. *)
Record Rand := { tape : nat -> byte; pos : nat }.

(** Modelled from the spec: [cryptocore.RandBytes] is not among the sources;
    "random_bytes(n) -> bytes: cryptographically secure randomness".  The [n]
    bytes are the next [n] of the tape. *)
Definition RandBytes (n : nat) (r : Rand) : bytes * Rand :=
  (map (tape r) (seq (pos r) n), {| tape := tape r; pos := (pos r + n)%nat |}).
Global Arguments RandBytes : simpl never.

(** ** Go errors and go-fuse status codes *)

(** An argument of a format string. *)
Inductive fmtArg :=
| ArgInt (z : Z)
| ArgStr (s : string).

(** The error values the program meets: [io.EOF]; a bare [syscall.Errno];
    an [*os.PathError] or [*os.LinkError] around one; an error of
    [errors.New] or [fmt.Errorf], kept as its format and arguments. *)
Inductive error :=
| io_EOF
| Errno (e : Z)
| PathError (e : Z)
| LinkError (e : Z)
| Errorf (format : string) (args : list fmtArg).

(** [err.Error()], formats unexpanded. *)
Definition Error (e : error) : string :=
  match e with
  | io_EOF => "EOF"
  | Errno _ => "errno"
  | PathError _ => "path error"
  | LinkError _ => "link error"
  | Errorf format _ => format
  end.

Global Instance fmtArg_eq_dec : EqDecision fmtArg.
Proof. solve_decision. Defined.
Global Instance error_eq_dec : EqDecision error.
Proof. solve_decision. Defined.

Module fuse.

Definition Status := Z.
Definition OK : Status := 0.
Definition ENOENT : Status := 2.
Definition EIO : Status := 5.
Definition EBADF : Status := 9.
Definition EEXIST : Status := 17.
Definition EINVAL : Status := 22.
Definition ENOSPC : Status := 28.
Definition ENOSYS : Status := 38.

(** [fuse.ToStatus]: [nil] is OK, an errno (bare or wrapped) is itself,
    anything else cannot be converted and becomes ENOSYS. *)
Definition ToStatus (err : option error) : Status :=
  match err with
  | None => OK
  | Some (Errno e) => e
  | Some (PathError e) => e
  | Some (LinkError e) => e
  | Some _ => ENOSYS
  end.

End fuse.

(** ** internal/cryptocore *)

Module cryptocore.

Definition KeyLen : Z := 32.
Definition AuthTagLen : Z := 16.

(** Which AEAD implementation [New] picked: Go's GCM for a given nonce
    size ([goGCMWrapper]), or the OpenSSL binding ([stupidgcm]). *)
Inductive gcmImpl :=
| goGCM (nonceSize : Z)
| stupidGCM.

Global Instance gcmImpl_eq_dec : EqDecision gcmImpl.
Proof. solve_decision. Defined.

(** The [CryptoCore] struct.  [BlockCipher] is AES under [key];
    [GcmIVGen] is a [nonceGenerator] of length [nonceLen]. *)
Record CryptoCore := {
  BlockCipher : bytes;
  Gcm : gcmImpl;
  GcmIVGen : Z;
  IVLen : Z }.

(** [New]: a new [CryptoCore], or a panic (its message with the format
    unexpanded).  [aes.NewCipher] accepts a 32-byte key and [goGCMWrapper] a
    nonce size, so the length test is the only panic that can happen. *)
Definition New (key : bytes) (useOpenssl GCMIV128 : bool) : string + CryptoCore :=
  if negb (len key =? KeyLen) then inl "Unsupported key length %d"%string
  else
    let IVLen := if GCMIV128 then 128 / 8 else 96 / 8 in
    let gcm := if useOpenssl && GCMIV128 then stupidGCM else goGCM IVLen in
    inr {| BlockCipher := key; Gcm := gcm; GcmIVGen := IVLen; IVLen := IVLen |}.

End cryptocore.

(** ** internal/contentenc: the interface the callers use *)

Module contentenc.

(** Modelled from the spec: [contentenc.CurrentVersion] is not among the
    sources; "Version (integer - current value 2; value 1 must be
    rejected)". *)
Definition CurrentVersion : Z := 2.

(** The file header: "a version tag and a random file ID". *)
Record FileHeader := { Version : Z; Id : bytes }.

(** A block descriptor of [ExplodePlainRange], with the fields the file
    handle reads. *)
Record intraBlock := { BlockNo : Z; Skip : Z; Length : Z }.

Global Instance FileHeader_eq_dec : EqDecision FileHeader.
Proof. solve_decision. Defined.
Global Instance intraBlock_eq_dec : EqDecision intraBlock.
Proof. solve_decision. Defined.

(** The methods of [*ContentEnc], of [*intraBlock] and of the header that
    the file handle calls.  None of them is among the sources, so the
    handle is embedded over this interface; [EncryptBlock] and
    [RandomHeader] draw from the random source and nothing else. *)
Class ContentEnc := {
  PlainBS : Z;
  BlockOverhead : Z;
  HEADER_LEN : Z;
  ExplodePlainRange : Z -> Z -> list intraBlock;
  JointCiphertextRange : list intraBlock -> Z * Z;
  IsPartial : intraBlock -> bool;
  PlaintextRange : intraBlock -> Z * Z;
  CiphertextRange : intraBlock -> Z * Z;
  MergeBlocks : bytes -> bytes -> Z -> bytes;
  EncryptBlock : bytes -> Z -> bytes -> Rand -> bytes * Rand;
  DecryptBlocks : bytes -> Z -> bytes -> bytes * option error;
  PlainOffToBlockNo : Z -> Z;
  BlockNoToCipherOff : Z -> Z;
  BlockNoToPlainOff : Z -> Z;
  CipherSizeToPlainSize : Z -> Z;
  ParseHeader : bytes -> error + FileHeader;
  RandomHeader : Rand -> FileHeader * Rand;
  Pack : FileHeader -> bytes }.

(** *** The implementation, after the specification *)

(** The AEAD ("seal" and "open" of the crypto primitives): key, nonce,
    text, and the associated data, "the tuple (file ID, block number)". *)
Class AEAD := {
  Seal : bytes -> bytes -> bytes -> bytes * Z -> bytes;
  Open : bytes -> bytes -> bytes -> bytes * Z -> option bytes }.

(** Modelled from the spec: package [contentenc] is not among the sources.
    The definitions of [impl] follow section 4.2 ("Content encryption
    layer"), the data model ("Block", "File header") and the layout of an
    encrypted file in section 6. *)
Module impl.
Section impl.

Context {aead : AEAD}.

(** The length of the file ID in the header, which the spec leaves open. *)
Variable HEADER_ID_LEN : nat.

Record ContentEnc := {
  cryptoCore : cryptocore.CryptoCore;
  plainBS : Z;
  cipherBS : Z }.

(** "Ciphertext block size = plaintext size + nonce + auth tag". *)
Definition New (cc : cryptocore.CryptoCore) (plainBS : Z) : ContentEnc :=
  {| cryptoCore := cc; plainBS := plainBS;
     cipherBS := plainBS + cryptocore.IVLen cc + cryptocore.AuthTagLen |}.

Definition PlainBS (be : ContentEnc) : Z := plainBS be.
Definition BlockOverhead (be : ContentEnc) : Z :=
  cryptocore.IVLen (cryptoCore be) + cryptocore.AuthTagLen.

(** The header: a 16-bit version tag, then the file ID. *)
Definition HEADER_LEN : Z := 2 + Z.of_nat HEADER_ID_LEN.

Definition byteOf (z : Z) : byte := default x00 (Byte.of_N (Z.to_N (z mod 256))).
Definition byteVal (b : byte) : Z := Z.of_N (Byte.to_N b).

Definition RandomHeader (r : Rand) : FileHeader * Rand :=
  let '(id, r') := RandBytes HEADER_ID_LEN r in
  ({| Version := CurrentVersion; Id := id |}, r').

Definition Pack (h : FileHeader) : bytes :=
  byteOf (Version h / 256) :: byteOf (Version h) :: Id h.

Definition ParseHeader (buf : bytes) : error + FileHeader :=
  match buf with
  | hi :: lo :: id =>
      if negb (len buf =? HEADER_LEN) then inl (Errorf "ParseHeader: invalid length" [])
      else if negb (byteVal hi * 256 + byteVal lo =? CurrentVersion)
      then inl (Errorf "ParseHeader: invalid version" [])
      else inr {| Version := CurrentVersion; Id := id |}
  | _ => inl (Errorf "ParseHeader: invalid length" [])
  end.

(** "encrypt_block(plaintext, block_no, file_id) -> ciphertext", a block
    on disk being "nonce || ciphertext_of_plaintext_block || auth_tag";
    the nonce is fresh random bytes. *)
Definition EncryptBlock (be : ContentEnc) (plaintext : bytes) (blockNo : Z)
    (fileID : bytes) (r : Rand) : bytes * Rand :=
  let '(nonce, r') := RandBytes (Z.to_nat (cryptocore.IVLen (cryptoCore be))) r in
  (nonce ++ Seal (cryptocore.BlockCipher (cryptoCore be)) nonce plaintext (fileID, blockNo),
   r').

(** "decrypt_block(ciphertext, block_no, file_id) -> plaintext |
    AuthError.  An empty input yields an empty output". *)
Definition AuthError : error := Errorf "cipher: message authentication failed" [].

Definition DecryptBlock (be : ContentEnc) (ciphertext : bytes) (blockNo : Z)
    (fileID : bytes) : error + bytes :=
  match ciphertext with
  | [] => inr []
  | _ =>
      let n := Z.to_nat (cryptocore.IVLen (cryptoCore be)) in
      if len ciphertext <? cryptocore.IVLen (cryptoCore be) then inl AuthError
      else
        match Open (cryptocore.BlockCipher (cryptoCore be)) (take n ciphertext)
                   (drop n ciphertext) (fileID, blockNo) with
        | Some plaintext => inr plaintext
        | None => inl AuthError
        end
  end.

(** "Reads: ... decrypt each block": the ciphertext is cut into block
    frames; the first failure ends it, with the plaintext so far. *)
Fixpoint decryptBlocks (fuel : nat) (be : ContentEnc) (ciphertext : bytes)
    (blockNo : Z) (fileID : bytes) : bytes * option error :=
  match fuel, ciphertext with
  | O, _ | _, [] => ([], None)
  | S fuel', _ =>
      let n := Z.to_nat (cipherBS be) in
      match DecryptBlock be (take n ciphertext) blockNo fileID with
      | inl e => ([], Some e)
      | inr p =>
          let '(rest, err) :=
            decryptBlocks fuel' be (drop n ciphertext) (blockNo + 1) fileID in
          (p ++ rest, err)
      end
  end.

Definition DecryptBlocks (be : ContentEnc) (ciphertext : bytes) (firstBlockNo : Z)
    (fileID : bytes) : bytes * option error :=
  decryptBlocks (length ciphertext) be ciphertext firstBlockNo fileID.

(** "Conversions: plaintext-offset <-> block-number, block-number <->
    ciphertext-offset, ciphertext-size <-> plaintext-size"; the header is
    not a block. *)
Definition PlainOffToBlockNo (be : ContentEnc) (plainOffset : Z) : Z :=
  plainOffset / plainBS be.
Definition BlockNoToCipherOff (be : ContentEnc) (blockNo : Z) : Z :=
  u64 (HEADER_LEN + blockNo * cipherBS be).
Definition BlockNoToPlainOff (be : ContentEnc) (blockNo : Z) : Z :=
  u64 (blockNo * plainBS be).

(** "Ciphertext file size for a file with k blocks and h-byte header is
    h + k*(B + nonce_len + tag_len) for full blocks, with the last block
    possibly shorter"; "an empty file has zero bytes (no header)". *)
Definition CipherSizeToPlainSize (be : ContentEnc) (cipherSize : Z) : Z :=
  if cipherSize <=? HEADER_LEN then 0
  else
    let blockCount := (cipherSize - HEADER_LEN - 1) / cipherBS be + 1 in
    u64 (cipherSize - HEADER_LEN - blockCount * BlockOverhead be).

(** "explode_plain_range(offset, length) -> [block descriptor]": block
    number, [Skip], length of the covered region. *)
Fixpoint explode (fuel : nat) (be : ContentEnc) (offset length : Z) : list intraBlock :=
  match fuel with
  | O => []
  | S fuel' =>
      if length <=? 0 then []
      else
        let blockNo := PlainOffToBlockNo be offset in
        let skip := offset - BlockNoToPlainOff be blockNo in
        let l := Z.min length (plainBS be - skip) in
        {| BlockNo := blockNo; Skip := skip; Length := l |}
          :: explode fuel' be (offset + l) (length - l)
  end.

Definition ExplodePlainRange (be : ContentEnc) (offset length : Z) : list intraBlock :=
  explode (Z.to_nat (length / plainBS be + 2)) be offset length.

(** "a flag indicating whether the block is only partially covered". *)
Definition IsPartial (be : ContentEnc) (ib : intraBlock) : bool :=
  (0 <? Skip ib) || (Length ib <? plainBS be).

Definition PlaintextRange (be : ContentEnc) (ib : intraBlock) : Z * Z :=
  (BlockNoToPlainOff be (BlockNo ib), plainBS be).
Definition CiphertextRange (be : ContentEnc) (ib : intraBlock) : Z * Z :=
  (BlockNoToCipherOff be (BlockNo ib), cipherBS be).

(** "joint_ciphertext_range(blocks): the minimal contiguous ciphertext
    byte range covering the blocks". *)
Definition JointCiphertextRange (be : ContentEnc) (blocks : list intraBlock) : Z * Z :=
  match blocks, last blocks with
  | firstBlock :: _, Some lastBlock =>
      let offset := BlockNoToCipherOff be (BlockNo firstBlock) in
      let '(lastOff, lastLen) := CiphertextRange be lastBlock in
      (offset, u64 (lastOff + lastLen - offset))
  | _, _ => (0, 0)
  end.

(** "merge_blocks(old, new, skip): produces a new plaintext block by
    overwriting bytes [skip, skip+len(new)) of old with new". *)
Definition MergeBlocks (be : ContentEnc) (oldData newData : bytes) (offset : Z) : bytes :=
  let o := Z.to_nat offset in
  take o oldData ++ replicate (o - length oldData) x00 ++ newData
    ++ drop (o + length newData) oldData.

(** The interface of the file handle, for one [ContentEnc]. *)
Definition ops (be : ContentEnc) : contentenc.ContentEnc :=
  {| contentenc.PlainBS := PlainBS be;
     contentenc.BlockOverhead := BlockOverhead be;
     contentenc.HEADER_LEN := HEADER_LEN;
     contentenc.ExplodePlainRange := ExplodePlainRange be;
     contentenc.JointCiphertextRange := JointCiphertextRange be;
     contentenc.IsPartial := IsPartial be;
     contentenc.PlaintextRange := PlaintextRange be;
     contentenc.CiphertextRange := CiphertextRange be;
     contentenc.MergeBlocks := MergeBlocks be;
     contentenc.EncryptBlock := EncryptBlock be;
     contentenc.DecryptBlocks := DecryptBlocks be;
     contentenc.PlainOffToBlockNo := PlainOffToBlockNo be;
     contentenc.BlockNoToCipherOff := BlockNoToCipherOff be;
     contentenc.BlockNoToPlainOff := BlockNoToPlainOff be;
     contentenc.CipherSizeToPlainSize := CipherSizeToPlainSize be;
     contentenc.ParseHeader := ParseHeader;
     contentenc.RandomHeader := RandomHeader;
     contentenc.Pack := Pack |}.

End impl.
End impl.

End contentenc.

(** ** internal/fusefrontend: the file handle *)

Module fusefrontend.

Import contentenc.

(** System calls on the backing descriptor. *)
Inductive Syscall :=
| ScFstat
| ScReadAt (off n : Z)
| ScWriteAt (off n : Z)
| ScPrealloc (off n : Z)
| ScFtruncate (size : Z)
| ScClose
| ScDup
| ScCloseDup
| ScFsync
| ScFchmod (mode : Z)
| ScFchown (uid gid : Z)
| ScUtimesNano (atime mtime : option Z).

(** What the handle does, in order. *)
Inductive Event :=
| EvRLock | EvRUnlock                 (* fdLock.RLock / RUnlock *)
| EvLock | EvUnlock                   (* fdLock.Lock / Unlock *)
| EvWlockRegister (ino : Z)
| EvWlockUnregister (ino : Z)
| EvWlockLock (ino : Z)
| EvWlockUnlock (ino : Z)
| EvSyscall (c : Syscall) (err : option Z)
| EvEncryptBlock (blockNo : Z) (plainLen : Z)
| EvDoWrite (off : Z) (n : Z)         (* entry of doWrite *)
| EvZeroPad (plainSize : Z)           (* entry of zeroPad *)
| EvReleased.                         (* f.released = true *)

Global Instance Syscall_eq_dec : EqDecision Syscall.
Proof. solve_decision. Defined.
Global Instance Event_eq_dec : EqDecision Event.
Proof. solve_decision. Defined.

(** The [file] struct.  [fd] is the one backing file of the state below,
    [fdLock] shows in the trace, [contentEnc] is the interface instance. *)
Record file := {
  released : bool;
  writeOnly : bool;
  ino : Z;
  header : option FileHeader }.

(** The state: the handle [f] points to; its [os.File] (open or closed, and
    the bytes of the backing file); the faults the next system calls will
    meet ([Some e]: fails with errno [e], which is not 0); the random
    source; the write-lock table; the trace. *)
Record State := {
  hdl : file;
  fdOpen : bool;
  backing : bytes;
  faults : list (option positive);
  rng : Rand;
  wlock : gmap Z nat;
  trace : list Event }.

Definition set_hdl (g : file -> file) (s : State) : State :=
  {| hdl := g (hdl s); fdOpen := fdOpen s; backing := backing s;
     faults := faults s; rng := rng s; wlock := wlock s; trace := trace s |}.
Definition set_fdOpen (b : bool) (s : State) : State :=
  {| hdl := hdl s; fdOpen := b; backing := backing s;
     faults := faults s; rng := rng s; wlock := wlock s; trace := trace s |}.
Definition set_backing (c : bytes) (s : State) : State :=
  {| hdl := hdl s; fdOpen := fdOpen s; backing := c;
     faults := faults s; rng := rng s; wlock := wlock s; trace := trace s |}.
Definition set_faults (fs : list (option positive)) (s : State) : State :=
  {| hdl := hdl s; fdOpen := fdOpen s; backing := backing s;
     faults := fs; rng := rng s; wlock := wlock s; trace := trace s |}.
Definition set_rng (r : Rand) (s : State) : State :=
  {| hdl := hdl s; fdOpen := fdOpen s; backing := backing s;
     faults := faults s; rng := r; wlock := wlock s; trace := trace s |}.
Definition set_wlock (w : gmap Z nat) (s : State) : State :=
  {| hdl := hdl s; fdOpen := fdOpen s; backing := backing s;
     faults := faults s; rng := rng s; wlock := w; trace := trace s |}.
Definition log (e : Event) (s : State) : State :=
  {| hdl := hdl s; fdOpen := fdOpen s; backing := backing s;
     faults := faults s; rng := rng s; wlock := wlock s;
     trace := trace s ++ [e] |}.

Definition set_header (h : option FileHeader) (f : file) : file :=
  {| released := released f; writeOnly := writeOnly f; ino := ino f; header := h |}.
Definition set_released (b : bool) (f : file) : file :=
  {| released := b; writeOnly := writeOnly f; ino := ino f; header := header f |}.

Definition emit (e : Event) : M State unit := modify (log e).
Definition getf : M State file := fun s => Ret (hdl s) s.

(** *** The operating system *)

(** A system call on the descriptor: on a closed [os.File] the descriptor
    is -1 and the call fails with EBADF; otherwise it fails when the next
    scripted fault says so, and else has its effect. *)
Definition syscall (c : Syscall) (effect : State -> State) : M State (option Z) :=
  fun s =>
    if negb (fdOpen s) then Ret (Some fuse.EBADF) (log (EvSyscall c (Some fuse.EBADF)) s)
    else match faults s with
         | Some e :: fs =>
             Ret (Some (Z.pos e)) (log (EvSyscall c (Some (Z.pos e))) (set_faults fs s))
         | None :: fs => Ret None (log (EvSyscall c None) (effect (set_faults fs s)))
         | [] => Ret None (log (EvSyscall c None) (effect s))
         end.

(** The file after [pwrite(data, off)]: a gap past the end reads as zeros. *)
Definition pwrite (data : bytes) (off : Z) (c : bytes) : bytes :=
  let o := Z.to_nat off in
  take o c ++ replicate (o - length c) x00 ++ data ++ drop (o + length data) c.

(** The file after [ftruncate(size)]: cut, or extended by zeros. *)
Definition resize (size : Z) (c : bytes) : bytes :=
  let n := Z.to_nat size in
  take n c ++ replicate (n - length c) x00.

Definition errOf (wrap : Z -> error) (r : option Z) : option error :=
  wrap <$> r.

(** [f.fd.Stat()]: the size, or a [PathError]. *)
Definition fd_Stat : M State (Z * option error) :=
  r ← syscall ScFstat id;
  s ← get;
  mret (match r with None => len (backing s) | Some _ => 0 end,
        errOf PathError r).

(** [f.fd.ReadAt(buf, off)] for a buffer of [n] bytes: nothing to do for an
    empty buffer; else the bytes there are, with [io.EOF] when they are
    fewer than [n]. *)
Definition fd_ReadAt (n off : Z) : M State (bytes * option error) :=
  if n <=? 0 then mret ([], None)
  else
    r ← syscall (ScReadAt off n) id;
    s ← get;
    match r with
    | Some e => mret ([], Some (PathError e))
    | None =>
        if off <? 0 then mret ([], Some (PathError fuse.EINVAL))
        else
          let got := take (Z.to_nat n) (drop (Z.to_nat off) (backing s)) in
          mret (got, if len got <? n then Some io_EOF else None)
    end.

(** [f.fd.WriteAt(data, off)]. *)
Definition fd_WriteAt (data : bytes) (off : Z) : M State (option error) :=
  if len data <=? 0 then mret None
  else if off <? 0 then
    r ← syscall (ScWriteAt off (len data)) id;
    mret (Some (PathError (default fuse.EINVAL r)))
  else
    r ← syscall (ScWriteAt off (len data))
          (fun s => set_backing (pwrite data off (backing s)) s);
    mret (errOf PathError r).

(** [prealloc(fd, off, n)]: [fallocate] with [FALLOC_FL_KEEP_SIZE]; the
    bytes and the size of the file stay. *)
Definition prealloc (off n : Z) : M State (option error) :=
  r ← syscall (ScPrealloc off n) id;
  mret (errOf Errno r).

(** [syscall.Ftruncate(fd, size)]. *)
Definition Ftruncate (size : Z) : M State (option error) :=
  if size <? 0 then
    r ← syscall (ScFtruncate size) id;
    mret (Some (Errno (default fuse.EINVAL r)))
  else
    r ← syscall (ScFtruncate size)
          (fun s => set_backing (resize size (backing s)) s);
    mret (errOf Errno r).

(** [syscall.UtimesNano] on "/proc/self/fd/N", [N] being [f.fd.Fd()]: no
    such path when the [os.File] is closed. *)
Definition UtimesNano (a m : option Z) : M State (option Z) :=
  fun s =>
    if negb (fdOpen s)
    then Ret (Some fuse.ENOENT) (log (EvSyscall (ScUtimesNano a m) (Some fuse.ENOENT)) s)
    else syscall (ScUtimesNano a m) id s.

(** [f.fd.Close()]: the descriptor is gone afterwards, whatever the
    result, which [Release] ignores. *)
Definition fd_Close : M State unit :=
  _ ← syscall ScClose id;
  modify (set_fdOpen false).

(** *** The write-lock table *)

(** Modelled from the spec: the table ([wlock]) is not among the sources;
    "register(ino) increments or inserts; unregister(ino) decrements and
    removes on zero; lock(ino) / unlock(ino) take/release the mutex".  The
    table maps an inode to its reference count; taking and releasing a
    mutex shows in the trace only. *)
Definition register_tab (i : Z) (w : gmap Z nat) : gmap Z nat :=
  match w !! i with
  | Some n => <[i := S n]> w
  | None => <[i := 1%nat]> w
  end.
Definition unregister_tab (i : Z) (w : gmap Z nat) : gmap Z nat :=
  match w !! i with
  | Some (S (S n)) => <[i := S n]> w
  | Some _ => delete i w
  | None => w
  end.
Definition wlock_register (i : Z) : M State unit :=
  emit (EvWlockRegister i);; modify (fun s => set_wlock (register_tab i (wlock s)) s).
Definition wlock_unregister (i : Z) : M State unit :=
  emit (EvWlockUnregister i);; modify (fun s => set_wlock (unregister_tab i (wlock s)) s).
Definition wlock_lock (i : Z) : M State unit := emit (EvWlockLock i).
Definition wlock_unlock (i : Z) : M State unit := emit (EvWlockUnlock i).

Section Handle.

Context {ce : ContentEnc}.

(** [createsHole] and [zeroPad] are methods of [file] that are not among
    the sources; [Write] calls them as [f.createsHole(plainSize, off)] and
    [f.zeroPad(plainSize)]. *)
Variable createsHole : file -> Z -> Z -> bool.
Variable zeroPad : Z -> M State fuse.Status.

(** [readHeader]: load the file header from disk. *)
Definition readHeader : M State (option error) :=
  '(buf, err) ← fd_ReadAt HEADER_LEN 0;
  match err with
  | Some e => mret (Some e)
  | None =>
      match ParseHeader buf with
      | inl e => mret (Some e)
      | inr h => modify (set_hdl (set_header (Some h)));; mret None
      end
  end.

(** [createHeader]: a new random header, written to disk. *)
Definition createHeader : M State (option error) :=
  s ← get;
  let '(h, r) := RandomHeader (rng s) in
  modify (set_rng r);;
  let buf := Pack h in
  err ← prealloc 0 HEADER_LEN;
  match err with
  | Some e => mret (Some e)
  | None =>
      err ← fd_WriteAt buf 0;
      match err with
      | Some e => mret (Some e)
      | None => modify (set_hdl (set_header (Some h)));; mret None
      end
  end.

(** [f.header.Id]; a nil header is a nil-pointer panic. *)
Definition headerId : M State bytes :=
  f ← getf;
  match header f with
  | Some h => mret (Id h)
  | None => panic "nil pointer dereference"
  end.

(** [doRead]: [length] plaintext bytes from plaintext offset [off]. *)
Definition doRead (off length : Z) : M State (bytes * fuse.Status) :=
  f ← getf;
  hres ← (match header f with
          | Some _ => mret None
          | None => readHeader
          end);
  match hres with
  | Some io_EOF => mret ([], fuse.OK)
  | Some e => mret ([], fuse.ToStatus (Some e))
  | None =>
      let blocks := ExplodePlainRange off length in
      match blocks with
      | [] => panic "index out of range"
      | b0 :: _ =>
          let '(alignedOffset, alignedLength) := JointCiphertextRange blocks in
          let skip := Skip b0 in
          if i64 alignedLength <? 0 then panic "makeslice: len out of range"
          else
            '(ciphertext, err) ← fd_ReadAt (i64 alignedLength) (i64 alignedOffset);
            match err with
            | Some (Errno _ as e) | Some (PathError _ as e)
            | Some (LinkError _ as e) | Some (Errorf _ _ as e) =>
                mret ([], fuse.ToStatus (Some e))
            | Some io_EOF | None =>
                let firstBlockNo := BlockNo b0 in
                id ← headerId;
                let '(plaintext, derr) := DecryptBlocks ciphertext firstBlockNo id in
                match derr with
                | Some _ => mret ([], fuse.EIO)
                | None =>
                    let lenHave := len plaintext in
                    let lenWant := i64 (u64 (skip + length)) in
                    if lenWant <? lenHave then
                      match slice plaintext (i64 skip) lenWant with
                      | Some out => mret (out, fuse.OK)
                      | None => panic "slice bounds out of range"
                      end
                    else if i64 skip <? lenHave then
                      match slice plaintext (i64 skip) lenHave with
                      | Some out => mret (out, fuse.OK)
                      | None => panic "slice bounds out of range"
                      end
                    else mret ([], fuse.OK)
                end
            end
      end
  end.

(** [Read]: FUSE call. *)
Definition Read (buf : bytes) (off : Z) : M State (option bytes * fuse.Status) :=
  emit EvRLock;;
  defer (emit EvRUnlock) (
    f ← getf;
    if writeOnly f then mret (None, fuse.EBADF)
    else
      '(out, status) ← doRead (u64 off) (u64 (len buf));
      if negb (status =? fuse.OK) then mret (None, status)
      else mret (Some out, status)).

(** One turn of the loop of [doWrite] over the blocks, and the loop:
    [dataBuf] is what is left of the data, [written] the count so far. *)
Fixpoint doWrite_blocks (blocks : list intraBlock) (dataBuf : bytes) (written : Z)
  : M State (Z * fuse.Status) :=
  match blocks with
  | [] => mret (written, fuse.OK)
  | b :: rest =>
      if i64 (Length b) <? 0 then panic "slice bounds out of range"
      else
        let n := Z.to_nat (i64 (Length b)) in
        let blockData := take n dataBuf in
        let dataBuf := drop n dataBuf in
        (* Incomplete block -> Read-Modify-Write *)
        rmw ← (if IsPartial b then
                 let '(o, _) := PlaintextRange b in
                 '(oldData, status) ← doRead o PlainBS;
                 if negb (status =? fuse.OK) then mret (inl status)
                 else mret (inr (MergeBlocks oldData blockData (i64 (Skip b))))
               else mret (inr blockData));
        match rmw with
        | inl status => mret (written, status)
        | inr blockData =>
            (* Encrypt *)
            let '(blockOffset, blockLen) := CiphertextRange b in
            id ← headerId;
            s ← get;
            let '(blockData', r) := EncryptBlock blockData (BlockNo b) id (rng s) in
            modify (set_rng r);;
            emit (EvEncryptBlock (BlockNo b) (len blockData));;
            (* Preallocate, then write *)
            err ← prealloc (i64 blockOffset) (i64 blockLen);
            match err with
            | Some e => mret (written, fuse.ToStatus (Some e))
            | None =>
                err ← fd_WriteAt blockData' (i64 blockOffset);
                match err with
                | Some e => mret (written, fuse.ToStatus (Some e))
                | None => doWrite_blocks rest dataBuf (u32 (written + u32 (Length b)))
                end
            end
        end
  end.

(** [doWrite]: encrypt [data] and write it to plaintext offset [off]. *)
Definition doWrite (data : bytes) (off : Z) : M State (Z * fuse.Status) :=
  emit (EvDoWrite off (len data));;
  f ← getf;
  herr ← (match header f with
          | Some _ => mret None
          | None =>
              err ← readHeader;
              match err with
              | Some io_EOF => createHeader
              | _ => mret err
              end
          end);
  match herr with
  | Some e => mret (0, fuse.ToStatus (Some e))
  | None =>
      doWrite_blocks (ExplodePlainRange (u64 off) (u64 (len data))) data 0
  end.

(** [Write]: FUSE call. *)
Definition Write (data : bytes) (off : Z) : M State (Z * fuse.Status) :=
  emit EvRLock;;
  defer (emit EvRUnlock) (
    f ← getf;
    if released f then mret (0, fuse.EBADF)
    else
      wlock_lock (ino f);;
      defer (wlock_unlock (ino f)) (
        '(size, err) ← fd_Stat;
        match err with
        | Some e => mret (0, fuse.ToStatus (Some e))
        | None =>
            let plainSize := CipherSizeToPlainSize (u64 size) in
            f ← getf;
            if createsHole f plainSize off then
              status ← (emit (EvZeroPad plainSize);; zeroPad plainSize);
              if negb (status =? fuse.OK) then mret (0, status)
              else doWrite data off
            else doWrite data off
        end)).

(** [Release]: FUSE call, close file. *)
Definition Release : M State unit :=
  emit EvLock;;
  f ← getf;
  (if released f then panic "double release" else mret tt);;
  fd_Close;;
  modify (set_hdl (set_released true));;
  emit EvReleased;;
  emit EvUnlock;;
  wlock_unregister (ino f).

(** [Flush]: FUSE call. *)
Definition Flush : M State fuse.Status :=
  emit EvRLock;;
  defer (emit EvRUnlock) (
    err ← syscall ScDup id;
    match err with
    | Some e => mret (fuse.ToStatus (Some (Errno e)))
    | None =>
        err ← syscall ScCloseDup id;
        mret (fuse.ToStatus (errOf Errno err))
    end).

(** [Fsync]. *)
Definition Fsync (flags : Z) : M State fuse.Status :=
  emit EvRLock;;
  defer (emit EvRUnlock) (
    err ← syscall ScFsync id;
    mret (fuse.ToStatus (errOf Errno err))).

(** The loop of the growing branch of [Truncate] over the blocks. *)
Fixpoint Truncate_grow (blocks : list intraBlock) : M State fuse.Status :=
  match blocks with
  | [] => mret fuse.OK
  | b :: rest =>
      (* First and last block may be partial *)
      if IsPartial b then
        let '(off, _) := PlaintextRange b in
        let off := u64 (off + Skip b) in
        '(_, status) ← doWrite (zeros (Length b)) (i64 off);
        if negb (status =? fuse.OK) then mret status
        else Truncate_grow rest
      else
        let '(off, length) := CiphertextRange b in
        err ← Ftruncate (i64 (u64 (off + length)));
        match err with
        | Some e => mret (fuse.ToStatus (Some e))
        | None => Truncate_grow rest
        end
  end.

(** [Truncate]: FUSE call. *)
Definition Truncate (newSize : Z) : M State fuse.Status :=
  emit EvRLock;;
  defer (emit EvRUnlock) (
    f ← getf;
    if released f then mret fuse.EBADF
    else
      wlock_lock (ino f);;
      defer (wlock_unlock (ino f)) (
        (* Common case first: Truncate to zero *)
        if newSize =? 0 then
          err ← Ftruncate 0;
          match err with
          | Some e => mret (fuse.ToStatus (Some e))
          | None =>
              (* Truncate to zero kills the file header *)
              modify (set_hdl (set_header None));; mret fuse.OK
          end
        else
          '(size, err) ← fd_Stat;
          match err with
          | Some e => mret (fuse.ToStatus (Some e))
          | None =>
              let oldSize := CipherSizeToPlainSize (u64 size) in
              (* File size stays the same - nothing to do *)
              if newSize =? oldSize then mret fuse.OK
              else if oldSize <? newSize then
                (* File grows *)
                herr ← (if oldSize =? 0 then createHeader else mret None);
                match herr with
                | Some e => mret (fuse.ToStatus (Some e))
                | None =>
                    Truncate_grow (ExplodePlainRange oldSize (u64 (newSize - oldSize)))
                end
              else
                (* File shrinks *)
                let blockNo := PlainOffToBlockNo newSize in
                let cipherOff := BlockNoToCipherOff blockNo in
                let plainOff := BlockNoToPlainOff blockNo in
                let lastBlockLen := u64 (newSize - plainOff) in
                rd ← (if 0 <? lastBlockLen then doRead plainOff lastBlockLen
                      else mret ([], fuse.OK));
                let '(data, status) := rd in
                if negb (status =? fuse.OK) then mret status
                else
                  err ← Ftruncate (i64 cipherOff);
                  match err with
                  | Some e => mret (fuse.ToStatus (Some e))
                  | None =>
                      if 0 <? lastBlockLen then
                        '(_, status) ← doWrite data (i64 plainOff);
                        mret status
                      else mret fuse.OK
                  end
          end)).

(** [Chmod], [Chown]. *)
Definition Chmod (mode : Z) : M State fuse.Status :=
  emit EvRLock;;
  defer (emit EvRUnlock) (
    err ← syscall (ScFchmod mode) id;
    mret (fuse.ToStatus (errOf PathError err))).

Definition Chown (uid gid : Z) : M State fuse.Status :=
  emit EvRLock;;
  defer (emit EvRUnlock) (
    err ← syscall (ScFchown (i64 uid) (i64 gid)) id;
    mret (fuse.ToStatus (errOf PathError err))).

(** [GetAttr]: the attributes of the backing file; of them, the size,
    which is turned into the plaintext size. *)
Definition GetAttr : M State (option Z * fuse.Status) :=
  emit EvRLock;;
  defer (emit EvRUnlock) (
    err ← syscall ScFstat id;
    match err with
    | Some e => mret (None, fuse.ToStatus (Some (Errno e)))
    | None =>
        s ← get;
        mret (Some (CipherSizeToPlainSize (u64 (len (backing s)))), fuse.OK)
    end).

(** [Allocate]: FUSE call, fallocate(2). *)
Definition Allocate (off sz mode : Z) : M State fuse.Status :=
  mret fuse.ENOSYS.

(** [Utimens]: the times ([nil], or Unix seconds) are set through the path
    "/proc/self/fd/N" of the descriptor; ENOENT there means that the
    descriptor was invalid. *)
Definition Utimens (a m : option Z) : M State fuse.Status :=
  emit EvRLock;;
  defer (emit EvRUnlock) (
    err ← UtimesNano a m;
    match err with
    | Some e =>
        if e =? fuse.ENOENT then mret fuse.EBADF
        else mret (fuse.ToStatus (Some (Errno e)))
    | None => mret fuse.OK
    end).

End Handle.

End fusefrontend.

(** ** internal/configfile *)

Module configfile.

Definition ConfDefaultName : string := "gocryptfs.conf".

(** Modelled from the spec: the feature-flag table ([flagIota],
    [knownFlags], [isFeatureFlagKnown], [IsFeatureFlagSet]) is not among
    the sources.  "Known flags: DirIV, PlaintextNames, EMENames, GCMIV128,
    LongNames"; "a flag unknown to the reader is a hard load error".  The
    names of the indices are those [CreateConfFile] and [LoadConfFile]
    use. *)
Inductive flagIota :=
| FlagPlaintextNames
| FlagDirIV
| FlagEMENames
| FlagGCMIV128
| FlagLongNames.

Global Instance flagIota_eq_dec : EqDecision flagIota.
Proof. solve_decision. Defined.

Definition knownFlags (i : flagIota) : string :=
  match i with
  | FlagPlaintextNames => "PlaintextNames"
  | FlagDirIV => "DirIV"
  | FlagEMENames => "EMENames"
  | FlagGCMIV128 => "GCMIV128"
  | FlagLongNames => "LongNames"
  end.

Definition allFlags : list flagIota :=
  [FlagPlaintextNames; FlagDirIV; FlagEMENames; FlagGCMIV128; FlagLongNames].

(** The scrypt parameters: "salt, N, r, p, key length". *)
Record scryptKdf := {
  Salt : bytes;
  N : Z;
  R : Z;
  P : Z;
  KeyLen : Z }.

(** The [ConfFile] struct. *)
Record ConfFile := {
  Creator : string;
  EncryptedKey : bytes;
  ScryptObject : scryptKdf;
  Version : Z;
  FeatureFlags : list string;
  filename : string }.

(** [var cf ConfFile]: the zero value. *)
Definition zeroConfFile : ConfFile :=
  {| Creator := ""; EncryptedKey := [];
     ScryptObject := {| Salt := []; N := 0; R := 0; P := 0; KeyLen := 0 |};
     Version := 0; FeatureFlags := []; filename := "" |}.

Definition set_filename (x : string) (cf : ConfFile) : ConfFile :=
  {| Creator := Creator cf; EncryptedKey := EncryptedKey cf;
     ScryptObject := ScryptObject cf; Version := Version cf;
     FeatureFlags := FeatureFlags cf; filename := x |}.
Definition set_Creator (x : string) (cf : ConfFile) : ConfFile :=
  {| Creator := x; EncryptedKey := EncryptedKey cf;
     ScryptObject := ScryptObject cf; Version := Version cf;
     FeatureFlags := FeatureFlags cf; filename := filename cf |}.
Definition set_Version (x : Z) (cf : ConfFile) : ConfFile :=
  {| Creator := Creator cf; EncryptedKey := EncryptedKey cf;
     ScryptObject := ScryptObject cf; Version := x;
     FeatureFlags := FeatureFlags cf; filename := filename cf |}.
Definition set_EncryptedKey (x : bytes) (cf : ConfFile) : ConfFile :=
  {| Creator := Creator cf; EncryptedKey := x;
     ScryptObject := ScryptObject cf; Version := Version cf;
     FeatureFlags := FeatureFlags cf; filename := filename cf |}.
Definition set_ScryptObject (x : scryptKdf) (cf : ConfFile) : ConfFile :=
  {| Creator := Creator cf; EncryptedKey := EncryptedKey cf;
     ScryptObject := x; Version := Version cf;
     FeatureFlags := FeatureFlags cf; filename := filename cf |}.
Definition set_FeatureFlags (x : list string) (cf : ConfFile) : ConfFile :=
  {| Creator := Creator cf; EncryptedKey := EncryptedKey cf;
     ScryptObject := ScryptObject cf; Version := Version cf;
     FeatureFlags := x; filename := filename cf |}.

(** [isFeatureFlagKnown]: is the string one of [knownFlags]? *)
Definition isFeatureFlagKnown (cf : ConfFile) (flag : string) : bool :=
  bool_decide (flag ∈ knownFlags <$> allFlags).

(** [IsFeatureFlagSet]: is the flag among [cf.FeatureFlags]? *)
Definition IsFeatureFlagSet (cf : ConfFile) (flagWant : flagIota) : bool :=
  bool_decide (knownFlags flagWant ∈ FeatureFlags cf).

(** What the package takes from outside the sources: [encoding/json] (a
    marshalled document is a value of [Doc]; a file holds the buffers
    written to it, in order), scrypt ([NewScryptKdf] draws its salt from
    the random source; [DeriveKey] is [None] when it panics), and the two
    lists of required flags. *)
Class Extern := {
  Doc : Type;
  json_MarshalIndent : ConfFile -> error + Doc;
  json_Unmarshal : list Doc -> error + ConfFile;
  NewScryptKdf : Z -> Rand -> scryptKdf * Rand;
  DeriveKey : scryptKdf -> string -> option bytes;
  requiredFlagsNormal : list flagIota;
  requiredFlagsPlaintextNames : list flagIota }.

(** Operations on the file system, and on the crypto layer. *)
Inductive FsOp :=
| OpOpenFile (name : string) (flag perm : Z)
| OpWrite (name : string)
| OpSync (name : string)
| OpClose (name : string)
| OpRename (oldpath newpath : string)
| OpReadFile (name : string).

Inductive Event :=
| EvFs (op : FsOp) (err : option Z)
| EvCryptoCoreNew (useOpenssl GCMIV128 : bool)
| EvContentEncNew (plainBS : Z)
| EvEncryptBlock (blockNo : Z) (fileID : bytes)
| EvDecryptBlock (blockNo : Z) (fileID : bytes).

Global Instance FsOp_eq_dec : EqDecision FsOp.
Proof. solve_decision. Defined.
Global Instance Event_eq_dec : EqDecision Event.
Proof. solve_decision. Defined.

(** The permission bits 0400 (octal): read-only to the owner. *)
Definition perm0400 : Z := 4 * 8 ^ 2.

Definition O_WRONLY : Z := 1.
Definition O_CREATE : Z := 64.
Definition O_EXCL : Z := 128.

Section configfile.

Context {ext : Extern} {aead : contentenc.AEAD}.

(** A file: its permission bits and what was written to it. *)
Record FileNode := { perm : Z; content : list Doc }.

(** The state: the file system by path; the faults the next file-system
    calls will meet; the random source; what was printed with
    [fmt.Printf]; [toggledlog.Warn] (its switch and its lines); the
    trace. *)
Record State := {
  fs : gmap string FileNode;
  faults : list (option Z);
  rng : Rand;
  stdout : list (string * list fmtArg);
  WarnEnabled : bool;
  WarnLog : list (string * list fmtArg);
  trace : list Event }.

Definition set_fs (x : gmap string FileNode) (s : State) : State :=
  {| fs := x; faults := faults s; rng := rng s; stdout := stdout s;
     WarnEnabled := WarnEnabled s; WarnLog := WarnLog s; trace := trace s |}.
Definition set_faults (x : list (option Z)) (s : State) : State :=
  {| fs := fs s; faults := x; rng := rng s; stdout := stdout s;
     WarnEnabled := WarnEnabled s; WarnLog := WarnLog s; trace := trace s |}.
Definition set_rng (x : Rand) (s : State) : State :=
  {| fs := fs s; faults := faults s; rng := x; stdout := stdout s;
     WarnEnabled := WarnEnabled s; WarnLog := WarnLog s; trace := trace s |}.
Definition set_stdout (x : list (string * list fmtArg)) (s : State) : State :=
  {| fs := fs s; faults := faults s; rng := rng s; stdout := x;
     WarnEnabled := WarnEnabled s; WarnLog := WarnLog s; trace := trace s |}.
Definition set_WarnEnabled (x : bool) (s : State) : State :=
  {| fs := fs s; faults := faults s; rng := rng s; stdout := stdout s;
     WarnEnabled := x; WarnLog := WarnLog s; trace := trace s |}.
Definition set_WarnLog (x : list (string * list fmtArg)) (s : State) : State :=
  {| fs := fs s; faults := faults s; rng := rng s; stdout := stdout s;
     WarnEnabled := WarnEnabled s; WarnLog := x; trace := trace s |}.
Definition log (e : Event) (s : State) : State :=
  {| fs := fs s; faults := faults s; rng := rng s; stdout := stdout s;
     WarnEnabled := WarnEnabled s; WarnLog := WarnLog s;
     trace := trace s ++ [e] |}.

Definition emit (e : Event) : M State unit := modify (log e).

(** An empty file system, no faults to come, nothing printed yet. *)
Definition emptyState (r : Rand) : State :=
  {| fs := ∅; faults := []; rng := r; stdout := []; WarnEnabled := true;
     WarnLog := []; trace := [] |}.

(** [fmt.Printf]. *)
Definition Printf (format : string) (args : list fmtArg) : M State unit :=
  modify (fun s => set_stdout (stdout s ++ [(format, args)]) s).

(** [toggledlog.Warn.Printf]: a line, when the logger is switched on. *)
Definition Warn_Printf (format : string) (args : list fmtArg) : M State unit :=
  modify (fun s =>
    if WarnEnabled s then set_WarnLog (WarnLog s ++ [(format, args)]) s else s).

(** *** The file system *)

(** A call fails when the next scripted fault says so; else [run]
    decides, from the file system, between an errno and a new file
    system. *)
Definition fsop (op : FsOp) (run : gmap string FileNode -> Z + gmap string FileNode)
  : M State (option Z) :=
  fun s =>
    let '(fault, rest) :=
      match faults s with
      | x :: rest => (x, rest)
      | [] => (None, [])
      end in
    match fault with
    | Some e => Ret (Some e) (log (EvFs op (Some e)) (set_faults rest s))
    | None =>
        match run (fs s) with
        | inl e => Ret (Some e) (log (EvFs op (Some e)) (set_faults rest s))
        | inr fs' => Ret None (log (EvFs op None) (set_fs fs' (set_faults rest s)))
        end
    end.

(** [os.OpenFile(name, flag, perm)] for writing: with [O_CREATE] the file
    is made, with the permission bits asked for, when it is not there;
    with [O_EXCL] as well, a file that is there is an error. *)
Definition os_OpenFile (name : string) (flag perm : Z) : M State (option error) :=
  r ← fsop (OpOpenFile name flag perm) (fun fs =>
         match fs !! name with
         | Some _ =>
             if Z.testbit flag 6 && Z.testbit flag 7 then inl fuse.EEXIST else inr fs
         | None =>
             if Z.testbit flag 6 then inr (<[name := {| perm := perm; content := [] |}]> fs)
             else inl fuse.ENOENT
         end);
  mret (PathError <$> r).

(** [fd.Write(js)], [fd.Sync()], [fd.Close()] on the file opened as
    [name]. *)
Definition fd_Write (name : string) (js : Doc) : M State (option error) :=
  r ← fsop (OpWrite name) (fun fs =>
         match fs !! name with
         | Some n => inr (<[name := {| perm := perm n; content := content n ++ [js] |}]> fs)
         | None => inl fuse.EBADF
         end);
  mret (PathError <$> r).
Definition fd_Sync (name : string) : M State (option error) :=
  r ← fsop (OpSync name) inr; mret (PathError <$> r).
Definition fd_Close (name : string) : M State (option error) :=
  r ← fsop (OpClose name) inr; mret (PathError <$> r).

(** [os.Rename(oldpath, newpath)]: the file takes the new path, replacing
    what was there. *)
Definition os_Rename (oldpath newpath : string) : M State (option error) :=
  r ← fsop (OpRename oldpath newpath) (fun fs =>
         match fs !! oldpath with
         | Some n => inr (<[newpath := n]> (delete oldpath fs))
         | None => inl fuse.ENOENT
         end);
  mret (LinkError <$> r).

(** [ioutil.ReadFile(filename)]. *)
Definition ioutil_ReadFile (name : string) : M State (list Doc * option error) :=
  r ← fsop (OpReadFile name) (fun fs =>
         match fs !! name with
         | Some _ => inr fs
         | None => inl fuse.ENOENT
         end);
  s ← get;
  match r with
  | Some e => mret ([], Some (PathError e))
  | None => mret (default [] (content <$> fs s !! name), None)
  end.

(** *** The crypto layer, with its calls in the trace *)

Definition cryptocore_New (key : bytes) (useOpenssl GCMIV128 : bool)
  : M State cryptocore.CryptoCore :=
  emit (EvCryptoCoreNew useOpenssl GCMIV128);;
  match cryptocore.New key useOpenssl GCMIV128 with
  | inl msg => panic msg
  | inr cc => mret cc
  end.

Definition contentenc_New (cc : cryptocore.CryptoCore) (plainBS : Z)
  : M State contentenc.impl.ContentEnc :=
  emit (EvContentEncNew plainBS);;
  mret (contentenc.impl.New cc plainBS).

Definition ce_EncryptBlock (ce : contentenc.impl.ContentEnc) (plaintext : bytes)
    (blockNo : Z) (fileID : bytes) : M State bytes :=
  emit (EvEncryptBlock blockNo fileID);;
  s ← get;
  let '(c, r) := contentenc.impl.EncryptBlock ce plaintext blockNo fileID (rng s) in
  modify (set_rng r);;
  mret c.

Definition ce_DecryptBlock (ce : contentenc.impl.ContentEnc) (ciphertext : bytes)
    (blockNo : Z) (fileID : bytes) : M State (error + bytes) :=
  emit (EvDecryptBlock blockNo fileID);;
  mret (contentenc.impl.DecryptBlock ce ciphertext blockNo fileID).

(** [cf.ScryptObject.DeriveKey(password)]. *)
Definition ScryptObject_DeriveKey (cf : ConfFile) (password : string) : M State bytes :=
  match DeriveKey (ScryptObject cf) password with
  | Some k => mret k
  | None => panic "DeriveKey failed"
  end.

(** [cryptocore.RandBytes]. *)
Definition cryptocore_RandBytes (n : Z) : M State bytes :=
  s ← get;
  let '(b, r) := RandBytes (Z.to_nat n) (rng s) in
  modify (set_rng r);;
  mret b.

(** *** The package *)

(** [EncryptKey]: encrypt [key] using an scrypt hash generated from
    [password] and store it in [cf.EncryptedKey]. *)
Definition EncryptKey (cf : ConfFile) (key : bytes) (password : string) (logN : Z)
  : M State ConfFile :=
  (* Generate derived key from password *)
  s ← get;
  let '(kdf, r) := NewScryptKdf logN (rng s) in
  modify (set_rng r);;
  let cf := set_ScryptObject kdf cf in
  scryptHash ← ScryptObject_DeriveKey cf password;
  (* Lock master key using password-based key *)
  cc ← cryptocore_New scryptHash false false;
  ce ← contentenc_New cc 4096;
  c ← ce_EncryptBlock ce key 0 [];
  mret (set_EncryptedKey c cf).

(** [WriteFile]: write out config in JSON format to file "filename.tmp"
    then rename over "filename". *)
Definition WriteFile (cf : ConfFile) : M State (option error) :=
  let tmp := filename cf +:+ ".tmp" in
  (* 0400 permissions: gocryptfs.conf should be kept secret and never be
     written to. *)
  err ← os_OpenFile tmp (Z.lor (Z.lor O_WRONLY O_CREATE) O_EXCL) perm0400;
  match err with
  | Some e => mret (Some e)
  | None =>
  match json_MarshalIndent cf with
  | inl e => mret (Some e)
  | inr js =>
  err ← fd_Write tmp js;
  match err with
  | Some e => mret (Some e)
  | None =>
  err ← fd_Sync tmp;
  match err with
  | Some e => mret (Some e)
  | None =>
  err ← fd_Close tmp;
  match err with
  | Some e => mret (Some e)
  | None =>
  err ← os_Rename tmp (filename cf);
  match err with
  | Some e => mret (Some e)
  | None => mret None
  end end end end end end.

(** [CreateConfFile]: create a new config with a random key encrypted
    with [password] and write it to [filename]. *)
Definition CreateConfFile (filename : string) (password : string)
    (plaintextNames : bool) (logN : Z) (creator : string) : M State (option error) :=
  let cf := zeroConfFile in
  let cf := set_filename filename cf in
  let cf := set_Creator creator cf in
  let cf := set_Version contentenc.CurrentVersion cf in
  (* Generate new random master key *)
  key ← cryptocore_RandBytes cryptocore.KeyLen;
  (* Encrypt it using the password *)
  cf ← EncryptKey cf key password logN;
  (* Set feature flags *)
  let cf := set_FeatureFlags (FeatureFlags cf ++ [knownFlags FlagGCMIV128]) cf in
  let cf :=
    if plaintextNames then
      set_FeatureFlags (FeatureFlags cf ++ [knownFlags FlagPlaintextNames]) cf
    else
      let cf := set_FeatureFlags (FeatureFlags cf ++ [knownFlags FlagDirIV]) cf in
      let cf := set_FeatureFlags (FeatureFlags cf ++ [knownFlags FlagEMENames]) cf in
      set_FeatureFlags (FeatureFlags cf ++ [knownFlags FlagLongNames]) cf in
  (* Write file to disk *)
  WriteFile cf.

(** The loop of [LoadConfFile] over the required flags: a line for each
    that is missing; is any? *)
Fixpoint checkRequired (cf : ConfFile) (required : list flagIota) (deprecatedFs : bool)
  : M State bool :=
  match required with
  | [] => mret deprecatedFs
  | i :: rest =>
      if negb (IsFeatureFlagSet cf i) then
        (* For now, warn but continue. *)
        Printf "Deprecated filesystem: feature flag %q is missing\n" [ArgStr (knownFlags i)];;
        checkRequired cf rest true
      else checkRequired cf rest deprecatedFs
  end.

(** The text printed for a deprecated filesystem (without its colour
    codes). *)
Definition deprecatedBanner : string :=
  "
    This filesystem was created by gocryptfs v0.6 or earlier. You are missing
    security improvements. gocryptfs v1.0 is scheduled to drop support for this
    filesystem, please upgrade!
    If you disagree with the plan or have trouble upgrading, please join the
    discussion at https://github.com/rfjakob/gocryptfs/issues/29 .

".

(** The loop of [LoadConfFile] over the flags of the file: the first
    that is not known, if any. *)
Fixpoint checkKnown (cf : ConfFile) (flags : list string) : option string :=
  match flags with
  | [] => None
  | flag :: rest =>
      if negb (isFeatureFlagKnown cf flag) then Some flag
      else checkKnown cf rest
  end.

(** [LoadConfFile]: read config file from disk and decrypt the contained
    key using [password]. *)
Definition LoadConfFile (filename : string) (password : string)
  : M State (error + bytes * ConfFile) :=
  (* Read from disk *)
  '(js, err) ← ioutil_ReadFile filename;
  match err with
  | Some e => mret (inl e)
  | None =>
  (* Unmarshal *)
  match json_Unmarshal js with
  | inl e => Warn_Printf "Failed to unmarshal config file" [];; mret (inl e)
  | inr cf =>
  let cf := set_filename filename cf in
  if negb (Version cf =? contentenc.CurrentVersion) then
    mret (inl (Errorf "Unsupported on-disk format %d" [ArgInt (Version cf)]))
  else
  (* Check that all set feature flags are known *)
  match checkKnown cf (FeatureFlags cf) with
  | Some flag => mret (inl (Errorf "Unsupported feature flag %q" [ArgStr flag]))
  | None =>
  (* Check that all required feature flags are set *)
  let requiredFlags :=
    if IsFeatureFlagSet cf FlagPlaintextNames then requiredFlagsPlaintextNames
    else requiredFlagsNormal in
  deprecatedFs ← checkRequired cf requiredFlags false;
  (if (deprecatedFs : bool) then Printf deprecatedBanner [] else mret tt);;
  (* Generate derived key from password *)
  scryptHash ← ScryptObject_DeriveKey cf password;
  (* Unlock master key using password-based key *)
  cc ← cryptocore_New scryptHash false false;
  ce ← contentenc_New cc 4096;
  modify (set_WarnEnabled false);;
  r ← ce_DecryptBlock ce (EncryptedKey cf) 0 [];
  modify (set_WarnEnabled true);;
  match r with
  | inl e =>
      Warn_Printf "failed to unlock master key: %s" [ArgStr (Error e)];;
      mret (inl (Errorf "Password incorrect." []))
  | inr key => mret (inr (key, cf))
  end end end end.

End configfile.

End configfile.

(** ** internal/fusefrontend: plaintext and ciphertext paths (names.go) *)

Module names.

(** The fields of [fs.args] that the path functions read. *)
Record Args := {
  PlaintextNames : bool;
  DirIV : bool;
  Cipherdir : string }.

(** What the path functions do that can be seen from outside: the read
    lock [fs.dirIVLock], the calls of the name transformation, and the
    line of [toggledlog.Info]. *)
Inductive Event :=
| EvRLock | EvRUnlock
| EvEncryptPathNoIV (plainPath : string)
| EvEncryptPathDirIV (plainPath rootDir : string)
| EvDecryptPathNoIV (cipherPath : string)
| EvDecryptPathDirIV (cipherPath rootDir : string)
| EvInfo (format : string) (args : list fmtArg).

Global Instance Event_eq_dec : EqDecision Event.
Proof. solve_decision. Defined.

Section names.

(** The name transformation ([fs.nameTransform]) is not among the
    sources.  Its methods work on a world [W] of their own (the
    directory IVs on disk); they may fail, and they may panic, but they
    have no hand on [fs.dirIVLock]. *)
Variable W : Type.
Variable EncryptPathNoIV : string -> W -> outcome W string.
Variable EncryptPathDirIV : string -> string -> W -> outcome W (string * option error).
Variable DecryptPathNoIV : string -> W -> outcome W (string * option error).
Variable DecryptPathDirIV : string -> string -> W -> outcome W (string * option error).

(** [filepath.Join] of two elements. *)
Variable filepath_Join : string -> string -> string.

Record State := { world : W; trace : list Event }.

Definition emit (e : Event) : M State unit :=
  modify (fun s => {| world := world s; trace := trace s ++ [e] |}).

(** A call of the name transformation, noted in the trace. *)
Definition call {A} (e : Event) (f : W -> outcome W A) : M State A :=
  fun s =>
    let s1 := {| world := world s; trace := trace s ++ [e] |} in
    match f (world s) with
    | Ret a w => Ret a {| world := w; trace := trace s1 |}
    | Panic msg w => Panic msg {| world := w; trace := trace s1 |}
    end.

(** [isFiltered]: check if plaintext [path] should be forbidden. *)
Definition isFiltered (args : Args) (path : string) : M State bool :=
  if negb (PlaintextNames args) then mret false
  else if bool_decide (path = configfile.ConfDefaultName) then
    (* gocryptfs.conf in the root directory is forbidden *)
    emit (EvInfo "The name /%s is reserved when -plaintextnames is used\n"
            [ArgStr configfile.ConfDefaultName]);;
    mret true
  else mret false.

(** [encryptPath]: encrypt relative plaintext path. *)
Definition encryptPath (args : Args) (plainPath : string)
  : M State (string * option error) :=
  if PlaintextNames args then mret (plainPath, None)
  else if negb (DirIV args) then
    cPath ← call (EvEncryptPathNoIV plainPath) (EncryptPathNoIV plainPath);
    mret (cPath, None)
  else
    emit EvRLock;;
    r ← call (EvEncryptPathDirIV plainPath (Cipherdir args))
          (EncryptPathDirIV plainPath (Cipherdir args));
    emit EvRUnlock;;
    mret r.

(** [getBackingPath]: the absolute encrypted path of the backing file. *)
Definition getBackingPath (args : Args) (relPath : string)
  : M State (string * option error) :=
  '(cPath, err) ← encryptPath args relPath;
  match err with
  | Some e => mret (""%string, Some e)
  | None => mret (filepath_Join (Cipherdir args) cPath, None)
  end.

(** [decryptPath]: decrypt relative ciphertext path. *)
Definition decryptPath (args : Args) (cipherPath : string)
  : M State (string * option error) :=
  if PlaintextNames args then mret (cipherPath, None)
  else if negb (DirIV args) then
    call (EvDecryptPathNoIV cipherPath) (DecryptPathNoIV cipherPath)
  else
    emit EvRLock;;
    defer (emit EvRUnlock)
      (call (EvDecryptPathDirIV cipherPath (Cipherdir args))
         (DecryptPathDirIV cipherPath (Cipherdir args))).

End names.

Arguments world {W} s.
Arguments trace {W} s.

End names.

(** ** package main: reading the password (password.go) *)

Module main.

(** How a run of the program goes on after a call: with a value, with
    [os.Exit(code)], or with a run-time panic. *)
Inductive result (A : Type) : Type :=
| Val (a : A)
| Exit (code : Z)
| Crash (msg : string).
Arguments Val {A} a.
Arguments Exit {A} code.
Arguments Crash {A} msg.

(** The state: what was written to [os.Stderr]; the lines of
    [toggledlog.Fatal]; what [terminal.ReadPassword] will return, call by
    call; the programs that were run. *)
Record State := {
  stderr : list string;
  fatal : list (string * list fmtArg);
  tty : list (string * option error);
  execs : list (string * list string) }.

Definition P (A : Type) : Type := State -> result A * State.

Global Instance P_ret : MRet P := fun A a s => (Val a, s).
Global Instance P_bind : MBind P := fun A B k m s =>
  match m s with
  | (Val a, s') => k a s'
  | (Exit code, s') => (Exit code, s')
  | (Crash msg, s') => (Crash msg, s')
  end.

Definition os_Exit {A} (code : Z) : P A := fun s => (Exit code, s).
Definition crash {A} (msg : string) : P A := fun s => (Crash msg, s).

(** [fmt.Fprintf(os.Stderr, text)]. *)
Definition Fprintf_stderr (text : string) : P unit := fun s =>
  (Val tt, {| stderr := stderr s ++ [text]; fatal := fatal s; tty := tty s;
              execs := execs s |}).

(** [toggledlog.Fatal.Printf] and [Println]: a line of the logger; the
    process goes on. *)
Definition Fatal_Printf (format : string) (args : list fmtArg) : P unit := fun s =>
  (Val tt, {| stderr := stderr s; fatal := fatal s ++ [(format, args)]; tty := tty s;
              execs := execs s |}).

(** [terminal.ReadPassword(fd)]: the next line typed, without its
    newline, or an error; end of input when nothing is left. *)
Definition terminal_ReadPassword : P (string * option error) := fun s =>
  match tty s with
  | r :: rest =>
      (Val r, {| stderr := stderr s; fatal := fatal s; tty := rest; execs := execs s |})
  | [] => (Val (""%string, Some io_EOF), s)
  end.

(** The blank, and the newline. *)
Definition space : Ascii.ascii := Ascii.ascii_of_nat 32.
Definition newline : Ascii.ascii := Ascii.ascii_of_nat 10.

(** [strings.Split(s, " ")]: the pieces of [s] between blanks; one
    piece more than there are blanks. *)
Fixpoint Split (s : string) : list string :=
  match s with
  | EmptyString => [EmptyString]
  | String c rest =>
      if Ascii.eqb c space then EmptyString :: Split rest
      else
        match Split rest with
        | piece :: pieces => String c piece :: pieces
        | [] => [String c EmptyString]
        end
  end.

(** [output[:len(output)-1]] and [output[len(output)-1]]. *)
Fixpoint dropLast (s : string) : string :=
  match s with
  | EmptyString => EmptyString
  | String c EmptyString => EmptyString
  | String c rest => String c (dropLast rest)
  end.

Fixpoint lastByte (s : string) : option Ascii.ascii :=
  match s with
  | EmptyString => None
  | String c EmptyString => Some c
  | String c rest => lastByte rest
  end.

Section password.

(** The exit code and the colour codes are constants of package main
    that are not among the sources. *)
Variable ERREXIT_PASSWORD : Z.
Variable colorRed colorReset : string.

(** What [cmd.Output()] gives for a program and its arguments: the bytes
    of its standard output, and an error when it could not be run or
    failed. *)
Variable program : string -> list string -> string * option error.

(** [exec.Command(name, args...)] and [cmd.Output()]. *)
Definition cmd_Output (name : string) (args : list string) : P (string * option error) :=
  fun s =>
    (Val (program name args),
     {| stderr := stderr s; fatal := fatal s; tty := tty s;
        execs := execs s ++ [(name, args)] |}).

(** [readPassword]: get password from terminal or from the [extpass]
    program. *)
Definition readPassword (extpass : string) : P string :=
  output ←
    (if negb (bool_decide (extpass = ""%string)) then
       let parts := Split extpass in
       '(output, err) ← cmd_Output (default ""%string (head parts)) (tail parts);
       match err with
       | Some e =>
           Fatal_Printf (colorRed +:+ "extpass program returned error: %v\n" +:+ colorReset)
             [ArgStr (Error e)];;
           os_Exit ERREXIT_PASSWORD
       | None =>
           (* Trim trailing newline like terminal.ReadPassword() does *)
           match lastByte output with
           | None => crash "index out of range"
           | Some c =>
               if Ascii.eqb c newline then mret (dropLast output) else mret output
           end
       end
     else
       '(output, err) ← terminal_ReadPassword;
       match err with
       | Some e =>
           Fatal_Printf
             (colorRed +:+ "Could not read password from terminal: %v\n" +:+ colorReset)
             [ArgStr (Error e)];;
           os_Exit ERREXIT_PASSWORD
       | None => Fprintf_stderr (String newline EmptyString);; mret output
       end);
  let password := output in
  if bool_decide (password = ""%string) then
    Fatal_Printf (colorRed +:+ "Password is empty\n" +:+ colorReset) [];;
    os_Exit ERREXIT_PASSWORD
  else mret password.

(** [readPasswordTwice]. *)
Definition readPasswordTwice (extpass : string) : P string :=
  if bool_decide (extpass = ""%string) then
    Fprintf_stderr "Password: ";;
    p1 ← readPassword "";
    Fprintf_stderr "Repeat: ";;
    p2 ← readPassword "";
    if negb (bool_decide (p1 = p2)) then
      Fatal_Printf (colorRed +:+ "Passwords do not match" +:+ colorReset) [];;
      os_Exit ERREXIT_PASSWORD
    else mret p1
  else readPassword extpass.

End password.

End main.

(** ** Instances to run the embedding on

    The statements below hold for every AEAD, JSON codec and scrypt; to
    evaluate the embedding on concrete inputs, stand-ins are fixed here: an
    AEAD with the length contract of AES-GCM whose tag is the first 16 bytes
    of the key, a codec that stores the record itself, a key derivation that
    pads or cuts the password to the key length. *)

Module Demo.

Import configfile.

Definition toyTag (key : bytes) : bytes :=
  take 16 (key ++ replicate 16 x00).

#[export] Instance toyAEAD : contentenc.AEAD :=
  {| contentenc.Seal key nonce plaintext aData := plaintext ++ toyTag key;
     contentenc.Open key nonce ciphertext aData :=
       let n := (length ciphertext - 16)%nat in
       if bool_decide (16 <= length ciphertext)%nat
          && bool_decide (drop n ciphertext = toyTag key)
       then Some (take n ciphertext) else None |}.

#[export] Instance toyExtern : Extern :=
  {| Doc := ConfFile;
     json_MarshalIndent cf := inr cf;
     json_Unmarshal js :=
       match js with
       | [cf] => inr cf
       | _ => inl (Errorf "unexpected end of JSON input" [])
       end;
     NewScryptKdf logN r :=
       let '(salt, r') := RandBytes 32 r in
       ({| Salt := salt; N := 2 ^ logN; R := 8; P := 1; KeyLen := cryptocore.KeyLen |}, r');
     DeriveKey kdf pw :=
       Some (take (Z.to_nat (KeyLen kdf))
               (String.list_byte_of_string pw ++ replicate (Z.to_nat (KeyLen kdf)) x00));
     requiredFlagsNormal := [FlagDirIV; FlagEMENames; FlagGCMIV128];
     requiredFlagsPlaintextNames := [FlagGCMIV128] |}.

(** A random tape: the byte values in turn. *)
Definition tape0 : Rand :=
  {| tape n := default x00 (Byte.of_nat (n mod 256)); pos := 0 |}.

(** An empty file system, nothing printed, no faults. *)
Definition conf0 : configfile.State := emptyState tape0.

(** The state after creating "t.conf" with the password "foo", and the
    config that was written. *)
Definition created : configfile.State :=
  final (CreateConfFile "t.conf" "foo" false 10 "v1.0" conf0).

Definition createdConfFile : ConfFile :=
  match fs created !! "t.conf" with
  | Some {| content := [cf] |} => cf
  | _ => zeroConfFile
  end.



(** A file system with one config file. *)
Definition nodeOf (cf : ConfFile) : FileNode :=
  {| perm := perm0400; content := [cf] |}.

Definition withFile (name : string) (cf : ConfFile) : configfile.State :=
  set_fs {[ name := nodeOf cf ]} conf0.

(** Configs after the fixtures of the tests: an outdated version 1, an
    unknown feature flag, and a filesystem of an old release, without
    the flags that are required today. *)
Definition confV1 : ConfFile := set_Version 1 createdConfFile.
Definition confStrange : ConfFile :=
  set_FeatureFlags ["GCMIV128"; "StrangeFeature"] createdConfFile.
Definition confLegacy : ConfFile := set_FeatureFlags ["DirIV"] createdConfFile.

(** The content encryption of a mounted filesystem: 4096-byte blocks,
    128-bit nonces, 16-byte file IDs. *)
Definition masterKey : bytes := replicate 32 x01.

Definition demoCore : cryptocore.CryptoCore :=
  match cryptocore.New masterKey true true with
  | inr cc => cc
  | inl _ =>
      {| cryptocore.BlockCipher := []; cryptocore.Gcm := cryptocore.stupidGCM;
         cryptocore.GcmIVGen := 0; cryptocore.IVLen := 0 |}
  end.

#[export] Instance demoEnc : contentenc.ContentEnc :=
  contentenc.impl.ops 16 (contentenc.impl.New demoCore 4096).

Import fusefrontend.

(** A fresh handle on an empty backing file. *)
Definition file0 : file :=
  {| released := false; writeOnly := false; ino := 7; header := None |}.

Definition handle0 : fusefrontend.State :=
  {| hdl := file0; fdOpen := true; backing := []; fusefrontend.faults := [];
     fusefrontend.rng := tape0; wlock := {[ 7 := 1%nat ]}; fusefrontend.trace := [] |}.

(** Modelled from the spec: [createsHole] and [zeroPad] are not among the
    sources.  "If a write starts beyond the current plaintext size, the
    handle first zero-pads ... via the same mechanism as growing
    truncation".  [zeroPad] is called with the plaintext size alone; it
    pads the last block to its end with [doWrite] of zeros, which is what
    growing truncation does for a partial block. *)
Definition createsHole (f : file) (plainSize off : Z) : bool :=
  plainSize <? u64 off.

Definition zeroPad (plainSize : Z) : M fusefrontend.State fuse.Status :=
  let lastBlockLen := plainSize mod contentenc.PlainBS in
  let missing := contentenc.PlainBS - lastBlockLen in
  '(_, status) ← doWrite (zeros missing) (i64 plainSize);
  mret status.

(** The handle after [Release]. *)
Definition releasedHandle : State := final (Release handle0).

(** The handle after one block of 4096 letters A was written to the empty
    file. *)
Definition oneBlock : State := final (doWrite (replicate 4096 x41) 0 handle0).

(** The handle with its header cached (after an empty write). *)
Definition withHeader : State := final (doWrite [] 0 handle0).

(** Stand-ins for the name transformation, over a world that counts its
    calls: a name is encrypted by putting "enc:" before it, and the
    directory of the path "gone" has no IV file any more, at which the
    stand-in panics. *)
Definition toyEncryptPathNoIV (plainPath : string) (w : nat) : outcome nat string :=
  Ret ("enc:" +:+ plainPath)%string (S w).

Definition toyEncryptPathDirIV (plainPath rootDir : string) (w : nat)
  : outcome nat (string * option error) :=
  if bool_decide (plainPath = "gone"%string) then Panic "no directory IV" (S w)
  else Ret (("enc:" +:+ plainPath)%string, None) (S w).

Definition toyDecryptPathNoIV (cipherPath : string) (w : nat)
  : outcome nat (string * option error) :=
  Ret (String.substring 4 (String.length cipherPath - 4) cipherPath, None) (S w).

Definition toyDecryptPathDirIV (cipherPath rootDir : string) (w : nat)
  : outcome nat (string * option error) :=
  if bool_decide (cipherPath = "gone"%string) then Panic "no directory IV" (S w)
  else Ret (String.substring 4 (String.length cipherPath - 4) cipherPath, None) (S w).

Definition toyJoin (dir name : string) : string := (dir +:+ "/" +:+ name)%string.

(** A filesystem with directory IVs, one without, and a state in which
    nothing has happened yet. *)
Definition dirIVArgs : names.Args :=
  {| names.PlaintextNames := false; names.DirIV := true; names.Cipherdir := "/c" |}.

Definition noIVArgs : names.Args :=
  {| names.PlaintextNames := false; names.DirIV := false; names.Cipherdir := "/c" |}.

Definition names0 : names.State nat := {| names.world := 0%nat; names.trace := [] |}.

(** Stand-ins for the programs of [-extpass]: "echo" prints its arguments
    and a newline, "true" prints nothing, any other program fails. *)
Definition toyProgram (name : string) (args : list string) : string * option error :=
  if bool_decide (name = "echo"%string) then
    ((String.concat " " args +:+ String main.newline EmptyString)%string, None)
  else if bool_decide (name = "true"%string) then (""%string, None)
  else (""%string, Some (Errorf "exit status 1" [])).

(** A terminal at which "abc" is typed twice, and a run that has not
    started. *)
Definition typedTwice : main.State :=
  {| main.stderr := []; main.fatal := [];
     main.tty := [("abc"%string, None); ("abc"%string, None)]; main.execs := [] |}.

Definition main0 : main.State :=
  {| main.stderr := []; main.fatal := []; main.tty := []; main.execs := [] |}.

End Demo.

(** * Vocabulary of the statements *)

(** ** The config file *)

Section configfile_vocabulary.

Import configfile.
Context {ext : Extern} {aead : contentenc.AEAD}.

(** No fault is scripted for the next file-system call. *)
Definition nofault (s : State) : Prop :=
  forall e, head (faults s) <> Some (Some e).

(** The crypto calls of wrapping and of unwrapping the master key. *)
Definition wrapEvents : list Event :=
  [EvCryptoCoreNew false false; EvContentEncNew 4096; EvEncryptBlock 0 []].

Definition unwrapEvents : list Event :=
  [EvCryptoCoreNew false false; EvContentEncNew 4096; EvDecryptBlock 0 []].

(** The file-system calls of a config write that succeeds. *)
Definition writeEvents (name : string) : list Event :=
  [EvFs (OpOpenFile (name +:+ ".tmp") (Z.lor (Z.lor O_WRONLY O_CREATE) O_EXCL) perm0400) None;
   EvFs (OpWrite (name +:+ ".tmp")) None;
   EvFs (OpSync (name +:+ ".tmp")) None;
   EvFs (OpClose (name +:+ ".tmp")) None;
   EvFs (OpRename (name +:+ ".tmp") name) None].

Definition isCrypto (e : Event) : bool :=
  match e with
  | EvFs _ _ => false
  | _ => true
  end.

(** The crypto core with 96-bit nonces and Go's GCM, under the key [k]. *)
Definition wrapCore (k : bytes) : cryptocore.CryptoCore :=
  {| cryptocore.BlockCipher := k; cryptocore.Gcm := cryptocore.goGCM 12;
     cryptocore.GcmIVGen := 12; cryptocore.IVLen := 12 |}.

(** The feature flags [CreateConfFile] sets. *)
Definition creationFlags (plaintextNames : bool) : list string :=
  if plaintextNames then ["GCMIV128"; "PlaintextNames"]
  else ["GCMIV128"; "DirIV"; "EMENames"; "LongNames"].

(** The required flags of a config, those of them that are missing, and
    what [LoadConfFile] prints about them. *)
Definition requiredFlags (cf : ConfFile) : list flagIota :=
  if IsFeatureFlagSet cf FlagPlaintextNames then requiredFlagsPlaintextNames
  else requiredFlagsNormal.

Definition missingFlags (cf : ConfFile) (required : list flagIota) : list flagIota :=
  filter (fun i => IsFeatureFlagSet cf i = false) required.

Definition missingLine (i : flagIota) : string * list fmtArg :=
  ("Deprecated filesystem: feature flag %q is missing\n"%string, [ArgStr (knownFlags i)]).

Definition warnings (cf : ConfFile) : list (string * list fmtArg) :=
  match missingFlags cf (requiredFlags cf) with
  | [] => []
  | missing => (missingLine <$> missing) ++ [(deprecatedBanner, [])]
  end.

(** What [LoadConfFile] does with the key derived from the password: the
    result of unwrapping [cf.EncryptedKey] under [k]. *)
Definition unwrap (k : bytes) (cf : ConfFile) : error + bytes * ConfFile :=
  match contentenc.impl.DecryptBlock (contentenc.impl.New (wrapCore k) 4096)
          (EncryptedKey cf) 0 [] with
  | inr key => inr (key, cf)
  | inl _ => inl (Errorf "Password incorrect." [])
  end.

(** The record [CreateConfFile] writes, for the derived key [k]. *)
Definition createdConf (filename creator : string) (plaintextNames : bool)
    (logN : Z) (key k : bytes) (r : Rand) : ConfFile :=
  let kdf := (NewScryptKdf logN r).1 in
  let nonce := (RandBytes 12 (NewScryptKdf logN r).2).1 in
  {| Creator := creator;
     EncryptedKey := nonce ++ contentenc.Seal k nonce key ([], 0);
     ScryptObject := kdf;
     Version := contentenc.CurrentVersion;
     FeatureFlags := creationFlags plaintextNames;
     filename := filename |}.

(** The read of the config file in the trace. *)
Definition readEv (name : string) (r : option Z) : Event := EvFs (OpReadFile name) r.

(** Every outcome of [LoadConfFile], with the reason for it, what was
    printed and what was called. *)
Inductive loads (filename pw : string) (s : State)
  : outcome State (error + bytes * ConfFile) -> Prop :=
| loads_read_error e s' :
    head (faults s) = Some (Some e) \/ (fs s !! filename = None /\ e = fuse.ENOENT) ->
    trace s' = trace s ++ [readEv filename (Some e)] ->
    stdout s' = stdout s -> fs s' = fs s ->
    loads filename pw s (Ret (inl (PathError e)) s')
| loads_unmarshal_error node e s' :
    nofault s -> fs s !! filename = Some node ->
    json_Unmarshal (content node) = inl e ->
    trace s' = trace s ++ [readEv filename None] ->
    stdout s' = stdout s -> fs s' = fs s ->
    loads filename pw s (Ret (inl e) s')
| loads_version node cf s' :
    nofault s -> fs s !! filename = Some node ->
    json_Unmarshal (content node) = inr cf ->
    Version cf <> contentenc.CurrentVersion ->
    trace s' = trace s ++ [readEv filename None] ->
    stdout s' = stdout s -> fs s' = fs s ->
    loads filename pw s
      (Ret (inl (Errorf "Unsupported on-disk format %d" [ArgInt (Version cf)])) s')
| loads_flag node cf flag s' :
    nofault s -> fs s !! filename = Some node ->
    json_Unmarshal (content node) = inr cf ->
    Version cf = contentenc.CurrentVersion ->
    checkKnown cf (FeatureFlags cf) = Some flag ->
    trace s' = trace s ++ [readEv filename None] ->
    stdout s' = stdout s -> fs s' = fs s ->
    loads filename pw s
      (Ret (inl (Errorf "Unsupported feature flag %q" [ArgStr flag])) s')
| loads_derive_panic node cf msg s' :
    nofault s -> fs s !! filename = Some node ->
    json_Unmarshal (content node) = inr cf ->
    Version cf = contentenc.CurrentVersion ->
    checkKnown cf (FeatureFlags cf) = None ->
    DeriveKey (ScryptObject cf) pw = None ->
    trace s' = trace s ++ [readEv filename None] ->
    stdout s' = stdout s ++ warnings cf -> fs s' = fs s ->
    loads filename pw s (Panic msg s')
| loads_keylen_panic node cf k msg s' :
    nofault s -> fs s !! filename = Some node ->
    json_Unmarshal (content node) = inr cf ->
    Version cf = contentenc.CurrentVersion ->
    checkKnown cf (FeatureFlags cf) = None ->
    DeriveKey (ScryptObject cf) pw = Some k -> len k <> 32 ->
    trace s' = trace s ++ [readEv filename None; EvCryptoCoreNew false false] ->
    stdout s' = stdout s ++ warnings cf -> fs s' = fs s ->
    loads filename pw s (Panic msg s')
| loads_unwrap node cf k s' :
    nofault s -> fs s !! filename = Some node ->
    json_Unmarshal (content node) = inr cf ->
    Version cf = contentenc.CurrentVersion ->
    checkKnown cf (FeatureFlags cf) = None ->
    DeriveKey (ScryptObject cf) pw = Some k -> len k = 32 ->
    trace s' = trace s ++ readEv filename None :: unwrapEvents ->
    stdout s' = stdout s ++ warnings cf -> fs s' = fs s ->
    loads filename pw s (Ret (unwrap k (set_filename filename cf)) s').





End configfile_vocabulary.

(** ** The file handle *)

Section handle_vocabulary.

Import contentenc fusefrontend.
Context {ce : ContentEnc}.

(** The next system call on the descriptor fails with errno [e]: the
    descriptor is closed, or a fault is scripted. *)
Definition next_fails (st : State) (e : Z) : Prop :=
  (fdOpen st = false /\ e = fuse.EBADF) \/
  (fdOpen st = true /\ exists p, head (faults st) = Some (Some p) /\ e = Z.pos p).

(** The next system call on the descriptor meets no fault. *)
Definition next_runs (st : State) : Prop :=
  fdOpen st = true /\ forall e, head (faults st) <> Some (Some e).

(** What is deferred by a FUSE call that has taken the write lock of
    inode [i]: the write lock is released, then the descriptor lock. *)
Definition unlocks (i : Z) {A} (o : outcome State A) : outcome State A :=
  match o with
  | Ret a st => Ret a (log EvRUnlock (log (EvWlockUnlock i) st))
  | Panic m st => Panic m (log EvRUnlock (log (EvWlockUnlock i) st))
  end.

(** Every event that [m] adds to the trace satisfies [Q], however [m]
    ends. *)
Definition adds (Q : Event -> Prop) {A} (m : M State A) : Prop :=
  forall st, exists evs,
    trace (final (m st)) = trace st ++ evs /\ Forall Q evs.

(** The events of growing a file: the entries of [doWrite] and the
    [Ftruncate] calls; and the rest. *)
Definition isGrow (e : Event) : bool :=
  match e with
  | EvDoWrite _ _ => true
  | EvSyscall (ScFtruncate _) _ => true
  | _ => false
  end.

Definition quiet (e : Event) : Prop :=
  match e with
  | EvDoWrite _ _ => False
  | EvSyscall (ScFtruncate _) _ => False
  | _ => True
  end.

(** What a deferred [emit] does to an outcome. *)
Definition after (e : Event) {A} (o : outcome State A) : outcome State A :=
  match o with
  | Ret a st => Ret a (log e st)
  | Panic m st => Panic m (log e st)
  end.

(** What growing truncation does for a block: [doWrite] of zeros for a
    block that is covered in part, [Ftruncate] to the end of its ciphertext
    for a block that is covered in full. *)
Definition growEvent (b : intraBlock) : Event :=
  if IsPartial b then
    EvDoWrite (i64 (u64 ((PlaintextRange b).1 + Skip b))) (len (zeros (Length b)))
  else
    EvSyscall (ScFtruncate (i64 (u64 ((CiphertextRange b).1 + (CiphertextRange b).2)))) None.

(** An event that is not the taking or the release of a lock. *)
Definition calm (e : Event) : Prop :=
  match e with
  | EvSyscall _ _ | EvEncryptBlock _ _ | EvDoWrite _ _ | EvZeroPad _ | EvReleased => True
  | _ => False
  end.

(** [m] run in [st] adds [opening], then events that are no lock
    events, then [closing], however it ends. *)
Definition brackets (opening closing : list Event) {A} (m : M State A) (st : State)
  : Prop :=
  exists mid,
    trace (final (m st)) = trace st ++ opening ++ mid ++ closing /\ Forall calm mid.

(** What a call that only reads or only changes metadata must leave as
    it is: the bytes of the backing file, the descriptor, the random
    source, the write-lock table, and the handle but for its cached
    header. *)
Definition fileView (s : State)
  : bytes * bool * Rand * gmap Z nat * (bool * bool * Z) :=
  (backing s, fdOpen s, rng s, wlock s,
   (released (hdl s), writeOnly (hdl s), ino (hdl s))).

(** [m] leaves [f] of the state as it is, however it ends. *)
Definition keeps {X} (f : State -> X) {A} (m : M State A) : Prop :=
  forall st, f (final (m st)) = f st.

(** What [doWrite] has added to [written] after the blocks [blocks]. *)
Definition lengthSum (blocks : list intraBlock) (written : Z) : Z :=
  fold_left (fun acc b => u32 (acc + u32 (Length b))) blocks written.

End handle_vocabulary.

(** * Properties *)

(** ** The config file *)

Section configfile_facts.

Import configfile.
Context {ext : Extern} {aead : contentenc.AEAD}.

(** *** The steps *)

Lemma tmp_neq (name : string) : name +:+ ".tmp" <> name.
Proof.
  intros H. apply (f_equal String.length) in H. revert H.
  induction name as [|a name IH]; simpl; [discriminate|]. intros H. apply IH. lia.
Qed.

Lemma length_RandBytes n r : length (RandBytes n r).1 = n.
Proof. unfold RandBytes. simpl. by rewrite length_map, length_seq. Qed.

Local Opaque RandBytes.

Lemma New_wrap k :
  cryptocore.New k false false =
    if len k =? 32 then inr (wrapCore k) else inl "Unsupported key length %d"%string.
Proof. unfold cryptocore.New, cryptocore.KeyLen. by destruct (len k =? 32). Qed.

(** A file-system call never panics; it fails and leaves the file system
    as it was, or it runs. *)
Lemma fsop_spec op run s :
  exists r s', fsop op run s = Ret r s' /\
    trace s' = trace s ++ [EvFs op r] /\
    stdout s' = stdout s /\
    match r with
    | Some e => fs s' = fs s /\
                (head (faults s) = Some (Some e) \/ run (fs s) = inl e)
    | None => run (fs s) = inr (fs s')
    end.
Proof.
  unfold fsop. destruct (faults s) as [|[e|] fl]; simpl.
  - destruct (run (fs s)) eqn:E; eexists _, _; (split; [reflexivity|]); simpl;
      rewrite ?E; auto.
  - eexists _, _; (split; [reflexivity|]); simpl; auto.
  - destruct (run (fs s)) eqn:E; eexists _, _; (split; [reflexivity|]); simpl;
      rewrite ?E; auto.
Qed.

Ltac step_fsop s r s1 Hr Ht Ho Hfs :=
  match goal with
  | |- context [fsop ?op ?run s] =>
      destruct (fsop_spec op run s) as (r & s1 & Hr & Ht & Ho & Hfs); rewrite Hr
  end.

(** [WriteFile] never panics.  When it fails, only the temporary path may
    have changed; when it succeeds, the temporary path was free, the file
    is at the final path, and nothing else changed. *)
Lemma WriteFile_spec cf s :
  exists r s', WriteFile cf s = Ret r s' /\
    match r with
    | Some e =>
        forall p, p <> filename cf +:+ ".tmp" -> fs s' !! p = fs s !! p
    | None =>
        exists js, json_MarshalIndent cf = inr js /\
          fs s !! (filename cf +:+ ".tmp") = None /\
          fs s' = <[filename cf := {| perm := perm0400; content := [js] |}]> (fs s) /\
          trace s' = trace s ++ writeEvents (filename cf)
    end.
Proof.
  unfold WriteFile, os_OpenFile, fd_Write, fd_Sync, fd_Close, os_Rename.
  set (tmp := filename cf +:+ ".tmp").
  unfold mbind, M_bind, mret, M_ret.
  step_fsop s r1 s1 Hr1 Ht1 Ho1 Hfs1. destruct r1 as [e|]; simpl.
  { eexists _, _; split; [reflexivity|]. intros p _. by destruct Hfs1 as [-> _]. }
  change (Z.testbit (Z.lor (Z.lor O_WRONLY O_CREATE) O_EXCL) 6) with true in Hfs1.
  change (Z.testbit (Z.lor (Z.lor O_WRONLY O_CREATE) O_EXCL) 7) with true in Hfs1.
  destruct (fs s !! tmp) eqn:Htmp; [discriminate|].
  simpl in Hfs1. injection Hfs1 as Hfs1.
  destruct (json_MarshalIndent cf) as [e|js] eqn:Hjs.
  { eexists _, _; split; [reflexivity|]. intros p Hp.
    rewrite <- Hfs1. by rewrite lookup_insert_ne. }
  step_fsop s1 r2 s2 Hr2 Ht2 Ho2 Hfs2. destruct r2 as [e|]; simpl.
  { eexists _, _; split; [reflexivity|]. intros p Hp. destruct Hfs2 as [-> _].
    rewrite <- Hfs1. by rewrite lookup_insert_ne. }
  rewrite <- Hfs1, lookup_insert_eq in Hfs2. simpl in Hfs2. injection Hfs2 as Hfs2.
  rewrite insert_insert_eq in Hfs2.
  step_fsop s2 r3 s3 Hr3 Ht3 Ho3 Hfs3. destruct r3 as [e|]; simpl.
  { eexists _, _; split; [reflexivity|]. intros p Hp. destruct Hfs3 as [-> _].
    rewrite <- Hfs2. by rewrite lookup_insert_ne. }
  injection Hfs3 as Hfs3.
  step_fsop s3 r4 s4 Hr4 Ht4 Ho4 Hfs4. destruct r4 as [e|]; simpl.
  { eexists _, _; split; [reflexivity|]. intros p Hp. destruct Hfs4 as [-> _].
    rewrite <- Hfs3, <- Hfs2. by rewrite lookup_insert_ne. }
  injection Hfs4 as Hfs4.
  step_fsop s4 r5 s5 Hr5 Ht5 Ho5 Hfs5. destruct r5 as [e|]; simpl.
  { eexists _, _; split; [reflexivity|]. intros p Hp. destruct Hfs5 as [-> _].
    rewrite <- Hfs4, <- Hfs3, <- Hfs2. by rewrite lookup_insert_ne. }
  rewrite <- Hfs4, <- Hfs3, <- Hfs2, lookup_insert_eq in Hfs5. injection Hfs5 as Hfs5.
  eexists _, _; split; [reflexivity|]. exists js. repeat split; try done.
  - rewrite <- Hfs5. rewrite delete_insert_eq. by rewrite delete_id.
  - rewrite Ht5, Ht4, Ht3, Ht2, Ht1. by rewrite <- !app_assoc.
Qed.

(** [EncryptKey] stores the scrypt parameters and the master key sealed
    under the derived key, with a nonce of 12 random bytes; it panics when
    the key derivation does, or gives a key that is not 32 bytes long. *)
Lemma EncryptKey_spec cf key pw logN s :
  let kdf := (NewScryptKdf logN (rng s)).1 in
  let r1 := (NewScryptKdf logN (rng s)).2 in
  let nonce := (RandBytes 12 r1).1 in
  match EncryptKey cf key pw logN s with
  | Ret cf' s' =>
      exists k, DeriveKey kdf pw = Some k /\ len k = 32 /\
        cf' = set_EncryptedKey
                (nonce ++ contentenc.Seal k nonce key ([], 0))
                (set_ScryptObject kdf cf) /\
        fs s' = fs s /\ faults s' = faults s /\ stdout s' = stdout s /\
        trace s' = trace s ++ wrapEvents
  | Panic _ s' =>
      fs s' = fs s /\ stdout s' = stdout s /\
      (DeriveKey kdf pw = None \/ exists k, DeriveKey kdf pw = Some k /\ len k <> 32) /\
      exists evs, trace s' = trace s ++ evs /\ evs `prefix_of` wrapEvents
  end.
Proof.
  intros kdf r1 nonce. subst kdf r1 nonce.
  unfold EncryptKey, ScryptObject_DeriveKey, cryptocore_New, contentenc_New,
    ce_EncryptBlock, emit, modify, get, panic.
  unfold mbind, M_bind, mret, M_ret.
  destruct (NewScryptKdf logN (rng s)) as [kdf r1]; simpl.
  destruct (DeriveKey kdf pw) as [k|]; simpl.
  2:{ repeat split; auto. exists []. split; [by rewrite app_nil_r|]. apply prefix_nil. }
  rewrite New_wrap. destruct (len k =? 32) eqn:Hk; simpl.
  2:{ repeat split; auto.
      - right. exists k. split; [done|]. lia.
      - exists [EvCryptoCoreNew false false]. split; [done|].
        by exists [EvContentEncNew 4096; EvEncryptBlock 0 []]. }
  unfold contentenc.impl.EncryptBlock; simpl.
  change (Z.to_nat 12) with 12%nat.
  destruct (RandBytes 12 r1) as [nonce r2]; simpl.
  exists k. repeat split; try done; try lia.
  by rewrite <- !app_assoc.
Qed.

Lemma CreateConfFile_spec filename pw plaintextNames logN creator s :
  let key := (RandBytes 32 (rng s)).1 in
  let r0 := (RandBytes 32 (rng s)).2 in
  let kdf := (NewScryptKdf logN r0).1 in
  match CreateConfFile filename pw plaintextNames logN creator s with
  | Ret r s' =>
      exists k, DeriveKey kdf pw = Some k /\ len k = 32 /\
        let cf := createdConf filename creator plaintextNames logN key k r0 in
        match r with
        | Some e => forall p, p <> filename +:+ ".tmp" -> fs s' !! p = fs s !! p
        | None =>
            exists js, json_MarshalIndent cf = inr js /\
              fs s !! (filename +:+ ".tmp") = None /\
              fs s' = <[filename := {| perm := perm0400; content := [js] |}]> (fs s) /\
              trace s' = trace s ++ wrapEvents ++ writeEvents filename
        end
  | Panic _ s' =>
      fs s' = fs s /\
      (DeriveKey kdf pw = None \/ exists k, DeriveKey kdf pw = Some k /\ len k <> 32)
  end.
Proof.
  intros key r0 kdf. subst key r0 kdf.
  unfold CreateConfFile, cryptocore_RandBytes, cryptocore.KeyLen, modify, get.
  unfold mbind at 1 2 3, M_bind, mret, M_ret.
  change (Z.to_nat 32) with 32%nat.
  destruct (RandBytes 32 (rng s)) as [key r0] eqn:Hkey; simpl.
  match goal with
  | |- context [EncryptKey ?cf key pw logN ?s0] =>
      pose proof (EncryptKey_spec cf key pw logN s0) as HE;
      destruct (EncryptKey cf key pw logN s0) as [cf' s1|msg s1]
  end; simpl in HE.
  2:{ destruct HE as (Hfs & _ & HD & _). auto. }
  destruct HE as (k & HD & Hk & -> & Hfs & _ & _ & Ht).
  destruct plaintextNames;
    (match goal with
     | |- context [WriteFile ?cf s1] =>
         destruct (WriteFile_spec cf s1) as (r & s' & -> & HW)
     end;
     exists k; split; [done|]; split; [done|];
     destruct r as [e|]; simpl in HW;
     [ intros p Hp; rewrite (HW p Hp); by rewrite Hfs
     | destruct HW as (js & Hjs & Htmp & Hfs' & Ht'); exists js; rewrite Hfs in *;
       repeat split; try done; rewrite Ht', Ht; by rewrite <- app_assoc ]).
Qed.

(** *** The ways of [LoadConfFile] *)

Lemma checkRequired_spec cf required d s :
  exists s', checkRequired cf required d s
               = Ret (d || bool_decide (missingFlags cf required <> [])) s' /\
    stdout s' = stdout s ++ (missingLine <$> missingFlags cf required) /\
    fs s' = fs s /\ rng s' = rng s /\ trace s' = trace s.
Proof.
  revert d s. induction required as [|i rest IH]; intros d s; simpl.
  - exists s. rewrite orb_false_r, app_nil_r. done.
  - unfold missingFlags. rewrite filter_cons.
    destruct (IsFeatureFlagSet cf i) eqn:Hi; simpl.
    + apply IH.
    + unfold Printf, modify, mbind, M_bind.
      destruct (IH true (set_stdout (stdout s ++ [missingLine i]) s))
        as (s' & Heq & Hout & ?).
      exists s'. split; [by rewrite orb_true_r|].
      split; [|done]. rewrite Hout. simpl. by rewrite <- app_assoc.
Qed.

Lemma checkKnown_indep cf cf' flags : checkKnown cf flags = checkKnown cf' flags.
Proof. induction flags as [|flag rest IH]; simpl; [done|]. by rewrite IH. Qed.

Lemma LoadConfFile_loads filename pw s :
  loads filename pw s (LoadConfFile filename pw s).
Proof.
  unfold LoadConfFile, ioutil_ReadFile.
  unfold mbind, M_bind, mret, M_ret.
  match goal with
  | |- context [fsop ?op ?run s] =>
      destruct (fsop_spec op run s) as (r & s1 & Hr & Ht & Ho & Hfs); rewrite Hr
  end.
  unfold get. destruct r as [e|]; simpl.
  { destruct Hfs as [Hfs Hwhy]. apply loads_read_error; try done.
    destruct Hwhy as [?|Hrun]; [by left|right].
    destruct (fs s !! filename); [done|]. by injection Hrun as <-. }
  assert (nofault s) as Hnf.
  { intros e He. unfold fsop in Hr. by destruct (faults s) as [|[?|] ?]; simpl in *. }
  destruct (fs s !! filename) as [node|] eqn:Hnode; [|done].
  injection Hfs as Hfs. rewrite <- Hfs, Hnode. simpl.
  destruct (json_Unmarshal (content node)) as [e|cf] eqn:Hcf.
  { unfold Warn_Printf, modify, mbind, M_bind, mret, M_ret.
    eapply loads_unmarshal_error; try done.
    - by destruct (WarnEnabled s1).
    - by destruct (WarnEnabled s1).
    - by destruct (WarnEnabled s1). }
  simpl. destruct (Version cf =? contentenc.CurrentVersion) eqn:Hv; simpl.
  2:{ eapply loads_version; try done. lia. }
  apply Z.eqb_eq in Hv.
  rewrite (checkKnown_indep _ cf).
  destruct (checkKnown cf (FeatureFlags cf)) as [flag|] eqn:Hknown.
  { eapply loads_flag; try done. }
  unfold mbind, M_bind.
  match goal with
  | |- context [checkRequired ?c ?req ?d s1] =>
      destruct (checkRequired_spec c req d s1) as (s2 & Hcr & Hout & Hfs2 & _ & Ht2);
      rewrite Hcr
  end.
  match goal with
  | |- context [(if ?b then ?p else ?q) s2] =>
      assert (exists s3, (if b then p else q) s2 = Ret tt s3 /\
                stdout s3 = stdout s ++ warnings cf /\ fs s3 = fs s /\
                trace s3 = trace s ++ [readEv filename None])
        as (s3 & -> & Hout3 & Hfs3 & Ht3)
  end.
  { unfold warnings, requiredFlags.
    change (IsFeatureFlagSet (set_filename filename cf)) with (IsFeatureFlagSet cf) in *.
    change (missingFlags (set_filename filename cf)) with (missingFlags cf) in *.
    destruct (missingFlags cf _) as [|i l] eqn:Hm; simpl.
    - exists s2. rewrite Hout, Ho, Hfs2, Ht2, Ht, Hfs. simpl. by rewrite app_nil_r.
    - eexists. split; [reflexivity|]. simpl.
      rewrite Hout, Ho, Hfs2, Ht2, Ht, Hfs. simpl. by rewrite <- app_assoc. }
  unfold ScryptObject_DeriveKey, cryptocore_New, contentenc_New, ce_DecryptBlock,
    emit, modify, panic, mbind, M_bind, mret, M_ret. simpl.
  destruct (DeriveKey (ScryptObject cf) pw) as [k|] eqn:HD.
  2:{ eapply loads_derive_panic; try done. }
  rewrite New_wrap. destruct (len k =? 32) eqn:Hk; simpl.
  2:{ eapply loads_keylen_panic; try done; simpl; try lia.
      rewrite Ht3. by rewrite <- app_assoc. }
  assert (forall s', trace s' = trace s ++ readEv filename None :: unwrapEvents ->
                     stdout s' = stdout s ++ warnings cf -> fs s' = fs s ->
            loads filename pw s (Ret (unwrap k (set_filename filename cf)) s')) as Hgo.
  { intros. eapply loads_unwrap; try done. lia. }
  unfold unwrap in Hgo. simpl in Hgo.
  destruct (contentenc.impl.DecryptBlock _ (EncryptedKey cf) 0 []) eqn:HDec;
    simpl; apply Hgo; simpl; try done; rewrite Ht3; by rewrite <- !app_assoc.
Qed.

Lemma checkKnown_None cf flags :
  checkKnown cf flags = None <->
  Forall (fun flag => isFeatureFlagKnown cf flag = true) flags.
Proof.
  induction flags as [|flag rest IH]; simpl; [by split|].
  destruct (isFeatureFlagKnown cf flag) eqn:Hf; simpl.
  - rewrite IH. split; [by constructor|by inversion 1].
  - split; [done|]. inversion 1; congruence.
Qed.

Lemma checkKnown_Some cf flags flag :
  checkKnown cf flags = Some flag ->
  flag ∈ flags /\ isFeatureFlagKnown cf flag = false.
Proof.
  induction flags as [|f rest IH]; simpl; [done|].
  destruct (isFeatureFlagKnown cf f) eqn:Hf; simpl.
  - intros [? ?]%IH. split; [by right|done].
  - intros [= <-]. split; [by left|done].
Qed.

(** *** The claims *)

(** C6. The feature flags [CreateConfFile] writes: whenever creation
    succeeds, the file at [filename] holds the JSON of a record whose
    [FeatureFlags] are exactly GCMIV128, PlaintextNames when
    [plaintextNames] is set, and exactly GCMIV128, DirIV, EMENames,
    LongNames when it is not. *)
Theorem C6_creation_feature_flags filename pw plaintextNames logN creator s s' :
  CreateConfFile filename pw plaintextNames logN creator s = Ret None s' ->
  exists cf js,
    json_MarshalIndent cf = inr js /\
    fs s' !! filename = Some {| perm := perm0400; content := [js] |} /\
    FeatureFlags cf =
      (if plaintextNames then ["GCMIV128"; "PlaintextNames"]
       else ["GCMIV128"; "DirIV"; "EMENames"; "LongNames"]).
Proof.
  intros H.
  pose proof (CreateConfFile_spec filename pw plaintextNames logN creator s) as HC.
  rewrite H in HC. simpl in HC.
  destruct HC as (k & _ & _ & js & Hjs & _ & Hfs & _).
  eexists _, js. split; [exact Hjs|]. split.
  - rewrite Hfs. apply lookup_insert_eq.
  - reflexivity.
Qed.


Ltac load_cases filename pw s :=
  let H := fresh in
  pose proof (LoadConfFile_loads filename pw s) as H;
  destruct (LoadConfFile filename pw s) eqn:?; inversion H; subst; clear H;
  unfold contentenc.CurrentVersion in *; simplify_eq; try congruence;
  repeat match goal with
         | H1 : ?x = ?c ?a, H2 : ?x = ?c ?b |- _ =>
             assert (a = b) by congruence; first [subst b | subst a | idtac]; clear H2
         end.

Ltac no_read_error Hnf :=
  match goal with
  | H : _ \/ _ |- _ => destruct H as [?|[? _]]; [by exfalso; eapply Hnf|congruence]
  end.

(** C5. Loading a config file whose JSON parses to [cf]: a version other
    than 2 is rejected with an error; so is a feature flag that is not
    known; and when version and flags are fine, a missing required flag is
    only printed about: loading goes on to unwrap the key, and returns what
    unwrapping returns. *)
Theorem C5_load_version_and_flags filename pw s node cf :
  fs s !! filename = Some node ->
  json_Unmarshal (content node) = inr cf ->
  (Version cf <> 2 ->
     exists e s', LoadConfFile filename pw s = Ret (inl e) s' /\
       (nofault s -> e = Errorf "Unsupported on-disk format %d" [ArgInt (Version cf)])) /\
  ((exists flag, flag ∈ FeatureFlags cf /\ isFeatureFlagKnown cf flag = false) ->
     exists e s', LoadConfFile filename pw s = Ret (inl e) s' /\
       (nofault s -> Version cf = 2 ->
          exists flag, e = Errorf "Unsupported feature flag %q" [ArgStr flag] /\
            flag ∈ FeatureFlags cf /\ isFeatureFlagKnown cf flag = false)) /\
  (Version cf = 2 ->
   Forall (fun flag => isFeatureFlagKnown cf flag = true) (FeatureFlags cf) ->
   nofault s ->
   forall k, DeriveKey (ScryptObject cf) pw = Some k -> len k = 32 ->
     exists s', LoadConfFile filename pw s = Ret (unwrap k (set_filename filename cf)) s' /\
       stdout s' = stdout s ++ warnings cf /\
       (forall i, i ∈ requiredFlags cf -> IsFeatureFlagSet cf i = false ->
                  missingLine i ∈ warnings cf)).
Proof.
  intros Hnode Hcf. split; [|split].
  - intros Hv. load_cases filename pw s.
    + eexists _, _. split; [done|]. intros Hnf. no_read_error Hnf.
    + eexists _, _. split; [done|]. congruence.
  - intros (flag & Hin & Hunk).
    assert (checkKnown cf (FeatureFlags cf) <> None) as Hk.
    { rewrite checkKnown_None, Forall_forall. intros HF. specialize (HF _ Hin). congruence. }
    load_cases filename pw s.
    + eexists _, _. split; [done|]. intros Hnf. no_read_error Hnf.
    + eexists _, _. split; [done|]. congruence.
    + eexists _, _. split; [done|]. intros _ _.
      match goal with H : checkKnown _ _ = Some _ |- _ =>
        apply checkKnown_Some in H; destruct H end. simplify_eq. eauto.
  - intros Hv Hknown Hnf k HD Hk.
    apply checkKnown_None in Hknown.
    load_cases filename pw s.
    + no_read_error Hnf.
    + simplify_eq. eexists. split; [done|]. split; [done|].
      intros i Hi Hmiss. unfold warnings.
      assert (i ∈ missingFlags cf (requiredFlags cf)) as Hm.
      { unfold missingFlags. by apply list_elem_of_filter. }
      destruct (missingFlags cf (requiredFlags cf)) as [|j l] eqn:E.
      * by apply not_elem_of_nil in Hm.
      * apply elem_of_app. left. by apply list_elem_of_fmap_2.
Qed.

(** C9. The crypto core of the wrapped master key.  [New] with both
    switches off gives 96-bit (12-byte) nonces and Go's GCM.  [EncryptKey]
    and [LoadConfFile] make no other crypto call than [New(key, false,
    false)], [contentenc.New(cc, 4096)] and one [EncryptBlock], respectively
    [DecryptBlock], of block 0 with a nil file ID, in this order, whatever
    the password and whatever the config holds (its feature flags
    included); the blob of a wrapped key starts with a 12-byte nonce. *)
Theorem C9_key_wrapping_core :
  (forall k, len k = 32 ->
     exists cc, cryptocore.New k false false = inr cc /\
       cryptocore.IVLen cc = 96 / 8 /\ cryptocore.Gcm cc = cryptocore.goGCM 12 /\
       cryptocore.GcmIVGen cc = 12 /\ cryptocore.BlockCipher cc = k /\ cc = wrapCore k) /\
  (forall cf key pw logN s,
     exists evs, trace (final (EncryptKey cf key pw logN s)) = trace s ++ evs /\
       evs `prefix_of` wrapEvents /\
       forall cf' s', EncryptKey cf key pw logN s = Ret cf' s' ->
         evs = wrapEvents /\
         exists k nonce, DeriveKey (ScryptObject cf') pw = Some k /\ len k = 32 /\
           length nonce = 12%nat /\
           EncryptedKey cf' = nonce ++ contentenc.Seal k nonce key ([], 0)) /\
  (forall filename pw s,
     exists evs, trace (final (LoadConfFile filename pw s)) = trace s ++ evs /\
       List.filter isCrypto evs `prefix_of` unwrapEvents /\
       forall key cf s', LoadConfFile filename pw s = Ret (inr (key, cf)) s' ->
         List.filter isCrypto evs = unwrapEvents /\
         exists k, DeriveKey (ScryptObject cf) pw = Some k /\ len k = 32 /\
           contentenc.impl.DecryptBlock (contentenc.impl.New (wrapCore k) 4096)
             (EncryptedKey cf) 0 [] = inr key).
Proof.
  split; [|split].
  - intros k Hk. exists (wrapCore k). rewrite New_wrap.
    by rewrite (proj2 (Z.eqb_eq _ _) Hk).
  - intros cf key pw logN s.
    pose proof (EncryptKey_spec cf key pw logN s) as HE.
    destruct (EncryptKey cf key pw logN s) as [cf' s'|msg s']; simpl in *.
    + destruct HE as (k & HD & Hk & -> & _ & _ & _ & Ht).
      exists wrapEvents. split; [done|]. split; [done|].
      intros ? ? [= <- <-]. split; [done|].
      exists k, (RandBytes 12 (NewScryptKdf logN (rng s)).2).1.
      simpl. by rewrite length_RandBytes.
    + destruct HE as (_ & _ & _ & evs & Ht & Hp).
      exists evs. by repeat split.
  - intros filename pw s.
    load_cases filename pw s; simpl;
      try (eexists; split; [eassumption|]; split;
           [by (simpl; first [apply prefix_nil | by eexists [_; _]])|]; done).
    eexists; split; [eassumption|]. split; [done|].
    intros key cf' s' [= Hu <-]. split; [done|].
    unfold unwrap in Hu.
    destruct (contentenc.impl.DecryptBlock _ _ _ _) eqn:HDec; simplify_eq.
    eexists. eauto.
Qed.

(** *** Create, then load *)





(** *** More on writing and loading *)

(** Opening a path that exists with [O_CREATE|O_EXCL] fails, with EEXIST
    when no fault is scripted, and creates nothing. *)
Lemma os_OpenFile_exists name perm s node :
  fs s !! name = Some node ->
  exists z s',
    os_OpenFile name (Z.lor (Z.lor O_WRONLY O_CREATE) O_EXCL) perm s
      = Ret (Some (PathError z)) s' /\
    fs s' = fs s /\
    trace s' = trace s ++
      [EvFs (OpOpenFile name (Z.lor (Z.lor O_WRONLY O_CREATE) O_EXCL) perm) (Some z)] /\
    (nofault s -> z = fuse.EEXIST).
Proof.
  intros Hnode. unfold os_OpenFile. unfold mbind, M_bind, mret, M_ret.
  step_fsop s r1 s1 Hr1 Ht1 Ho1 Hfs1. destruct r1 as [e|]; simpl.
  - exists e, s1. destruct Hfs1 as [Hfs Hwhy]. split_and!; try done.
    intros Hnf. destruct Hwhy as [Hf|Hrun]; [by exfalso; eapply Hnf|].
    rewrite Hnode in Hrun. by injection Hrun.
  - rewrite Hnode in Hfs1. discriminate.
Qed.

(** A [WriteFile] that fails after it has opened the temporary file leaves
    that file where it is. *)
Lemma WriteFile_leaves_tmp cf s e s1 :
  WriteFile cf s = Ret (Some e) s1 ->
  nofault s -> fs s !! (filename cf +:+ ".tmp") = None ->
  exists node, fs s1 !! (filename cf +:+ ".tmp") = Some node /\ perm node = perm0400.
Proof.
  unfold WriteFile, os_OpenFile, fd_Write, fd_Sync, fd_Close, os_Rename.
  set (tmp := filename cf +:+ ".tmp").
  unfold mbind, M_bind, mret, M_ret. intros H Hnf Htmp. revert H.
  step_fsop s r1 s1' Hr1 Ht1 Ho1 Hfs1. destruct r1 as [e1|]; simpl.
  { destruct Hfs1 as [_ [Hf|Hrun]]; [by exfalso; eapply Hnf|].
    rewrite Htmp in Hrun. discriminate. }
  change (Z.testbit (Z.lor (Z.lor O_WRONLY O_CREATE) O_EXCL) 6) with true in Hfs1.
  rewrite Htmp in Hfs1. simpl in Hfs1. injection Hfs1 as Hfs1.
  destruct (json_MarshalIndent cf) as [e0|js] eqn:Hjs.
  { intros [= <- <-]. eexists. by rewrite <- Hfs1, lookup_insert_eq. }
  step_fsop s1' r2 s2 Hr2 Ht2 Ho2 Hfs2. destruct r2 as [e2|]; simpl.
  { intros [= <- <-]. destruct Hfs2 as [-> _].
    eexists. by rewrite <- Hfs1, lookup_insert_eq. }
  rewrite <- Hfs1, lookup_insert_eq in Hfs2. simpl in Hfs2. injection Hfs2 as Hfs2.
  rewrite insert_insert_eq in Hfs2.
  step_fsop s2 r3 s3 Hr3 Ht3 Ho3 Hfs3. destruct r3 as [e3|]; simpl.
  { intros [= <- <-]. destruct Hfs3 as [-> _].
    eexists. by rewrite <- Hfs2, lookup_insert_eq. }
  injection Hfs3 as Hfs3.
  step_fsop s3 r4 s4 Hr4 Ht4 Ho4 Hfs4. destruct r4 as [e4|]; simpl.
  { intros [= <- <-]. destruct Hfs4 as [-> _].
    eexists. by rewrite <- Hfs3, <- Hfs2, lookup_insert_eq. }
  injection Hfs4 as Hfs4.
  step_fsop s4 r5 s5 Hr5 Ht5 Ho5 Hfs5. destruct r5 as [e5|]; simpl.
  { intros [= <- <-]. destruct Hfs5 as [-> _].
    eexists. by rewrite <- Hfs4, <- Hfs3, <- Hfs2, lookup_insert_eq. }
  discriminate.
Qed.

(** [checkRequired] and a file-system call leave the warning logger
    alone. *)
Lemma checkRequired_warn cf required d s :
  WarnEnabled (final (checkRequired cf required d s)) = WarnEnabled s /\
  WarnLog (final (checkRequired cf required d s)) = WarnLog s.
Proof.
  revert d s. induction required as [|i rest IH]; intros d s; simpl; [done|].
  destruct (IsFeatureFlagSet cf i); simpl; [apply IH|].
  unfold Printf, modify, mbind, M_bind.
  match goal with |- context [checkRequired cf rest true ?s0] =>
    destruct (IH true s0) as (H1 & H2) end.
  done.
Qed.

Lemma fsop_warn op run s :
  WarnEnabled (final (fsop op run s)) = WarnEnabled s /\
  WarnLog (final (fsop op run s)) = WarnLog s.
Proof.
  unfold fsop. destruct (faults s) as [|[e|] fl]; simpl; [| done |];
    by destruct (run (fs s)).
Qed.

(** What [LoadConfFile] does to the warning logger, once the file has
    been read and parsed. *)
Lemma LoadConfFile_warn filename pw s node cf :
  nofault s -> fs s !! filename = Some node ->
  json_Unmarshal (content node) = inr cf ->
  match LoadConfFile filename pw s with
  | Ret (inr _) s' => WarnEnabled s' = true /\ WarnLog s' = WarnLog s
  | Ret (inl e) s' =>
      (e = Errorf "Password incorrect." [] /\ WarnEnabled s' = true /\
       exists msg, WarnLog s' =
         WarnLog s ++ [("failed to unlock master key: %s"%string, [ArgStr msg])]) \/
      (e <> Errorf "Password incorrect." [] /\
       WarnEnabled s' = WarnEnabled s /\ WarnLog s' = WarnLog s)
  | Panic _ s' => WarnEnabled s' = WarnEnabled s /\ WarnLog s' = WarnLog s
  end.
Proof.
  intros Hnf Hnode Hcf.
  unfold LoadConfFile, ioutil_ReadFile.
  unfold mbind, M_bind, mret, M_ret.
  match goal with
  | |- context [fsop ?op ?run s] =>
      destruct (fsop_spec op run s) as (r & s1 & Hr & Ht & Ho & Hfs);
      pose proof (fsop_warn op run s) as [HW1 HL1];
      rewrite Hr in *
  end.
  simpl in HW1, HL1.
  unfold get. destruct r as [e|]; simpl.
  { destruct Hfs as [_ [Hf|Hrun]]; [by exfalso; eapply Hnf|].
    rewrite Hnode in Hrun. discriminate. }
  rewrite Hnode in Hfs. injection Hfs as Hfs. rewrite <- Hfs, Hnode. simpl.
  rewrite Hcf. simpl.
  destruct (Version cf =? contentenc.CurrentVersion) eqn:Hv; simpl.
  2:{ right. done. }
  rewrite (checkKnown_indep _ cf).
  destruct (checkKnown cf (FeatureFlags cf)) as [flag|] eqn:Hknown.
  { right. done. }
  unfold mbind, M_bind.
  match goal with
  | |- context [checkRequired ?c ?req ?d s1] =>
      destruct (checkRequired_spec c req d s1) as (s2 & Hcr & _);
      pose proof (checkRequired_warn c req d s1) as (HW2 & HL2);
      rewrite Hcr in *
  end.
  simpl in HW2, HL2.
  match goal with
  | |- context [(if ?b then ?p else ?q) s2] =>
      assert (exists s3, (if b then p else q) s2 = Ret tt s3 /\
                WarnEnabled s3 = WarnEnabled s /\ WarnLog s3 = WarnLog s)
        as (s3 & -> & HW3 & HL3)
  end.
  { match goal with |- context [if ?b then _ else _] => destruct b end.
    - eexists. split; [reflexivity|]. simpl. by rewrite HW2, HL2, HW1, HL1.
    - exists s2. split; [reflexivity|]. by rewrite HW2, HL2, HW1, HL1. }
  unfold ScryptObject_DeriveKey, cryptocore_New, contentenc_New, ce_DecryptBlock,
    Warn_Printf, emit, modify, panic, mbind, M_bind, mret, M_ret. simpl.
  destruct (DeriveKey (ScryptObject cf) pw) as [k|] eqn:HD; [|done].
  destruct (cryptocore.New k false false) as [msg|cc]; simpl; [done|].
  destruct (contentenc.impl.DecryptBlock _ (EncryptedKey cf) 0 []) as [e|key] eqn:HDec;
    simpl; [|done].
  left. split_and!; try done. eexists. by rewrite HL3.
Qed.

(** X1. [WriteFile] refuses a temporary file that is already there: when
    [filename.tmp] exists, opening it is the only file-system call made,
    it fails (with EEXIST when no fault is scripted), the error is
    returned and the file system is as it was. *)
Theorem X1_writefile_refuses_stale_tmp cf s node :
  fs s !! (filename cf +:+ ".tmp") = Some node ->
  exists z s',
    WriteFile cf s = Ret (Some (PathError z)) s' /\
    fs s' = fs s /\
    trace s' = trace s ++
      [EvFs (OpOpenFile (filename cf +:+ ".tmp")
               (Z.lor (Z.lor O_WRONLY O_CREATE) O_EXCL) perm0400) (Some z)] /\
    (nofault s -> z = fuse.EEXIST).
Proof.
  intros Hnode. unfold WriteFile. unfold mbind at 1, M_bind at 1.
  destruct (os_OpenFile_exists _ perm0400 s node Hnode) as (z & s' & -> & H).
  by exists z, s'.
Qed.

(** X2. [WriteFile] does not clean up: when it fails after the temporary
    file was created (marshalling, write, sync, close or rename failed),
    [filename.tmp] stays, with permissions 0400, the config at [filename]
    is what it was, and every later [WriteFile] of this config fails at
    the open and changes nothing, until the temporary file is removed. *)
Theorem X2_failed_write_blocks_the_next cf s e s1 :
  nofault s -> fs s !! (filename cf +:+ ".tmp") = None ->
  WriteFile cf s = Ret (Some e) s1 ->
  (exists node, fs s1 !! (filename cf +:+ ".tmp") = Some node /\ perm node = perm0400) /\
  fs s1 !! filename cf = fs s !! filename cf /\
  forall s2, fs s2 = fs s1 ->
    exists z s3, WriteFile cf s2 = Ret (Some (PathError z)) s3 /\ fs s3 = fs s2 /\
      (nofault s2 -> z = fuse.EEXIST).
Proof.
  intros Hnf Htmp HW.
  destruct (WriteFile_leaves_tmp _ _ _ _ HW Hnf Htmp) as (node & Hnode & Hperm).
  split; [by exists node|]. split.
  - destruct (WriteFile_spec cf s) as (r & s' & Heq & H). rewrite HW in Heq.
    injection Heq as <- <-. apply H. intros Hp. by apply (tmp_neq (filename cf)).
  - intros s2 Hfs. unfold WriteFile. unfold mbind at 1, M_bind at 1.
    rewrite <- Hfs in Hnode.
    destruct (os_OpenFile_exists _ perm0400 s2 node Hnode) as (z & s3 & -> & H2 & _ & H3).
    by exists z, s3.
Qed.

(** X3. [LoadConfFile] only reads: however it ends (result, error or
    panic), the file system is what it was, and the one file-system call
    it has made is the read of [filename]; what follows in the trace are
    crypto calls. *)
Theorem X3_load_only_reads filename pw s :
  fs (final (LoadConfFile filename pw s)) = fs s /\
  exists r evs,
    trace (final (LoadConfFile filename pw s)) = trace s ++ readEv filename r :: evs /\
    List.filter (fun e => negb (isCrypto e)) evs = [].
Proof.
  pose proof (LoadConfFile_loads filename pw s) as H.
  destruct (LoadConfFile filename pw s) as [res s'|msg s']; inversion H; subst; simpl;
    (split; [done|]);
    match goal with
    | Ht : trace s' = trace s ++ ?evs |- _ => rewrite Ht
    end;
    first [ by eexists _, [] | by eexists _, [_] | by eexists _, [_; _; _] ].
Qed.

(** X4. [LoadConfFile] switches [toggledlog.Warn] on: once the file has
    been read and parsed, a load that returns the key leaves the logger
    enabled and has logged nothing, and a load that answers "Password
    incorrect." leaves it enabled and has logged "failed to unlock master
    key", also when the caller had switched the logger off before. *)
Theorem X4_load_switches_warnings_on filename pw s node cf0 :
  nofault s -> fs s !! filename = Some node ->
  json_Unmarshal (content node) = inr cf0 ->
  (forall key cf s', LoadConfFile filename pw s = Ret (inr (key, cf)) s' ->
     WarnEnabled s' = true /\ WarnLog s' = WarnLog s) /\
  (forall s', LoadConfFile filename pw s = Ret (inl (Errorf "Password incorrect." [])) s' ->
     WarnEnabled s' = true /\
     exists msg, WarnLog s' =
       WarnLog s ++ [("failed to unlock master key: %s"%string, [ArgStr msg])]).
Proof.
  intros Hnf Hnode Hcf.
  pose proof (LoadConfFile_warn filename pw s node cf0 Hnf Hnode Hcf) as H.
  split.
  - intros key cf s' Heq. rewrite Heq in H. exact H.
  - intros s' Heq. rewrite Heq in H. destruct H as [(_ & ? & ?)|(Hne & _)]; [done|].
    by destruct Hne.
Qed.

(** X5. The errors of [LoadConfFile] before any check: a file that is
    not there is the error of the read (ENOENT), and a file that does not
    parse is the error of [json.Unmarshal], with the warning "Failed to
    unmarshal config file" when the logger is on.  In both cases nothing
    is printed and no key is derived. *)
Theorem X5_load_read_and_parse_errors filename pw s :
  nofault s ->
  (fs s !! filename = None ->
     exists s', LoadConfFile filename pw s = Ret (inl (PathError fuse.ENOENT)) s' /\
       stdout s' = stdout s /\
       trace s' = trace s ++ [readEv filename (Some fuse.ENOENT)]) /\
  (forall node e,
     fs s !! filename = Some node -> json_Unmarshal (content node) = inl e ->
     exists s', LoadConfFile filename pw s = Ret (inl e) s' /\
       stdout s' = stdout s /\
       trace s' = trace s ++ [readEv filename None] /\
       WarnLog s' =
         if WarnEnabled s
         then WarnLog s ++ [("Failed to unmarshal config file"%string, [])]
         else WarnLog s).
Proof.
  intros Hnf. split.
  - intros Hnone. unfold LoadConfFile, ioutil_ReadFile.
    unfold mbind, M_bind, mret, M_ret.
    step_fsop s r s1 Hr Ht Ho Hfs. unfold get. destruct r as [e|]; simpl.
    + destruct Hfs as [_ [Hf|Hrun]]; [by exfalso; eapply Hnf|].
      rewrite Hnone in Hrun. injection Hrun as <-. by exists s1.
    + rewrite Hnone in Hfs. discriminate.
  - intros node e Hnode Hcf. unfold LoadConfFile, ioutil_ReadFile.
    unfold mbind, M_bind, mret, M_ret.
    match goal with
    | |- context [fsop ?op ?run s] =>
        destruct (fsop_spec op run s) as (r & s1 & Hr & Ht & Ho & Hfs);
        pose proof (fsop_warn op run s) as [HW1 HL1];
        rewrite Hr in *
    end.
    simpl in HW1, HL1. unfold get. destruct r as [e'|]; simpl.
    { destruct Hfs as [_ [Hf|Hrun]]; [by exfalso; eapply Hnf|].
      rewrite Hnode in Hrun. discriminate. }
    rewrite Hnode in Hfs. injection Hfs as Hfs. rewrite <- Hfs, Hnode. simpl.
    rewrite Hcf. unfold Warn_Printf, modify, mbind, M_bind, mret, M_ret.
    eexists. split; [reflexivity|]. rewrite HW1.
    destruct (WarnEnabled s); simpl; by rewrite ?HL1.
Qed.

(** X6. [EncryptKey] re-wraps in memory: the record it returns has new
    scrypt parameters and a new key blob, and the creator, version,
    feature flags and file name it had; no file-system call is made, so
    the file on disk changes only with a later [WriteFile]. *)
Theorem X6_encryptkey_keeps_the_rest cf key pw logN s cf' s' :
  EncryptKey cf key pw logN s = Ret cf' s' ->
  Creator cf' = Creator cf /\ Version cf' = Version cf /\
  FeatureFlags cf' = FeatureFlags cf /\ filename cf' = filename cf /\
  ScryptObject cf' = (NewScryptKdf logN (rng s)).1 /\
  fs s' = fs s /\ trace s' = trace s ++ wrapEvents.
Proof.
  intros H. pose proof (EncryptKey_spec cf key pw logN s) as HE.
  rewrite H in HE. simpl in HE.
  destruct HE as (k & _ & _ & -> & Hfs & _ & _ & Ht). by split_and!.
Qed.

End configfile_facts.

(** *** The claims on the stand-in instance *)

Section configfile_examples.

Import configfile Demo.






(** C5 on the stand-in instance: a version 1 config and a config with an
    unknown flag are rejected; a config without the required flags is
    loaded, with a warning for each missing flag. *)
Lemma C5_witness_fixtures :
  (exists e s', LoadConfFile "v1.conf" "foo" (withFile "v1.conf" confV1) = Ret (inl e) s') /\
  (exists e s',
     LoadConfFile "strange.conf" "foo" (withFile "strange.conf" confStrange)
       = Ret (inl e) s') /\
  (exists key cf s',
     LoadConfFile "legacy.conf" "foo" (withFile "legacy.conf" confLegacy)
       = Ret (inr (key, cf)) s' /\
     missingLine FlagEMENames ∈ stdout s' /\ missingLine FlagGCMIV128 ∈ stdout s').
Proof.
  split; [|split].
  - destruct (C5_load_version_and_flags (ext := toyExtern) (aead := toyAEAD)
                "v1.conf" "foo" (withFile "v1.conf" confV1)
                (nodeOf confV1) confV1
                eq_refl eq_refl) as (H & _ & _).
    destruct H as (e & s' & H & _); [vm_compute; discriminate|]. eauto.
  - destruct (C5_load_version_and_flags (ext := toyExtern) (aead := toyAEAD)
                "strange.conf" "foo" (withFile "strange.conf" confStrange)
                (nodeOf confStrange) confStrange
                eq_refl eq_refl) as (_ & H & _).
    destruct H as (e & s' & H & _); [|eauto].
    exists "StrangeFeature". split; [|vm_compute; reflexivity].
    vm_compute. right. left.
  - destruct (C5_load_version_and_flags (ext := toyExtern) (aead := toyAEAD)
                "legacy.conf" "foo" (withFile "legacy.conf" confLegacy)
                (nodeOf confLegacy) confLegacy
                eq_refl eq_refl) as (_ & _ & H).
    destruct (H eq_refl ltac:(repeat constructor) ltac:(intros e; vm_compute; discriminate)
                (String.list_byte_of_string "foo" ++ replicate 29 x00) eq_refl eq_refl)
      as (s' & Hload & Hout & Hmiss).
    eexists _, _, s'. split.
    + rewrite Hload. vm_compute. reflexivity.
    + assert (requiredFlags confLegacy = [FlagDirIV; FlagEMENames; FlagGCMIV128]) as HR
        by (vm_compute; reflexivity).
      rewrite HR in Hmiss.
      rewrite Hout. split; apply elem_of_app; right; apply Hmiss;
        first [ vm_compute; reflexivity
              | repeat first [apply list_elem_of_here | apply list_elem_of_further] ].
Defined.

(** C6 on the stand-in instance. *)
Lemma C6_witness_created :
  exists cf js,
    json_MarshalIndent cf = inr js /\
    fs created !! "t.conf" = Some {| perm := perm0400; content := [js] |} /\
    FeatureFlags cf = ["GCMIV128"; "DirIV"; "EMENames"; "LongNames"].
Proof.
  apply (C6_creation_feature_flags (ext := toyExtern) (aead := toyAEAD)
           "t.conf" "foo" false 10 "v1.0" conf0 created).
  vm_compute. reflexivity.
Defined.

(** X1 on the stand-in instance: with "t.conf.tmp" in the way, writing
    the config "t.conf" fails with EEXIST. *)
Lemma X1_witness_stale_tmp :
  exists s',
    WriteFile createdConfFile (withFile "t.conf.tmp" createdConfFile)
      = Ret (Some (PathError fuse.EEXIST)) s' /\
    fs s' = fs (withFile "t.conf.tmp" createdConfFile).
Proof.
  destruct (X1_writefile_refuses_stale_tmp (ext := toyExtern) createdConfFile
              (withFile "t.conf.tmp" createdConfFile) (nodeOf createdConfFile))
    as (z & s' & HW & Hfs & _ & Hz).
  - vm_compute. reflexivity.
  - rewrite Hz in HW by (intros e; vm_compute; discriminate).
    exists s'. split; [exact HW|exact Hfs].
Defined.

(** X2 on the stand-in instance: the write to "t.conf.tmp" fails with
    EIO; the temporary file stays and the next write fails with EEXIST. *)
Lemma X2_witness_write_fails :
  let s := set_faults [None; Some fuse.EIO] conf0 in
  let s1 := final (WriteFile createdConfFile s) in
  (exists node, fs s1 !! "t.conf.tmp" = Some node /\ perm node = perm0400) /\
  fs s1 !! "t.conf" = None /\
  exists s3, WriteFile createdConfFile (set_faults [] s1)
               = Ret (Some (PathError fuse.EEXIST)) s3.
Proof.
  intros s s1.
  destruct (X2_failed_write_blocks_the_next (ext := toyExtern) createdConfFile s
              (PathError fuse.EIO) s1) as (Htmp & Hconf & Hnext).
  - intros e. vm_compute. discriminate.
  - vm_compute. reflexivity.
  - vm_compute. reflexivity.
  - split; [exact Htmp|]. split; [exact Hconf|].
    destruct (Hnext (set_faults [] s1) eq_refl) as (z & s3 & HW & _ & Hz).
    rewrite Hz in HW by (intros e; vm_compute; discriminate).
    exists s3. exact HW.
Defined.

(** X4 on the stand-in instance: with the logger switched off, loading
    "t.conf" with the password "bar" still logs the failure and leaves the
    logger on. *)
Lemma X4_witness_logger_off :
  exists s',
    LoadConfFile "t.conf" "bar" (set_WarnEnabled false created)
      = Ret (inl (Errorf "Password incorrect." [])) s' /\
    WarnEnabled s' = true /\
    exists msg, WarnLog s' = [("failed to unlock master key: %s"%string, [ArgStr msg])].
Proof.
  destruct (X4_load_switches_warnings_on (ext := toyExtern) (aead := toyAEAD)
              "t.conf" "bar" (set_WarnEnabled false created)
              (nodeOf createdConfFile) createdConfFile)
    as (_ & Hbad).
  - intros e. vm_compute. discriminate.
  - vm_compute. reflexivity.
  - reflexivity.
  - eexists. split; [vm_compute; reflexivity|]. apply Hbad. vm_compute. reflexivity.
Defined.

(** X5 on the stand-in instance: no file, and a file that holds no
    document. *)
Lemma X5_witness_no_file_bad_file :
  (exists s', LoadConfFile "t.conf" "foo" conf0 = Ret (inl (PathError fuse.ENOENT)) s') /\
  (exists s',
     LoadConfFile "t.conf" "foo"
       (set_fs {[ "t.conf" := {| perm := perm0400; content := [] |} ]} conf0)
       = Ret (inl (Errorf "unexpected end of JSON input" [])) s' /\
     WarnLog s' = [("Failed to unmarshal config file"%string, [])]).
Proof.
  split.
  - destruct (X5_load_read_and_parse_errors (ext := toyExtern) (aead := toyAEAD)
                "t.conf" "foo" conf0) as (H & _).
    + intros e. vm_compute. discriminate.
    + destruct (H eq_refl) as (s' & Heq & _). exists s'. exact Heq.
  - destruct (X5_load_read_and_parse_errors (ext := toyExtern) (aead := toyAEAD)
                "t.conf" "foo"
                (set_fs {[ "t.conf" := {| perm := perm0400; content := [] |} ]} conf0))
      as (_ & H).
    + intros e. vm_compute. discriminate.
    + destruct (H {| perm := perm0400; content := [] |}
                  (Errorf "unexpected end of JSON input" []))
        as (s' & Heq & _ & _ & HL).
      * vm_compute. reflexivity.
      * reflexivity.
      * exists s'. split; [exact Heq|]. exact HL.
Defined.

(** X6 on the stand-in instance: the created config, re-wrapped for the
    password "new". *)
Lemma X6_witness_rewrap :
  exists cf' s',
    EncryptKey createdConfFile masterKey "new" 12 created = Ret cf' s' /\
    FeatureFlags cf' = ["GCMIV128"; "DirIV"; "EMENames"; "LongNames"] /\
    filename cf' = "t.conf" /\ fs s' = fs created.
Proof.
  assert (exists cf' s',
            EncryptKey createdConfFile masterKey "new" 12 created = Ret cf' s')
    as (cf' & s' & Heq) by (vm_compute; eauto).
  destruct (X6_encryptkey_keeps_the_rest (ext := toyExtern) (aead := toyAEAD)
              createdConfFile masterKey "new" 12 created cf' s' Heq)
    as (_ & _ & HF & Hn & _ & Hfs & _).
  exists cf', s'. split; [exact Heq|]. rewrite HF, Hn. split_and!; [| |exact Hfs].
  - vm_compute. reflexivity.
  - vm_compute. reflexivity.
Defined.

End configfile_examples.

(** ** The file handle *)

Section handle_facts.

Import contentenc fusefrontend.
Context {ce : ContentEnc}.
Variable createsHole : file -> Z -> Z -> bool.
Variable zeroPad : Z -> M State fuse.Status.

(** *** System calls *)

Lemma syscall_fails c effect st e :
  next_fails st e ->
  syscall c effect st
    = Ret (Some e) (log (EvSyscall c (Some e))
                      (if fdOpen st then set_faults (tail (faults st)) st else st)).
Proof.
  unfold syscall. intros [[-> ->]|[-> (p & H & ->)]]; simpl; [done|].
  destruct (faults st) as [|[e'|] fl]; simpl in *; by simplify_eq.
Qed.

Lemma syscall_closed c effect st :
  fdOpen st = false ->
  syscall c effect st = Ret (Some fuse.EBADF) (log (EvSyscall c (Some fuse.EBADF)) st).
Proof. unfold syscall. by intros ->. Qed.

(** *** The claims *)

(** C10. [Release] on a handle that is already released panics with
    "double release", holding the exclusive descriptor lock and having done
    nothing else.  On a handle that is not, it takes the exclusive lock,
    closes the descriptor, sets [released], releases the lock and only then
    unregisters the inode from the write-lock table. *)
Theorem C10_release_once_or_panic st :
  if released (hdl st) then
    exists st', Release st = Panic "double release" st' /\
      trace st' = trace st ++ [EvLock] /\
      hdl st' = hdl st /\ fdOpen st' = fdOpen st /\ wlock st' = wlock st
  else
    exists st' r, Release st = Ret tt st' /\
      released (hdl st') = true /\ fdOpen st' = false /\
      wlock st' = unregister_tab (ino (hdl st)) (wlock st) /\
      trace st' = trace st ++ [EvLock; EvSyscall ScClose r; EvReleased; EvUnlock;
                               EvWlockUnregister (ino (hdl st))].
Proof.
  unfold Release, fd_Close, wlock_unregister, getf, emit, modify, panic, syscall.
  unfold mbind, M_bind, mret, M_ret. simpl.
  destruct (released (hdl st)) eqn:Hr; simpl.
  { eexists. split; [reflexivity|]. done. }
  destruct (fdOpen st) eqn:Ho; simpl.
  - destruct (faults st) as [|[e|] fl]; simpl;
      eexists _, _; (split; [reflexivity|]); simpl; rewrite <- ?app_assoc; done.
  - eexists _, _; (split; [reflexivity|]); simpl; rewrite <- ?app_assoc; done.
Qed.

(** C2, as the code has it.  On a released handle [Write] and [Truncate]
    return EBADF from their check of the flag, having touched neither the
    write-lock table nor the descriptor; [Allocate] returns ENOSYS as it
    always does.  [Flush], [Fsync], [Chmod], [Chown], [GetAttr], [Utimens]
    and [Read] do not look at the flag: with the descriptor closed they
    return EBADF because their system call fails ([Read] when the handle
    is write-only, or when it gets to read the header or the
    ciphertext). *)
Theorem C2_released_handle st :
  released (hdl st) = true ->
  (forall data off,
     Write createsHole zeroPad data off st
       = Ret (0, fuse.EBADF) (log EvRUnlock (log EvRLock st))) /\
  (forall newSize,
     Truncate newSize st = Ret fuse.EBADF (log EvRUnlock (log EvRLock st))) /\
  (forall off sz mode, Allocate off sz mode st = Ret fuse.ENOSYS st) /\
  (fdOpen st = false ->
     (exists st', Flush st = Ret fuse.EBADF st') /\
     (forall flags, exists st', Fsync flags st = Ret fuse.EBADF st') /\
     (forall mode, exists st', Chmod mode st = Ret fuse.EBADF st') /\
     (forall uid gid, exists st', Chown uid gid st = Ret fuse.EBADF st') /\
     (exists st', GetAttr st = Ret (None, fuse.EBADF) st') /\
     (forall a m, exists st', Utimens a m st = Ret fuse.EBADF st') /\
     (forall buf off,
        writeOnly (hdl st) = true \/
        (header (hdl st) = None /\ 0 < HEADER_LEN) \/
        (exists h b0 rest,
           header (hdl st) = Some h /\
           ExplodePlainRange (u64 off) (u64 (len buf)) = b0 :: rest /\
           0 < i64 (JointCiphertextRange (b0 :: rest)).2) ->
        exists st', Read buf off st = Ret (None, fuse.EBADF) st')).
Proof.
  intros Hrel. repeat split.
  - intros data off. unfold Write, defer, getf, emit, modify, mbind, M_bind, mret, M_ret.
    simpl. by rewrite Hrel.
  - intros newSize. unfold Truncate, defer, getf, emit, modify, mbind, M_bind, mret, M_ret.
    simpl. by rewrite Hrel.
  - unfold Flush, defer, emit, modify, mbind, M_bind, mret, M_ret.
    rewrite syscall_closed by done. simpl. eauto.
  - intros flags. unfold Fsync, defer, emit, modify, mbind, M_bind, mret, M_ret.
    rewrite syscall_closed by done. simpl. eauto.
  - intros mode. unfold Chmod, defer, emit, modify, mbind, M_bind, mret, M_ret.
    rewrite syscall_closed by done. simpl. eauto.
  - intros uid gid. unfold Chown, defer, emit, modify, mbind, M_bind, mret, M_ret.
    rewrite syscall_closed by done. simpl. eauto.
  - unfold GetAttr, defer, emit, modify, mbind, M_bind, mret, M_ret.
    rewrite syscall_closed by done. simpl. eauto.
  - intros a m. unfold Utimens, UtimesNano, defer, emit, modify, mbind, M_bind, mret, M_ret.
    simpl. match goal with H : fdOpen st = false |- _ => rewrite H end. simpl. eauto.
  - intros buf off Hcase.
    unfold Read, defer, getf, emit, modify, mbind, M_bind, mret, M_ret. simpl.
    destruct (writeOnly (hdl st)) eqn:Hwo; [eauto|].
    destruct Hcase as [?|[[Hh Hlen]|(h & b0 & rest & Hh & Hb & Hlen)]]; [done| |].
    + unfold doRead, readHeader, fd_ReadAt, getf, get, mbind, M_bind, mret, M_ret.
      simpl. rewrite Hh.
      assert ((HEADER_LEN <=? 0) = false) as -> by by apply Z.leb_gt.
      unfold mbind, M_bind, mret, M_ret.
      rewrite syscall_closed by done. simpl. eauto.
    + unfold doRead, readHeader, fd_ReadAt, getf, get, mbind, M_bind, mret, M_ret.
      simpl. rewrite Hh, Hb.
      destruct (JointCiphertextRange (b0 :: rest)) as [ao al] eqn:Hj.
      simpl in Hlen.
      assert ((i64 al <? 0) = false) as -> by (apply Z.ltb_ge; lia).
      assert ((i64 al <=? 0) = false) as -> by by apply Z.leb_gt.
      unfold mbind, M_bind, mret, M_ret.
      rewrite syscall_closed by done. simpl. eauto.
Qed.

(** C7, as the code has it.  A [Write] on a handle that is not released,
    whose [Fstat] succeeds, does this under the two locks: when
    [createsHole(plainSize, off)] says so, it first calls
    [zeroPad(plainSize)], with the plaintext size and nothing else; a status
    other than OK is returned with 0 bytes written and no write is made;
    after OK, and when no hole is reported, it is [doWrite(data, off)]. *)
Theorem C7_write_pads_before_writing data off st :
  released (hdl st) = false -> next_runs st ->
  let plainSize := CipherSizeToPlainSize (u64 (len (backing st))) in
  let i := ino (hdl st) in
  exists st1,
    hdl st1 = hdl st /\ backing st1 = backing st /\ fdOpen st1 = true /\
    rng st1 = rng st /\ wlock st1 = wlock st /\ faults st1 = tail (faults st) /\
    trace st1 = trace st ++ [EvRLock; EvWlockLock i; EvSyscall ScFstat None] /\
    Write createsHole zeroPad data off st =
      unlocks i
        (if createsHole (hdl st) plainSize off then
           match zeroPad plainSize (log (EvZeroPad plainSize) st1) with
           | Ret status st2 =>
               if status =? fuse.OK then doWrite data off st2 else Ret (0, status) st2
           | Panic m st2 => Panic m st2
           end
         else doWrite data off st1).
Proof.
  intros Hrel [Hopen Hnf] plainSize i. subst plainSize i.
  unfold Write, defer, fd_Stat, wlock_lock, wlock_unlock, getf, get, emit, modify,
    syscall, unlocks.
  unfold mbind, M_bind, mret, M_ret. simpl. rewrite Hrel. simpl. rewrite Hopen. simpl.
  destruct (faults st) as [|[e|] fl] eqn:Hf; simpl.
  - exists (log (EvSyscall ScFstat None) (log (EvWlockLock (ino (hdl st))) (log EvRLock st))).
    split_and!; try done.
    + simpl. by rewrite <- !app_assoc.
    + simpl. destruct (createsHole _ _ _).
      * destruct (zeroPad _ _) as [status st2|m st2]; [|done].
        destruct (status =? fuse.OK); simpl; [|done].
        by destruct (doWrite data off st2).
      * by destruct (doWrite data off _).
  - by exfalso; eapply Hnf.
  - exists (log (EvSyscall ScFstat None)
              (set_faults fl (log (EvWlockLock (ino (hdl st))) (log EvRLock st)))).
    split_and!; try done.
    + simpl. by rewrite <- !app_assoc.
    + simpl. destruct (createsHole _ _ _).
      * destruct (zeroPad _ _) as [status st2|m st2]; [|done].
        destruct (status =? fuse.OK); simpl; [|done].
        by destruct (doWrite data off st2).
      * by destruct (doWrite data off _).
Qed.

(** C3, as the code has it.  In the loop of [doWrite], when the plaintext
    of a block is ready (the block is covered in full, or the read of
    read-modify-write has succeeded) and its preallocation fails, the block
    has been encrypted by then, but neither it nor any later block is
    written: the loop ends, the backing file is as it was, and the bytes
    written that are returned are those of the blocks before, with the
    status of the failure. *)
Theorem C3_prealloc_failure_stops_the_write b rest dataBuf written st st1 blockData h e :
  0 <= i64 (Length b) ->
  (IsPartial b = false /\ st1 = st /\
     blockData = take (Z.to_nat (i64 (Length b))) dataBuf) \/
  (IsPartial b = true /\ exists oldData,
     doRead (PlaintextRange b).1 PlainBS st = Ret (oldData, fuse.OK) st1 /\
     blockData = MergeBlocks oldData (take (Z.to_nat (i64 (Length b))) dataBuf)
                   (i64 (Skip b))) ->
  header (hdl st1) = Some h ->
  next_fails st1 e ->
  exists st',
    doWrite_blocks (b :: rest) dataBuf written st = Ret (written, e) st' /\
    backing st' = backing st1 /\ hdl st' = hdl st1 /\
    trace st' = trace st1 ++
      [EvEncryptBlock (BlockNo b) (len blockData);
       EvSyscall (ScPrealloc (i64 (CiphertextRange b).1) (i64 (CiphertextRange b).2))
         (Some e)].
Proof.
  intros Hlen Hready Hh Hfail. simpl.
  assert ((i64 (Length b) <? 0) = false) as -> by by apply Z.ltb_ge.
  assert (forall data,
    exists st',
      (let '(blockOffset, blockLen) := CiphertextRange b in
       id ← headerId;
       s ← get;
       let '(blockData', r) := EncryptBlock data (BlockNo b) id (rng s) in
       modify (set_rng r);;
       emit (EvEncryptBlock (BlockNo b) (len data));;
       err ← prealloc (i64 blockOffset) (i64 blockLen);
       match err with
       | Some e => mret (written, fuse.ToStatus (Some e))
       | None =>
           err ← fd_WriteAt blockData' (i64 blockOffset);
           match err with
           | Some e => mret (written, fuse.ToStatus (Some e))
           | None =>
               doWrite_blocks rest (drop (Z.to_nat (i64 (Length b))) dataBuf)
                 (u32 (written + u32 (Length b)))
           end
       end) st1 = Ret (written, e) st' /\
      backing st' = backing st1 /\ hdl st' = hdl st1 /\
      trace st' = trace st1 ++
        [EvEncryptBlock (BlockNo b) (len data);
         EvSyscall (ScPrealloc (i64 (CiphertextRange b).1) (i64 (CiphertextRange b).2))
           (Some e)]) as Hstep.
  { intros data. destruct (CiphertextRange b) as [blockOffset blockLen]. simpl.
    unfold headerId, getf, get, prealloc, emit, modify, mbind, M_bind, mret, M_ret.
    rewrite Hh. simpl.
    destruct (EncryptBlock data (BlockNo b) (Id h) (rng st1)) as [blockData' r]. simpl.
    rewrite (syscall_fails _ _ _ e).
    2:{ destruct Hfail as [[? ?]|[? ?]]; [left|right]; done. }
    simpl. eexists. split; [reflexivity|]. simpl.
    split_and!; try (by destruct (fdOpen st1)).
    destruct (fdOpen st1); simpl; by rewrite <- app_assoc. }
  unfold mbind at 1, M_bind at 1.
  destruct Hready as [(Hp & -> & ->)|(Hp & oldData & Hread & ->)]; rewrite Hp.
  - simpl. apply Hstep.
  - destruct (PlaintextRange b) as [o ?] eqn:Hpr. simpl in Hread.
    unfold mbind at 1, M_bind at 1. rewrite Hread. simpl. apply Hstep.
Qed.

(** *** What a call adds to the trace *)

Section adds.

Variable Q : Event -> Prop.

Lemma adds_ret {A} (a : A) : adds Q (mret a).
Proof. intros st. exists []. by rewrite app_nil_r. Qed.

Lemma adds_panic {A} msg : adds Q (panic msg : M State A).
Proof. intros st. exists []. by rewrite app_nil_r. Qed.

Lemma adds_get : adds Q get.
Proof. intros st. exists []. by rewrite app_nil_r. Qed.

Lemma adds_getf : adds Q getf.
Proof. intros st. exists []. by rewrite app_nil_r. Qed.

Lemma adds_modify g : (forall st, trace (g st) = trace st) -> adds Q (modify g).
Proof. intros Hg st. exists []. simpl. by rewrite Hg, app_nil_r. Qed.

Lemma adds_emit e : Q e -> adds Q (emit e).
Proof. intros He st. exists [e]. split; [done|]. by constructor. Qed.

Lemma adds_bind {A B} (m : M State A) (k : A -> M State B) :
  adds Q m -> (forall a, adds Q (k a)) -> adds Q (m ≫= k).
Proof.
  intros Hm Hk st. unfold mbind, M_bind.
  destruct (Hm st) as (evs1 & H1 & HQ1).
  destruct (m st) as [a st1|msg st1]; simpl in *.
  - destruct (Hk a st1) as (evs2 & H2 & HQ2).
    exists (evs1 ++ evs2). rewrite H2, H1, app_assoc. split; [done|].
    by apply Forall_app.
  - by exists evs1.
Qed.

Lemma adds_defer {A} (cleanup : M State unit) (body : M State A) :
  adds Q cleanup -> adds Q body -> adds Q (defer cleanup body).
Proof.
  intros Hc Hb st. unfold defer.
  destruct (Hb st) as (evs1 & H1 & HQ1).
  destruct (body st) as [a st1|msg st1]; simpl in *;
    destruct (Hc st1) as (evs2 & H2 & HQ2);
    destruct (cleanup st1) as [[] st2|msg' st2]; simpl in *;
    exists (evs1 ++ evs2); rewrite H2, H1, app_assoc; (split; [done|]);
    by apply Forall_app.
Qed.

Lemma adds_syscall c effect :
  (forall r, Q (EvSyscall c r)) -> (forall st, trace (effect st) = trace st) ->
  adds Q (syscall c effect).
Proof.
  intros Hc He st. unfold syscall.
  destruct (fdOpen st); simpl.
  - destruct (faults st) as [|[e|] fl]; simpl; rewrite ?He;
      eexists [_]; (split; [reflexivity|]); by constructor.
  - eexists [_]; (split; [reflexivity|]); by constructor.
Qed.

End adds.

(** One step of a proof that a call adds only events in [Q]. *)
Ltac adds_step :=
  match goal with
  | |- adds _ (mret _) => apply adds_ret
  | |- adds _ (panic _) => apply adds_panic
  | |- adds _ get => apply adds_get
  | |- adds _ getf => apply adds_getf
  | |- adds _ (modify _) => apply adds_modify; intros; reflexivity
  | |- adds _ (emit _) => apply adds_emit; exact I
  | |- adds _ (syscall _ _) => apply adds_syscall; [intros; exact I | intros; reflexivity]
  | |- adds _ (defer _ _) => apply adds_defer
  | |- adds _ (_ ≫= _) => apply adds_bind; [|intros]
  | |- adds _ (match ?x with _ => _ end) => destruct x
  end.

Lemma filter_quiet evs : Forall quiet evs -> List.filter isGrow evs = [].
Proof.
  induction 1 as [|e evs He _ IH]; simpl; [done|].
  destruct e as [| | | | | | | |[]| | | |]; simpl in *; done.
Qed.

Lemma quiet_fd_ReadAt n off : adds quiet (fd_ReadAt n off).
Proof. unfold fd_ReadAt. repeat adds_step. Qed.

Lemma quiet_fd_WriteAt data off : adds quiet (fd_WriteAt data off).
Proof. unfold fd_WriteAt. repeat adds_step. Qed.

Lemma quiet_prealloc off n : adds quiet (prealloc off n).
Proof. unfold prealloc. repeat adds_step. Qed.

Lemma quiet_readHeader : adds quiet readHeader.
Proof.
  unfold readHeader. apply adds_bind; [apply quiet_fd_ReadAt|].
  intros [buf err]. repeat adds_step.
Qed.

Lemma quiet_createHeader : adds quiet createHeader.
Proof.
  unfold createHeader. adds_step; [adds_step|]. destruct (RandomHeader _).
  adds_step; [adds_step|]. apply adds_bind; [apply quiet_prealloc|].
  intros [e|]; [adds_step|]. apply adds_bind; [apply quiet_fd_WriteAt|].
  intros [e|]; repeat adds_step.
Qed.

Lemma quiet_headerId : adds quiet headerId.
Proof. unfold headerId. repeat adds_step. Qed.

Lemma quiet_doRead off length : adds quiet (doRead off length).
Proof.
  unfold doRead. adds_step; [adds_step|].
  apply adds_bind.
  { destruct (header a); [adds_step|apply quiet_readHeader]. }
  intros [e|]; [destruct e; adds_step|].
  destruct (ExplodePlainRange off length) as [|b0 blocks']; [adds_step|].
  destruct (JointCiphertextRange _) as [ao al].
  destruct (i64 al <? 0); [adds_step|].
  apply adds_bind; [apply quiet_fd_ReadAt|].
  intros [ciphertext err].
  assert (adds quiet
            (id ← headerId;
             let '(plaintext, derr) := DecryptBlocks ciphertext (BlockNo b0) id in
             match derr with
             | Some _ => mret ([], fuse.EIO)
             | None =>
                 let lenHave := len plaintext in
                 let lenWant := i64 (u64 (Skip b0 + length)) in
                 if lenWant <? lenHave then
                   match slice plaintext (i64 (Skip b0)) lenWant with
                   | Some out => mret (out, fuse.OK)
                   | None => panic "slice bounds out of range"
                   end
                 else if i64 (Skip b0) <? lenHave then
                   match slice plaintext (i64 (Skip b0)) lenHave with
                   | Some out => mret (out, fuse.OK)
                   | None => panic "slice bounds out of range"
                   end
                 else mret ([], fuse.OK)
             end)) as Hrest.
  { apply adds_bind; [apply quiet_headerId|]. intros id.
    destruct (DecryptBlocks _ _ _) as [plaintext [derr|]]; [adds_step|].
    simpl. repeat adds_step. }
  destruct err as [[]|]; first [exact Hrest | adds_step].
Qed.

Lemma quiet_doWrite_blocks blocks dataBuf written :
  adds quiet (doWrite_blocks blocks dataBuf written).
Proof.
  revert dataBuf written. induction blocks as [|b rest IH]; intros dataBuf written; simpl.
  { adds_step. }
  destruct (i64 (Length b) <? 0); [adds_step|].
  apply adds_bind.
  { destruct (IsPartial b); [|adds_step]. destruct (PlaintextRange b) as [o ?].
    apply adds_bind; [apply quiet_doRead|]. intros [oldData status]. repeat adds_step. }
  intros [status|blockData]; [adds_step|].
  destruct (CiphertextRange b) as [blockOffset blockLen].
  apply adds_bind; [apply quiet_headerId|]. intros id.
  adds_step; [adds_step|]. destruct (EncryptBlock _ _ _ _) as [blockData' r].
  adds_step; [adds_step|]. adds_step; [adds_step|].
  apply adds_bind; [apply quiet_prealloc|]. intros [e|]; [adds_step|].
  apply adds_bind; [apply quiet_fd_WriteAt|]. intros [e|]; [adds_step|].
  apply IH.
Qed.

(** [doWrite] enters once, and does nothing else that grows the file by
    itself. *)
Lemma doWrite_events data off st :
  exists evs,
    trace (final (doWrite data off st)) = trace st ++ EvDoWrite off (len data) :: evs /\
    Forall quiet evs.
Proof.
  unfold doWrite.
  assert (adds quiet
            (f ← getf;
             herr ← (match header f with
                     | Some _ => mret None
                     | None =>
                         err ← readHeader;
                         match err with
                         | Some io_EOF => createHeader
                         | _ => mret err
                         end
                     end);
             match herr with
             | Some e => mret (0, fuse.ToStatus (Some e))
             | None =>
                 doWrite_blocks (ExplodePlainRange (u64 off) (u64 (len data))) data 0
             end)) as Hrest.
  { adds_step; [adds_step|]. apply adds_bind.
    - destruct (header a); [adds_step|].
      apply adds_bind; [apply quiet_readHeader|].
      intros [[]|]; first [apply quiet_createHeader | adds_step].
    - intros [e|]; [adds_step|apply quiet_doWrite_blocks]. }
  destruct (Hrest (log (EvDoWrite off (len data)) st)) as (evs & Ht & HQ).
  exists evs. split; [|done].
  unfold mbind at 1, M_bind at 1, emit, modify. simpl in *.
  rewrite Ht. by rewrite <- app_assoc.
Qed.

(** *** Growing a file *)

Lemma defer_emit {A} e (body : M State A) st :
  defer (emit e) body st = after e (body st).
Proof. unfold defer, after, emit, modify. by destruct (body st). Qed.

Lemma bind_emit {A} e (k : unit -> M State A) st :
  (emit e ≫= k) st = k tt (log e st).
Proof. done. Qed.

Lemma bind_getf {A} (k : file -> M State A) st : (getf ≫= k) st = k (hdl st) st.
Proof. done. Qed.

Lemma bind_Ret {A B} (m : M State A) (k : A -> M State B) st a st1 :
  m st = Ret a st1 -> (m ≫= k) st = k a st1.
Proof. unfold mbind, M_bind. by intros ->. Qed.

Lemma syscall_errno c effect st e st' :
  syscall c effect st = Ret (Some e) st' -> 0 < e.
Proof.
  unfold syscall. destruct (fdOpen st); simpl.
  - destruct (faults st) as [|[p|] fl]; intros [= <- _]; lia.
  - intros [= <- _]. done.
Qed.

Lemma syscall_trace c effect st :
  (forall s, trace (effect s) = trace s) ->
  exists r st', syscall c effect st = Ret r st' /\
    trace st' = trace st ++ [EvSyscall c r].
Proof.
  intros He. unfold syscall. destruct (fdOpen st); simpl.
  - destruct (faults st) as [|[p|] fl]; eexists _, _; (split; [reflexivity|]);
      simpl; by rewrite ?He.
  - eexists _, _; (split; [reflexivity|]); done.
Qed.

(** [Ftruncate] is one system call; it fails with a status that is not OK,
    or resizes the file and touches nothing else. *)
Lemma Ftruncate_spec n st :
  exists r x st', Ftruncate n st = Ret r st' /\
    trace st' = trace st ++ [EvSyscall (ScFtruncate n) x] /\
    match r with
    | Some e => fuse.ToStatus (Some e) <> fuse.OK
    | None => x = None /\ 0 <= n /\ backing st' = resize n (backing st) /\
              hdl st' = hdl st /\ fdOpen st' = fdOpen st /\ rng st' = rng st
    end.
Proof.
  unfold Ftruncate. destruct (n <? 0) eqn:Hn; unfold mbind, M_bind, mret, M_ret.
  - destruct (syscall_trace (ScFtruncate n) id st) as (r & st' & Hs & Ht); [done|].
    rewrite Hs. eexists _, _, _. split; [reflexivity|]. split; [exact Ht|].
    destruct r as [e|]; simpl; [|done].
    apply syscall_errno in Hs. unfold fuse.OK. lia.
  - unfold syscall. destruct (fdOpen st) eqn:Ho; simpl.
    + destruct (faults st) as [|[p|] fl]; simpl;
        eexists _, _, _; (split; [reflexivity|]); simpl; (split; [reflexivity|]);
        try done; split_and!; try done; lia.
    + eexists _, _, _; (split; [reflexivity|]); simpl; (split; [reflexivity|]); done.
Qed.

Lemma createHeader_status st e st' :
  createHeader st = Ret (Some e) st' -> fuse.ToStatus (Some e) <> fuse.OK.
Proof.
  unfold createHeader, prealloc, fd_WriteAt, get, modify, mbind, M_bind, mret, M_ret.
  destruct (RandomHeader (rng st)) as [h r]. simpl.
  match goal with |- context [syscall ?c ?eff ?s] =>
    destruct (syscall c eff s) as [[x|] s1|] eqn:Hs1 end; simpl; [| |done].
  { intros [= <- _]. apply syscall_errno in Hs1. simpl. unfold fuse.OK. lia. }
  destruct (len (Pack h) <=? 0); simpl; [done|].
  match goal with |- context [syscall ?c ?eff ?s] =>
    destruct (syscall c eff s) as [[x|] s2|] eqn:Hs2 end; simpl; [|done|done].
  intros [= <- _]. apply syscall_errno in Hs2. simpl. unfold fuse.OK. lia.
Qed.

Lemma createHeader_total st : exists herr st', createHeader st = Ret herr st'.
Proof.
  unfold createHeader, prealloc, fd_WriteAt, get, modify.
  unfold mbind, M_bind, mret, M_ret.
  destruct (RandomHeader (rng st)) as [h r]. simpl.
  match goal with |- context [syscall ?c ?eff ?s] =>
    destruct (syscall_trace c eff s) as (x & s1 & -> & _); [done|] end.
  destruct x; simpl; [eauto|].
  destruct (len (Pack h) <=? 0); simpl; [eauto|].
  match goal with |- context [syscall ?c ?eff ?s] =>
    destruct (syscall_trace c eff s) as (x & s2 & -> & _); [done|] end.
  destruct x; simpl; eauto.
Qed.

(** The loop of growing truncation, when it ends with OK: its [doWrite]
    entries and [Ftruncate] calls are those of the blocks, one for each, in
    order. *)
Lemma Truncate_grow_events blocks st st' :
  Truncate_grow blocks st = Ret fuse.OK st' ->
  exists evs, trace st' = trace st ++ evs /\
    List.filter isGrow evs = growEvent <$> blocks.
Proof.
  revert st. induction blocks as [|b rest IH]; intros st; simpl.
  { intros [= <-]. exists []. by rewrite app_nil_r. }
  unfold growEvent at 1. destruct (IsPartial b).
  - destruct (PlaintextRange b) as [o ?]. simpl.
    unfold mbind at 1, M_bind at 1.
    destruct (doWrite_events (zeros (Length b)) (i64 (u64 (o + Skip b))) st)
      as (evs1 & Ht1 & HQ1).
    destruct (doWrite _ _ st) as [[w status] st1|]; [|done]. simpl in Ht1.
    destruct (status =? fuse.OK) eqn:Hs; simpl.
    2:{ intros [= -> _]. done. }
    intros (evs2 & Ht2 & HF2)%IH.
    exists (EvDoWrite (i64 (u64 (o + Skip b))) (len (zeros (Length b))) :: evs1 ++ evs2).
    split.
    + rewrite Ht2, Ht1. by rewrite <- app_assoc.
    + simpl. rewrite List.filter_app, (filter_quiet _ HQ1), HF2. done.
  - destruct (CiphertextRange b) as [off length]. simpl.
    unfold mbind at 1, M_bind at 1.
    destruct (Ftruncate_spec (i64 (u64 (off + length))) st)
      as (r & x & st1 & -> & Ht1 & Hr).
    destruct r as [e|]; simpl.
    { intros [= He _]. done. }
    destruct Hr as (-> & _).
    intros (evs2 & Ht2 & HF2)%IH.
    exists (EvSyscall (ScFtruncate (i64 (u64 (off + length)))) None :: evs2).
    split.
    + rewrite Ht2, Ht1. by rewrite <- app_assoc.
    + simpl. by rewrite HF2.
Qed.

(** C1, as the code has it.  A growing [Truncate] that returns OK goes
    through the blocks of the grown range in order: for each block covered
    only in part it writes zero-filled plaintext with [doWrite]; for each
    block covered in full it writes nothing, it extends the backing file
    with [Ftruncate] to the end of the ciphertext of that block, and the
    bytes this adds are zeros. *)
Theorem C1_truncate_grows_by_blocks newSize st st' :
  released (hdl st) = false -> next_runs st ->
  let oldSize := CipherSizeToPlainSize (u64 (len (backing st))) in
  newSize <> 0 -> oldSize < newSize ->
  Truncate newSize st = Ret fuse.OK st' ->
  (exists evs, trace st' = trace st ++ evs /\
     List.filter isGrow evs
       = growEvent <$> ExplodePlainRange oldSize (u64 (newSize - oldSize))) /\
  (forall b rest st0 st0',
     IsPartial b = false ->
     Truncate_grow (b :: rest) st0 = Ret fuse.OK st0' ->
     let n := i64 (u64 ((CiphertextRange b).1 + (CiphertextRange b).2)) in
     exists st1,
       Truncate_grow rest st1 = Ret fuse.OK st0' /\
       trace st1 = trace st0 ++ [EvSyscall (ScFtruncate n) None] /\
       backing st1 = take (Z.to_nat n) (backing st0)
                       ++ replicate (Z.to_nat n - length (backing st0)) x00 /\
       hdl st1 = hdl st0 /\ rng st1 = rng st0).
Proof.
  intros Hrel [Hopen Hnf] oldSize Hnz Hgrow HT. split.
  - revert HT. unfold Truncate, wlock_lock, wlock_unlock.
    rewrite bind_emit, defer_emit, bind_getf.
    change (hdl (log EvRLock st)) with (hdl st). rewrite Hrel.
    rewrite bind_emit, defer_emit.
    assert ((newSize =? 0) = false) as -> by by apply Z.eqb_neq.
    set (st0 := log (EvWlockLock (ino (hdl st))) (log EvRLock st)).
    assert (exists st1, fd_Stat st0 = Ret (len (backing st), None) st1 /\
              trace st1 = trace st ++ [EvRLock; EvWlockLock (ino (hdl st));
                                       EvSyscall ScFstat None])
      as (st1 & HS & Ht1).
    { unfold fd_Stat, syscall, get, mbind, M_bind, mret, M_ret. subst st0. simpl.
      rewrite Hopen. simpl.
      destruct (faults st) as [|[p|] fl] eqn:Hf; simpl.
      - eexists. split; [reflexivity|]. simpl. by rewrite <- !app_assoc.
      - by exfalso; eapply Hnf.
      - eexists. split; [reflexivity|]. simpl. by rewrite <- !app_assoc. }
    rewrite (bind_Ret _ _ _ _ _ HS). cbv beta iota. fold oldSize.
    assert ((newSize =? oldSize) = false) as -> by (apply Z.eqb_neq; lia).
    assert ((oldSize <? newSize) = true) as -> by by apply Z.ltb_lt.
    assert (exists evsH herr st2,
              (if oldSize =? 0 then createHeader else mret None) st1 = Ret herr st2 /\
              trace st2 = trace st1 ++ evsH /\ Forall quiet evsH /\
              (forall e, herr = Some e -> fuse.ToStatus (Some e) <> fuse.OK))
      as (evsH & herr & st2 & Hh & Ht2 & HQ2 & Herr).
    { destruct (oldSize =? 0).
      - destruct (quiet_createHeader st1) as (evsH & Ht & HQ).
        destruct (createHeader st1) as [herr st2|] eqn:Hc.
        + exists evsH, herr, st2. split_and!; try done.
          intros e ->. by eapply createHeader_status.
        + destruct (createHeader_total st1) as (? & ? & ?). congruence.
      - exists [], None, st1. rewrite app_nil_r. done. }
    rewrite (bind_Ret _ _ _ _ _ Hh). destruct herr as [e|].
    { simpl. intros [= He _]. by destruct (Herr e eq_refl). }
    destruct (Truncate_grow _ st2) as [status st3|] eqn:HG; simpl; [|done].
    intros [= -> <-]. simpl.
    apply Truncate_grow_events in HG as (evs & Ht3 & HF).
    exists ([EvRLock; EvWlockLock (ino (hdl st)); EvSyscall ScFstat None] ++ evsH ++ evs
              ++ [EvWlockUnlock (ino (hdl st)); EvRUnlock]).
    split.
    + rewrite Ht3, Ht2, Ht1. by rewrite <- !app_assoc.
    + rewrite !List.filter_app, (filter_quiet _ HQ2), HF. simpl. by rewrite app_nil_r.
  - intros b rest st0 st0' Hfull. simpl. rewrite Hfull.
    destruct (CiphertextRange b) as [off length]. simpl.
    unfold mbind at 1, M_bind at 1.
    destruct (Ftruncate_spec (i64 (u64 (off + length))) st0)
      as (r & x & st1 & -> & Ht1 & Hr).
    destruct r as [e|]; simpl.
    { intros [= He _]. done. }
    destruct Hr as (-> & _ & Hb & Hh & _ & Hrng). intros HG.
    exists st1. by split_and!.
Qed.

(** *** Locks *)

Lemma calm_fd_ReadAt n off : adds calm (fd_ReadAt n off).
Proof. unfold fd_ReadAt. repeat adds_step. Qed.

Lemma calm_fd_WriteAt data off : adds calm (fd_WriteAt data off).
Proof. unfold fd_WriteAt. repeat adds_step. Qed.

Lemma calm_prealloc off n : adds calm (prealloc off n).
Proof. unfold prealloc. repeat adds_step. Qed.

Lemma calm_Ftruncate n : adds calm (Ftruncate n).
Proof. unfold Ftruncate. repeat adds_step. Qed.

Lemma calm_fd_Stat : adds calm fd_Stat.
Proof. unfold fd_Stat. repeat adds_step. Qed.

Lemma calm_readHeader : adds calm readHeader.
Proof.
  unfold readHeader. apply adds_bind; [apply calm_fd_ReadAt|].
  intros [buf err]. repeat adds_step.
Qed.

Lemma calm_createHeader : adds calm createHeader.
Proof.
  unfold createHeader. adds_step; [adds_step|]. destruct (RandomHeader _).
  adds_step; [adds_step|]. apply adds_bind; [apply calm_prealloc|].
  intros [e|]; [adds_step|]. apply adds_bind; [apply calm_fd_WriteAt|].
  intros [e|]; repeat adds_step.
Qed.

Lemma calm_headerId : adds calm headerId.
Proof. unfold headerId. repeat adds_step. Qed.

Lemma calm_doRead off length : adds calm (doRead off length).
Proof.
  unfold doRead. adds_step; [adds_step|].
  apply adds_bind.
  { destruct (header a); [adds_step|apply calm_readHeader]. }
  intros [e|]; [destruct e; adds_step|].
  destruct (ExplodePlainRange off length) as [|b0 blocks']; [adds_step|].
  destruct (JointCiphertextRange _) as [ao al].
  destruct (i64 al <? 0); [adds_step|].
  apply adds_bind; [apply calm_fd_ReadAt|].
  intros [ciphertext err].
  assert (adds calm
            (id ← headerId;
             let '(plaintext, derr) := DecryptBlocks ciphertext (BlockNo b0) id in
             match derr with
             | Some _ => mret ([], fuse.EIO)
             | None =>
                 let lenHave := len plaintext in
                 let lenWant := i64 (u64 (Skip b0 + length)) in
                 if lenWant <? lenHave then
                   match slice plaintext (i64 (Skip b0)) lenWant with
                   | Some out => mret (out, fuse.OK)
                   | None => panic "slice bounds out of range"
                   end
                 else if i64 (Skip b0) <? lenHave then
                   match slice plaintext (i64 (Skip b0)) lenHave with
                   | Some out => mret (out, fuse.OK)
                   | None => panic "slice bounds out of range"
                   end
                 else mret ([], fuse.OK)
             end)) as Hrest.
  { apply adds_bind; [apply calm_headerId|]. intros id.
    destruct (DecryptBlocks _ _ _) as [plaintext [derr|]]; [adds_step|].
    simpl. repeat adds_step. }
  destruct err as [[]|]; first [exact Hrest | adds_step].
Qed.

Lemma calm_doWrite_blocks blocks dataBuf written :
  adds calm (doWrite_blocks blocks dataBuf written).
Proof.
  revert dataBuf written. induction blocks as [|b rest IH]; intros dataBuf written; simpl.
  { adds_step. }
  destruct (i64 (Length b) <? 0); [adds_step|].
  apply adds_bind.
  { destruct (IsPartial b); [|adds_step]. destruct (PlaintextRange b) as [o ?].
    apply adds_bind; [apply calm_doRead|]. intros [oldData status]. repeat adds_step. }
  intros [status|blockData]; [adds_step|].
  destruct (CiphertextRange b) as [blockOffset blockLen].
  apply adds_bind; [apply calm_headerId|]. intros id.
  adds_step; [adds_step|]. destruct (EncryptBlock _ _ _ _) as [blockData' r].
  adds_step; [adds_step|]. adds_step; [adds_step|].
  apply adds_bind; [apply calm_prealloc|]. intros [e|]; [adds_step|].
  apply adds_bind; [apply calm_fd_WriteAt|]. intros [e|]; [adds_step|].
  apply IH.
Qed.

Lemma calm_doWrite data off : adds calm (doWrite data off).
Proof.
  unfold doWrite. adds_step; [adds_step|]. adds_step; [adds_step|].
  apply adds_bind.
  - destruct (header a0); [adds_step|].
    apply adds_bind; [apply calm_readHeader|].
    intros [[]|]; first [apply calm_createHeader | adds_step].
  - intros [e|]; [adds_step|apply calm_doWrite_blocks].
Qed.

Lemma calm_Truncate_grow blocks : adds calm (Truncate_grow blocks).
Proof.
  induction blocks as [|b rest IH]; simpl; [adds_step|].
  destruct (IsPartial b).
  - destruct (PlaintextRange b) as [o ?].
    apply adds_bind; [apply calm_doWrite|]. intros [w status].
    destruct (negb (status =? fuse.OK)); [adds_step|apply IH].
  - destruct (CiphertextRange b) as [off length].
    apply adds_bind; [apply calm_Ftruncate|]. intros [e|]; [adds_step|apply IH].
Qed.

(** The body of a FUSE call between taking and releasing a lock. *)
Lemma brackets_defer e1 e2 {A} (body : M State A) st :
  adds calm body -> brackets [e1] [e2] (emit e1;; defer (emit e2) body) st.
Proof.
  intros Hb. unfold brackets.
  rewrite bind_emit, defer_emit.
  destruct (Hb (log e1 st)) as (mid & Ht & HQ).
  exists mid. split; [|done].
  destruct (body (log e1 st)); simpl in *; rewrite Ht; by rewrite <- !app_assoc.
Qed.

Lemma brackets_nested i {A} (inner : M State A) st :
  adds calm inner ->
  exists mid,
    trace (final ((emit EvRLock;;
                   defer (emit EvRUnlock)
                     (wlock_lock i;; defer (wlock_unlock i) inner)) st))
      = trace st ++ [EvRLock; EvWlockLock i] ++ mid ++ [EvWlockUnlock i; EvRUnlock] /\
    Forall calm mid.
Proof.
  intros Hb. rewrite bind_emit, defer_emit. unfold wlock_lock, wlock_unlock.
  rewrite bind_emit, defer_emit.
  destruct (Hb (log (EvWlockLock i) (log EvRLock st))) as (mid & Ht & HQ).
  exists mid. split; [|done].
  destruct (inner _); simpl in *; rewrite Ht; by rewrite <- !app_assoc.
Qed.

Lemma calm_Truncate_body newSize : 
  adds calm
    (if newSize =? 0 then
       err ← Ftruncate 0;
       match err with
       | Some e => mret (fuse.ToStatus (Some e))
       | None => modify (set_hdl (set_header None));; mret fuse.OK
       end
     else
       '(size, err) ← fd_Stat;
       match err with
       | Some e => mret (fuse.ToStatus (Some e))
       | None =>
           let oldSize := CipherSizeToPlainSize (u64 size) in
           if newSize =? oldSize then mret fuse.OK
           else if oldSize <? newSize then
             herr ← (if oldSize =? 0 then createHeader else mret None);
             match herr with
             | Some e => mret (fuse.ToStatus (Some e))
             | None =>
                 Truncate_grow (ExplodePlainRange oldSize (u64 (newSize - oldSize)))
             end
           else
             let blockNo := PlainOffToBlockNo newSize in
             let cipherOff := BlockNoToCipherOff blockNo in
             let plainOff := BlockNoToPlainOff blockNo in
             let lastBlockLen := u64 (newSize - plainOff) in
             rd ← (if 0 <? lastBlockLen then doRead plainOff lastBlockLen
                   else mret ([], fuse.OK));
             let '(data, status) := rd in
             if negb (status =? fuse.OK) then mret status
             else
               err ← Ftruncate (i64 cipherOff);
               match err with
               | Some e => mret (fuse.ToStatus (Some e))
               | None =>
                   if 0 <? lastBlockLen then
                     '(_, status) ← doWrite data (i64 plainOff);
                     mret status
                   else mret fuse.OK
               end
       end).
Proof.
  destruct (newSize =? 0).
  - apply adds_bind; [apply calm_Ftruncate|]. intros [e|]; repeat adds_step.
  - apply adds_bind; [apply calm_fd_Stat|]. intros [size [e|]]; [adds_step|].
    cbv zeta.
    destruct (newSize =? CipherSizeToPlainSize (u64 size)); [adds_step|].
    destruct (CipherSizeToPlainSize (u64 size) <? newSize).
    + apply adds_bind.
      * destruct (CipherSizeToPlainSize (u64 size) =? 0);
          [apply calm_createHeader|adds_step].
      * intros [e|]; [adds_step|apply calm_Truncate_grow].
    + apply adds_bind.
      * match goal with |- context [if ?c then _ else _] => destruct c end;
          [apply calm_doRead|adds_step].
      * intros [data status]. destruct (negb (status =? fuse.OK)); [adds_step|].
        apply adds_bind; [apply calm_Ftruncate|]. intros [e|]; [adds_step|].
        match goal with |- context [if ?c then _ else _] => destruct c end; [|adds_step].
        apply adds_bind; [apply calm_doWrite|]. intros [? ?]. adds_step.
Qed.

(** X8. Every FUSE call on the handle releases the descriptor lock it
    takes, however it ends (result, error status or panic): [Read],
    [Flush], [Fsync], [Chmod], [Chown], [GetAttr] and [Utimens] add
    [RLock], then system calls only, then [RUnlock].  [Truncate] on a
    released handle does the same with nothing in between; on a live
    handle it takes the write lock of the inode inside the descriptor
    lock and releases the two in the reverse order. *)
Theorem X8_calls_release_their_locks st :
  (forall buf off, brackets [EvRLock] [EvRUnlock] (Read buf off) st) /\
  brackets [EvRLock] [EvRUnlock] Flush st /\
  (forall flags, brackets [EvRLock] [EvRUnlock] (Fsync flags) st) /\
  (forall mode, brackets [EvRLock] [EvRUnlock] (Chmod mode) st) /\
  (forall uid gid, brackets [EvRLock] [EvRUnlock] (Chown uid gid) st) /\
  brackets [EvRLock] [EvRUnlock] GetAttr st /\
  (forall a m, brackets [EvRLock] [EvRUnlock] (Utimens a m) st) /\
  (forall newSize,
     if released (hdl st) then
       trace (final (Truncate newSize st)) = trace st ++ [EvRLock; EvRUnlock]
     else
       brackets [EvRLock; EvWlockLock (ino (hdl st))]
         [EvWlockUnlock (ino (hdl st)); EvRUnlock] (Truncate newSize) st).
Proof.
  split_and!; intros; try apply brackets_defer.
  - adds_step; [adds_step|]. destruct (writeOnly a); [adds_step|].
    apply adds_bind; [apply calm_doRead|]. intros [out status]. repeat adds_step.
  - repeat adds_step.
  - repeat adds_step.
  - repeat adds_step.
  - repeat adds_step.
  - repeat adds_step.
  - apply adds_bind.
    + intros st0. unfold UtimesNano. destruct (fdOpen st0); simpl.
      * apply adds_syscall; [intros; exact I|intros; reflexivity].
      * eexists [_]. split; [reflexivity|]. by constructor.
    + intros [e|]; repeat adds_step.
  - destruct (released (hdl st)) eqn:Hrel.
    + unfold Truncate. rewrite bind_emit, defer_emit, bind_getf. simpl.
      rewrite Hrel. simpl. by rewrite <- app_assoc.
    + unfold brackets, Truncate.
      destruct (brackets_nested (ino (hdl st)) _ st (calm_Truncate_body newSize))
        as (mid & Ht & HQ).
      exists mid. split; [|done]. rewrite <- Ht.
      rewrite (bind_emit EvRLock), (defer_emit EvRUnlock), bind_getf.
      cbv beta. change (hdl (log EvRLock st)) with (hdl st). rewrite Hrel. cbv iota.
      by rewrite (bind_emit EvRLock), (defer_emit EvRUnlock).
Qed.

(** X9. [Write] releases what it takes, however it ends, as long as
    [zeroPad] takes no lock itself: on a released handle it adds [RLock]
    and [RUnlock] and nothing else; on a live handle it takes the write
    lock of the inode inside the descriptor lock, and releases the two in
    the reverse order, also when a system call fails or the write
    panics. *)
Theorem X9_write_releases_its_locks data off st :
  (forall n, adds calm (zeroPad n)) ->
  if released (hdl st) then
    trace (final (Write createsHole zeroPad data off st)) = trace st ++ [EvRLock; EvRUnlock]
  else
    brackets [EvRLock; EvWlockLock (ino (hdl st))]
      [EvWlockUnlock (ino (hdl st)); EvRUnlock]
      (Write createsHole zeroPad data off) st.
Proof.
  intros Hz. destruct (released (hdl st)) eqn:Hrel.
  - unfold Write. rewrite bind_emit, defer_emit, bind_getf. simpl.
    rewrite Hrel. simpl. by rewrite <- app_assoc.
  - unfold brackets, Write.
    match goal with
    | |- context [defer (wlock_unlock _) ?inner] =>
        destruct (brackets_nested (ino (hdl st)) inner st) as (mid & Ht & HQ)
    end.
    { apply adds_bind; [apply calm_fd_Stat|]. intros [size [e|]]; [adds_step|].
      adds_step; [adds_step|]. destruct (createsHole _ _ _); [|apply calm_doWrite].
      apply adds_bind.
      - adds_step; [adds_step|]. apply Hz.
      - intros status. destruct (negb _); [adds_step|apply calm_doWrite]. }
    exists mid. split; [|done]. rewrite <- Ht.
    rewrite (bind_emit EvRLock), (defer_emit EvRUnlock), bind_getf.
    cbv beta. change (hdl (log EvRLock st)) with (hdl st). rewrite Hrel. cbv iota.
    by rewrite (bind_emit EvRLock), (defer_emit EvRUnlock).
Qed.

(** *** What a call leaves as it is *)

Section keeps.

Context {X : Type} (f : State -> X).

Lemma keeps_ret {A} (a : A) : keeps f (mret a).
Proof. done. Qed.

Lemma keeps_panic {A} msg : keeps f (panic msg : M State A).
Proof. done. Qed.

Lemma keeps_get : keeps f get.
Proof. done. Qed.

Lemma keeps_getf : keeps f getf.
Proof. done. Qed.

Lemma keeps_modify g : (forall st, f (g st) = f st) -> keeps f (modify g).
Proof. intros Hg st. apply Hg. Qed.

Lemma keeps_bind {A B} (m : M State A) (k : A -> M State B) :
  keeps f m -> (forall a, keeps f (k a)) -> keeps f (m ≫= k).
Proof.
  intros Hm Hk st. unfold mbind, M_bind. specialize (Hm st).
  destruct (m st) as [a st1|msg st1]; simpl in *; [|done].
  by rewrite Hk.
Qed.

Lemma keeps_defer {A} (cleanup : M State unit) (body : M State A) :
  keeps f cleanup -> keeps f body -> keeps f (defer cleanup body).
Proof.
  intros Hc Hb st. unfold defer. specialize (Hb st).
  destruct (body st) as [a st1|msg st1]; simpl in *;
    specialize (Hc st1); destruct (cleanup st1) as [[] st2|msg' st2]; simpl in *;
    congruence.
Qed.

Lemma keeps_syscall c effect :
  (forall st, f (log (EvSyscall c None) (effect st)) = f st) ->
  (forall st e, f (log e st) = f st) ->
  (forall st fl, f (set_faults fl st) = f st) ->
  keeps f (syscall c effect).
Proof.
  intros He Hl Hf st. unfold syscall.
  destruct (fdOpen st); simpl; [|apply Hl].
  destruct (faults st) as [|[e|] fl]; simpl.
  - apply He.
  - by rewrite Hl, Hf.
  - by rewrite He, Hf.
Qed.

End keeps.

Ltac keeps_step :=
  match goal with
  | |- keeps _ (mret _) => apply keeps_ret
  | |- keeps _ (panic _) => apply keeps_panic
  | |- keeps _ get => apply keeps_get
  | |- keeps _ getf => apply keeps_getf
  | |- keeps _ (modify _) => apply keeps_modify; intros; reflexivity
  | |- keeps _ (emit _) => apply keeps_modify; intros; reflexivity
  | |- keeps _ (syscall _ id) =>
      apply keeps_syscall; intros; reflexivity
  | |- keeps _ (defer _ _) => apply keeps_defer
  | |- keeps _ (_ ≫= _) => apply keeps_bind; [|intros]
  | |- keeps _ (match ?x with _ => _ end) => destruct x
  end.

Lemma view_fd_ReadAt n off : keeps fileView (fd_ReadAt n off).
Proof. unfold fd_ReadAt. repeat keeps_step. Qed.

Lemma view_readHeader : keeps fileView readHeader.
Proof.
  unfold readHeader. apply keeps_bind; [apply view_fd_ReadAt|].
  intros [buf err]. repeat keeps_step.
Qed.

Lemma view_headerId : keeps fileView headerId.
Proof. unfold headerId. repeat keeps_step. Qed.

Lemma view_doRead off length : keeps fileView (doRead off length).
Proof.
  unfold doRead. keeps_step; [keeps_step|].
  apply keeps_bind.
  { destruct (header a); [keeps_step|apply view_readHeader]. }
  intros [e|]; [destruct e; keeps_step|].
  destruct (ExplodePlainRange off length) as [|b0 blocks']; [keeps_step|].
  destruct (JointCiphertextRange _) as [ao al].
  destruct (i64 al <? 0); [keeps_step|].
  apply keeps_bind; [apply view_fd_ReadAt|].
  intros [ciphertext err].
  assert (keeps fileView
            (id ← headerId;
             let '(plaintext, derr) := DecryptBlocks ciphertext (BlockNo b0) id in
             match derr with
             | Some _ => mret ([], fuse.EIO)
             | None =>
                 let lenHave := len plaintext in
                 let lenWant := i64 (u64 (Skip b0 + length)) in
                 if lenWant <? lenHave then
                   match slice plaintext (i64 (Skip b0)) lenWant with
                   | Some out => mret (out, fuse.OK)
                   | None => panic "slice bounds out of range"
                   end
                 else if i64 (Skip b0) <? lenHave then
                   match slice plaintext (i64 (Skip b0)) lenHave with
                   | Some out => mret (out, fuse.OK)
                   | None => panic "slice bounds out of range"
                   end
                 else mret ([], fuse.OK)
             end)) as Hrest.
  { apply keeps_bind; [apply view_headerId|]. intros id.
    destruct (DecryptBlocks _ _ _) as [plaintext [derr|]]; [keeps_step|].
    simpl. repeat keeps_step. }
  destruct err as [[]|]; first [exact Hrest | keeps_step].
Qed.

(** X10. What reading and the metadata calls never do: [Read], [Flush],
    [Fsync], [Chmod], [Chown], [GetAttr] and [Utimens] leave the bytes of
    the backing file, the descriptor, the random source, the write-lock
    table and the flags and inode of the handle as they are, however they
    end.  ([Read] may cache the file header in the handle.) *)
Theorem X10_reads_and_metadata_calls_keep_the_file :
  (forall buf off, keeps fileView (Read buf off)) /\
  keeps fileView Flush /\
  (forall flags, keeps fileView (Fsync flags)) /\
  (forall mode, keeps fileView (Chmod mode)) /\
  (forall uid gid, keeps fileView (Chown uid gid)) /\
  keeps fileView GetAttr /\
  (forall a m, keeps fileView (Utimens a m)).
Proof.
  split_and!; intros.
  - unfold Read. keeps_step; [keeps_step|]. keeps_step; [keeps_step|].
    keeps_step; [keeps_step|]. destruct (writeOnly a0); [keeps_step|].
    apply keeps_bind; [apply view_doRead|]. intros [out status]. repeat keeps_step.
  - unfold Flush. repeat keeps_step.
  - unfold Fsync. repeat keeps_step.
  - unfold Chmod. repeat keeps_step.
  - unfold Chown. repeat keeps_step.
  - unfold GetAttr. repeat keeps_step.
  - unfold Utimens. keeps_step; [keeps_step|]. keeps_step; [keeps_step|].
    apply keeps_bind.
    + intros st0. unfold UtimesNano. destruct (fdOpen st0) eqn:Ho; simpl.
      * apply (keeps_syscall fileView); intros; reflexivity.
      * unfold fileView. simpl. by rewrite Ho.
    + intros [e|]; repeat keeps_step.
Qed.


Lemma i64_small x : 0 <= x < 2 ^ 63 -> i64 x = x.
Proof.
  intros H. unfold i64. rewrite Z.mod_small by lia.
  destruct (x <? 2 ^ 63) eqn:E; [done|]. apply Z.ltb_ge in E. lia.
Qed.

Lemma u64_small x : 0 <= x < 2 ^ 64 -> u64 x = x.
Proof. intros H. unfold u64. by rewrite Z.mod_small. Qed.

Lemma slice_len {A} (l : list A) lo hi out :
  slice l lo hi = Some out -> len out <= hi - lo.
Proof.
  unfold slice. destruct (_ && _) eqn:E; [|done]. intros [= <-].
  apply andb_prop in E as [[E1 E2]%andb_prop E3].
  unfold len. rewrite length_take. lia.
Qed.

(** X11. [doRead] crops to what was asked for: when the first block
    descriptor has a [Skip] that is not negative and [Skip + length] fits
    an [int], the bytes returned are at most [length], none with a status
    other than OK, and the slicing never goes out of bounds, however much
    plaintext [DecryptBlocks] gives. *)
Theorem X11_doRead_returns_at_most_length off length st out status st' :
  0 <= length ->
  (forall b0 rest, ExplodePlainRange off length = b0 :: rest ->
     0 <= Skip b0 /\ Skip b0 + length < 2 ^ 63) ->
  doRead off length st = Ret (out, status) st' ->
  len out <= length /\ (status <> fuse.OK -> out = []).
Proof.
  intros Hlen Hskip. unfold doRead. rewrite bind_getf.
  unfold mbind at 1, M_bind at 1.
  destruct ((match header (hdl st) with Some _ => mret None | None => readHeader end) st)
    as [[e|] s1|]; [| |done].
  { destruct e; intros [= <- <- <-]; done. }
  destruct (ExplodePlainRange off length) as [|b0 rest] eqn:Hb; [done|].
  destruct (Hskip b0 rest eq_refl) as [Hs1 Hs2].
  destruct (JointCiphertextRange _) as [ao al].
  destruct (i64 al <? 0); [done|].
  unfold mbind at 1, M_bind at 1.
  destruct (fd_ReadAt _ _ s1) as [[ct err] s2|]; [|done].
  assert (forall st0,
    (id ← headerId;
     let '(plaintext, derr) := DecryptBlocks ct (BlockNo b0) id in
     match derr with
     | Some _ => mret ([], fuse.EIO)
     | None =>
         let lenHave := len plaintext in
         let lenWant := i64 (u64 (Skip b0 + length)) in
         if lenWant <? lenHave then
           match slice plaintext (i64 (Skip b0)) lenWant with
           | Some out => mret (out, fuse.OK)
           | None => panic "slice bounds out of range"
           end
         else if i64 (Skip b0) <? lenHave then
           match slice plaintext (i64 (Skip b0)) lenHave with
           | Some out => mret (out, fuse.OK)
           | None => panic "slice bounds out of range"
           end
         else mret ([], fuse.OK)
     end) st0 = Ret (out, status) st' ->
    len out <= length /\ (status <> fuse.OK -> out = [])) as Hrest.
  { intros st0. unfold headerId, getf, panic. unfold mbind, M_bind, mret, M_ret.
    destruct (header (hdl st0)) as [h|]; [|done].
    destruct (DecryptBlocks ct (BlockNo b0) (Id h)) as [plaintext [derr|]].
    { intros [= <- <- <-]. done. }
    rewrite (i64_small (Skip b0)) by lia.
    rewrite (u64_small (Skip b0 + length)) by lia.
    rewrite (i64_small (Skip b0 + length)) by lia.
    destruct (Skip b0 + length <? len plaintext) eqn:E1.
    - destruct (slice _ _ _) as [o|] eqn:Hsl; [|done].
      intros [= <- <- <-]. apply slice_len in Hsl. split; [lia|done].
    - destruct (Skip b0 <? len plaintext) eqn:E2.
      + destruct (slice _ _ _) as [o|] eqn:Hsl; [|done].
        intros [= <- <- <-]. apply slice_len in Hsl. apply Z.ltb_ge in E1.
        split; [lia|done].
      + intros [= <- <- <-]. done. }
  destruct err as [[]|]; first [apply Hrest | intros [= <- <- <-]; done].
Qed.

(** X12. A backing file shorter than a file header reads as an empty
    file: with no header cached, [doRead] tries to read the header, gets
    [io.EOF], and returns no data with OK, for every offset and length;
    nothing is decrypted and no header is cached. *)
Theorem X12_short_file_reads_as_empty off length st :
  header (hdl st) = None -> next_runs st -> len (backing st) < HEADER_LEN ->
  exists st',
    doRead off length st = Ret ([], fuse.OK) st' /\
    hdl st' = hdl st /\ backing st' = backing st /\
    trace st' = trace st ++ [EvSyscall (ScReadAt 0 HEADER_LEN) None].
Proof.
  intros Hh [Hopen Hnf] Hshort.
  assert ((HEADER_LEN <=? 0) = false) as Hpos.
  { apply Z.leb_gt. unfold len in Hshort. lia. }
  assert ((len (take (Z.to_nat HEADER_LEN) (backing st)) <? HEADER_LEN) = true) as Hgot.
  { apply Z.ltb_lt. unfold len in *. rewrite length_take. lia. }
  unfold doRead, readHeader, fd_ReadAt, getf, get, syscall.
  unfold mbind, M_bind, mret, M_ret. simpl. rewrite Hh, Hpos. simpl. rewrite Hopen. simpl.
  destruct (faults st) as [|[e|] fl] eqn:Hf; cbn [backing set_faults log];
    first [ by exfalso; eapply Hnf
          | change (drop (Z.to_nat 0) (backing st)) with (backing st);
            rewrite Hgot; simpl; eexists; split; [reflexivity|]; done ].
Qed.


(** X13. The first [doWrite] to a file shorter than a header lays a
    fresh random header over its start, before any block is looked at,
    also when there is no data to write: the header is preallocated,
    written at offset 0 and cached, and the blocks are then written on
    that state. *)
Theorem X13_first_write_lays_the_header data off st :
  header (hdl st) = None -> fdOpen st = true -> faults st = [] ->
  len (backing st) < HEADER_LEN ->
  let h := (RandomHeader (rng st)).1 in
  0 < len (Pack h) ->
  exists st1,
    header (hdl st1) = Some h /\
    backing st1 = pwrite (Pack h) 0 (backing st) /\
    rng st1 = (RandomHeader (rng st)).2 /\
    trace st1 = trace st ++
      [EvDoWrite off (len data); EvSyscall (ScReadAt 0 HEADER_LEN) None;
       EvSyscall (ScPrealloc 0 HEADER_LEN) None;
       EvSyscall (ScWriteAt 0 (len (Pack h))) None] /\
    doWrite data off st
      = doWrite_blocks (ExplodePlainRange (u64 off) (u64 (len data))) data 0 st1.
Proof.
  intros Hh Hopen Hf Hshort h Hpack. subst h.
  assert ((HEADER_LEN <=? 0) = false) as Hpos.
  { apply Z.leb_gt. unfold len in Hshort. lia. }
  assert ((len (take (Z.to_nat HEADER_LEN) (backing st)) <? HEADER_LEN) = true) as Hgot.
  { apply Z.ltb_lt. unfold len in *. rewrite length_take. lia. }
  unfold doWrite, readHeader, createHeader, fd_ReadAt, prealloc, fd_WriteAt, getf, get,
    emit, modify, syscall.
  unfold mbind, M_bind, mret, M_ret. simpl. rewrite Hh, Hpos. simpl.
  rewrite Hopen, Hf. simpl.
  change (drop (Z.to_nat 0) (backing st)) with (backing st). rewrite Hgot. simpl.
  destruct (RandomHeader (rng st)) as [h r]. simpl in *.
  rewrite Hopen, Hf. simpl.
  assert ((len (Pack h) <=? 0) = false) as -> by by apply Z.leb_gt.
  simpl. rewrite Hopen, Hf. simpl.
  eexists. split_and!; [| | | |reflexivity]; simpl; try done.
  by rewrite <- !app_assoc.
Qed.

Lemma prealloc_status off n st e st' :
  prealloc off n st = Ret (Some e) st' -> fuse.ToStatus (Some e) <> fuse.OK.
Proof.
  unfold prealloc, mbind, M_bind, mret, M_ret.
  destruct (syscall _ _ st) as [[x|] s1|] eqn:Hs; [|done|done].
  intros [= <- _]. apply syscall_errno in Hs. simpl. unfold fuse.OK. lia.
Qed.

Lemma fd_WriteAt_status data off st e st' :
  fd_WriteAt data off st = Ret (Some e) st' -> fuse.ToStatus (Some e) <> fuse.OK.
Proof.
  unfold fd_WriteAt, mbind, M_bind, mret, M_ret.
  destruct (len data <=? 0); [done|]. destruct (off <? 0).
  - destruct (syscall _ _ st) as [[x|] s1|] eqn:Hs; [| |done]; intros [= <- _]; simpl.
    + apply syscall_errno in Hs. unfold fuse.OK. lia.
    + done.
  - destruct (syscall _ _ st) as [[x|] s1|] eqn:Hs; [|done|done].
    intros [= <- _]. apply syscall_errno in Hs. simpl. unfold fuse.OK. lia.
Qed.

Lemma doWrite_blocks_count blocks dataBuf written st w status st' :
  doWrite_blocks blocks dataBuf written st = Ret (w, status) st' ->
  exists k, (k <= length blocks)%nat /\
    w = lengthSum (take k blocks) written /\
    (status = fuse.OK -> k = length blocks).
Proof.
  revert dataBuf written st.
  induction blocks as [|b rest IH]; intros dataBuf written st; simpl.
  { intros [= <- <- <-]. by exists 0%nat. }
  assert (forall s, s <> fuse.OK ->
            exists k, (k <= S (length rest))%nat /\
              written = lengthSum (take k (b :: rest)) written /\
              (s = fuse.OK -> k = S (length rest))) as Hstop.
  { intros s Hs. exists 0%nat. split; [lia|]. done. }
  destruct (i64 (Length b) <? 0); [done|].
  unfold mbind at 1, M_bind at 1.
  match goal with
  | |- match ?m with _ => _ end = _ -> _ =>
      destruct m as [[s0|blockData] s1|] eqn:Hrmw
  end; [| |done].
  { intros [= <- <- <-]. apply Hstop.
    destruct (IsPartial b); [|done]. destruct (PlaintextRange b) as [o ?].
    revert Hrmw. unfold mbind, M_bind, mret, M_ret.
    destruct (doRead o PlainBS st) as [[oldData s2] ?|]; [|done].
    destruct (s2 =? fuse.OK) eqn:E; simpl; [done|].
    intros [= <- _]. by apply Z.eqb_neq. }
  destruct (CiphertextRange b) as [blockOffset blockLen].
  unfold mbind at 1, M_bind at 1.
  destruct (headerId s1) as [id s2|]; [|done].
  unfold get. unfold mbind at 1, M_bind at 1.
  destruct (EncryptBlock blockData (BlockNo b) id (rng s2)) as [blockData' r].
  unfold mbind at 1, M_bind at 1, modify. cbv beta iota.
  unfold mbind at 1, M_bind at 1, emit, modify. cbv beta iota.
  unfold mbind at 1, M_bind at 1.
  match goal with
  | |- match ?m with _ => _ end = _ -> _ => destruct m as [[e|] s3|] eqn:Hp
  end; [| |done].
  { intros [= <- <- <-]. apply Hstop. by eapply prealloc_status. }
  unfold mbind at 1, M_bind at 1.
  match goal with
  | |- match ?m with _ => _ end = _ -> _ => destruct m as [[e|] s4|] eqn:Hw
  end; [| |done].
  { intros [= <- <- <-]. apply Hstop. by eapply fd_WriteAt_status. }
  intros (k & Hk & -> & Hall)%IH.
  exists (S k). split; [lia|]. split; [done|]. intros ?. by rewrite Hall.
Qed.

Lemma fd_ReadAt_status n off st buf e st' :
  fd_ReadAt n off st = Ret (buf, Some e) st' ->
  e = io_EOF \/ fuse.ToStatus (Some e) <> fuse.OK.
Proof.
  unfold fd_ReadAt, get, mbind, M_bind, mret, M_ret.
  destruct (n <=? 0); [done|].
  destruct (syscall _ _ st) as [[x|] s1|] eqn:Hs; simpl; [| |done].
  - intros [= _ <- _]. right. apply syscall_errno in Hs. simpl. unfold fuse.OK. lia.
  - destruct (off <? 0); [intros [= _ <- _]; by right|].
    match goal with |- context [if ?c then _ else _] => destruct c end;
      intros [= _ <- _]. by left.
Qed.

(** The header phase of [doWrite] ends with a header, or with a status
    that is not OK. *)
Lemma header_phase_status (st : State) e s1 :
  (forall buf e, ParseHeader buf = inl e -> fuse.ToStatus (Some e) <> fuse.OK) ->
  (match header (hdl st) with
   | Some _ => mret None
   | None =>
       err ← readHeader;
       match err with
       | Some io_EOF => createHeader
       | _ => mret err
       end
   end) st = Ret (Some e) s1 ->
  fuse.ToStatus (Some e) <> fuse.OK.
Proof.
  intros Hparse. destruct (header (hdl st)); [done|].
  unfold mbind at 1, M_bind at 1.
  destruct (readHeader st) as [[e0|] s2|] eqn:Hr; [| |done].
  - assert (e0 = io_EOF \/ fuse.ToStatus (Some e0) <> fuse.OK) as [->|Hne].
    { revert Hr. unfold readHeader. unfold mbind at 1, M_bind at 1.
      destruct (fd_ReadAt _ _ st) as [[buf [e1|]] s3|] eqn:Hrd; [| |done].
      - intros [= <- _]. by eapply fd_ReadAt_status.
      - destruct (ParseHeader buf) as [e1|h] eqn:Hp; [|done].
        intros [= <- _]. right. by eapply Hparse. }
    + intros Hc. by apply createHeader_status in Hc.
    + destruct e0; unfold mret, M_ret;
        first [ by intros [= <- _]
              | intros Hc; by apply createHeader_status in Hc ].
  - done.
Qed.

(** X14. The count [doWrite] returns is the sum of the lengths of the
    blocks it has written in full (as [uint32]): the blocks before the
    first one whose read, preallocation or write failed; with the status
    OK these are all the blocks.  A failure of the header phase counts 0.
    ([ParseHeader] is taken to fail with errors that [fuse.ToStatus] does
    not turn into OK.) *)
Theorem X14_doWrite_counts_whole_blocks data off st w status st' :
  (forall buf e, ParseHeader buf = inl e -> fuse.ToStatus (Some e) <> fuse.OK) ->
  doWrite data off st = Ret (w, status) st' ->
  let blocks := ExplodePlainRange (u64 off) (u64 (len data)) in
  exists k, (k <= length blocks)%nat /\
    w = lengthSum (take k blocks) 0 /\
    (status = fuse.OK -> k = length blocks).
Proof.
  intros Hparse. unfold doWrite. rewrite bind_emit, bind_getf. cbv beta.
  unfold mbind at 1, M_bind at 1.
  match goal with
  | |- match ?m with _ => _ end = _ -> _ => destruct m as [[e|] s1|] eqn:Hh
  end; [| |done].
  - unfold mret, M_ret. intros [= <- <- <-]. exists 0%nat.
    split; [lia|]. split; [done|]. intros Hok.
    by apply (header_phase_status _ _ _ Hparse) in Hh.
  - intros H. by apply doWrite_blocks_count in H.
Qed.


(** X15. [Truncate] to zero on a live handle is one [Ftruncate(fd, 0)]
    under the two locks: when it succeeds the backing file is empty,
    header included, and the cached header is dropped; when it fails the
    errno is returned and file and cached header are as they were. *)
Theorem X15_truncate_to_zero st :
  released (hdl st) = false ->
  let i := ino (hdl st) in
  (next_runs st ->
     exists st', Truncate 0 st = Ret fuse.OK st' /\
       backing st' = [] /\ header (hdl st') = None /\
       trace st' = trace st ++
         [EvRLock; EvWlockLock i; EvSyscall (ScFtruncate 0) None;
          EvWlockUnlock i; EvRUnlock]) /\
  (forall e, next_fails st e ->
     exists st', Truncate 0 st = Ret e st' /\
       backing st' = backing st /\ hdl st' = hdl st /\
       trace st' = trace st ++
         [EvRLock; EvWlockLock i; EvSyscall (ScFtruncate 0) (Some e);
          EvWlockUnlock i; EvRUnlock]).
Proof.
  intros Hrel i. subst i.
  unfold Truncate, wlock_lock, wlock_unlock.
  rewrite bind_emit, defer_emit, bind_getf. cbv beta.
  change (hdl (log EvRLock st)) with (hdl st). rewrite Hrel. cbv iota.
  rewrite bind_emit, defer_emit. change (0 =? 0) with true. cbv iota.
  unfold Ftruncate. change (0 <? 0) with false. cbv iota.
  unfold mbind, M_bind, mret, M_ret, modify, after.
  split.
  - intros [Hopen Hnf]. unfold syscall. simpl. rewrite Hopen. simpl.
    destruct (faults st) as [|[p|] fl] eqn:Hf; simpl.
    + eexists. split; [reflexivity|]. simpl. split_and!; try done.
      by rewrite <- !app_assoc.
    + by exfalso; eapply Hnf.
    + eexists. split; [reflexivity|]. simpl. split_and!; try done.
      by rewrite <- !app_assoc.
  - intros e Hfail.
    rewrite (syscall_fails _ _ _ e).
    2:{ destruct Hfail as [[? ?]|[? ?]]; [left|right]; done. }
    simpl. eexists. split; [reflexivity|]. simpl.
    destruct (fdOpen st); simpl; split_and!; try done; by rewrite <- !app_assoc.
Qed.

Lemma fd_Stat_runs st :
  next_runs st ->
  exists st1, fd_Stat st = Ret (len (backing st), None) st1 /\
    hdl st1 = hdl st /\ backing st1 = backing st /\ fdOpen st1 = true /\
    rng st1 = rng st /\ wlock st1 = wlock st /\
    trace st1 = trace st ++ [EvSyscall ScFstat None].
Proof.
  intros [Hopen Hnf]. unfold fd_Stat, syscall, get, mbind, M_bind, mret, M_ret.
  rewrite Hopen. simpl.
  destruct (faults st) as [|[p|] fl] eqn:Hf; simpl.
  - eexists. split; [reflexivity|]. done.
  - by exfalso; eapply Hnf.
  - eexists. split; [reflexivity|]. done.
Qed.

(** X16. [Truncate] to the size the file has is an [Fstat] and nothing
    else: it returns OK and leaves the backing file, the handle and the
    random source as they are. *)
Theorem X16_truncate_to_the_same_size newSize st :
  released (hdl st) = false -> next_runs st -> newSize <> 0 ->
  newSize = CipherSizeToPlainSize (u64 (len (backing st))) ->
  exists st', Truncate newSize st = Ret fuse.OK st' /\
    backing st' = backing st /\ hdl st' = hdl st /\ rng st' = rng st /\
    trace st' = trace st ++
      [EvRLock; EvWlockLock (ino (hdl st)); EvSyscall ScFstat None;
       EvWlockUnlock (ino (hdl st)); EvRUnlock].
Proof.
  intros Hrel Hruns Hnz Hsame.
  unfold Truncate, wlock_lock, wlock_unlock.
  rewrite bind_emit, defer_emit, bind_getf. cbv beta.
  change (hdl (log EvRLock st)) with (hdl st). rewrite Hrel. cbv iota.
  rewrite bind_emit, defer_emit.
  assert ((newSize =? 0) = false) as -> by by apply Z.eqb_neq.
  set (st0 := log (EvWlockLock (ino (hdl st))) (log EvRLock st)).
  destruct (fd_Stat_runs st0) as (st1 & HS & Hh & Hb & Ho & Hr & Hw & Ht); [done|].
  rewrite (bind_Ret _ _ _ _ _ HS). cbv beta iota zeta.
  change (backing st0) with (backing st). rewrite <- Hsame, Z.eqb_refl.
  eexists. split; [reflexivity|]. simpl. rewrite Hb, Hh, Hr, Ht. split_and!; try done.
  subst st0. simpl. by rewrite <- !app_assoc.
Qed.

Lemma Ftruncate_fails n st e st' :
  Ftruncate n st = Ret (Some e) st' ->
  backing st' = backing st /\ hdl st' = hdl st /\ fuse.ToStatus (Some e) <> fuse.OK.
Proof.
  intros H. destruct (Ftruncate_spec n st) as (r & x & st1 & Heq & _ & Hr).
  rewrite H in Heq. injection Heq as <- <-. split_and!; [| |done]; revert H;
    unfold Ftruncate, syscall, mbind, M_bind, mret, M_ret;
    destruct (n <? 0), (fdOpen st); simpl;
    try (destruct (faults st) as [|[p|] fl]; simpl);
    first [ by intros [= _ <-] | done ].
Qed.


(** X17. Shrinking reads before it cuts.  A shrinking [Truncate] that
    returns ends in one of three ways: with a status that is not OK and
    the backing file untouched (the read of the last block or the
    [Ftruncate] failed); with OK and the file cut at the block boundary
    (the new size is a multiple of the block size: nothing is read or
    written); or, the last block being partial, with its plaintext read
    first, the file cut at the start of that block, and the plaintext
    written back with [doWrite], whose status is returned. *)
Theorem X17_shrink_reads_before_it_cuts newSize st status st' :
  released (hdl st) = false -> next_runs st -> newSize <> 0 ->
  let oldSize := CipherSizeToPlainSize (u64 (len (backing st))) in
  newSize < oldSize ->
  let blockNo := PlainOffToBlockNo newSize in
  let cipherOff := BlockNoToCipherOff blockNo in
  let plainOff := BlockNoToPlainOff blockNo in
  let lastBlockLen := u64 (newSize - plainOff) in
  Truncate newSize st = Ret status st' ->
  (status <> fuse.OK /\ backing st' = backing st) \/
  (lastBlockLen = 0 /\ status = fuse.OK /\
   backing st' = resize (i64 cipherOff) (backing st)) \/
  (0 < lastBlockLen /\
   exists st1 data st2 st3 w st4,
     backing st1 = backing st /\ hdl st1 = hdl st /\
     doRead plainOff lastBlockLen st1 = Ret (data, fuse.OK) st2 /\
     backing st3 = resize (i64 cipherOff) (backing st) /\ hdl st3 = hdl st2 /\
     doWrite data (i64 plainOff) st3 = Ret (w, status) st4 /\
     backing st' = backing st4).
Proof.
  intros Hrel Hruns Hnz oldSize Hshrink blockNo cipherOff plainOff lastBlockLen.
  unfold Truncate, wlock_lock, wlock_unlock.
  rewrite bind_emit, defer_emit, bind_getf. cbv beta.
  change (hdl (log EvRLock st)) with (hdl st). rewrite Hrel. cbv iota.
  rewrite bind_emit, defer_emit.
  assert ((newSize =? 0) = false) as -> by by apply Z.eqb_neq.
  set (st0 := log (EvWlockLock (ino (hdl st))) (log EvRLock st)).
  destruct (fd_Stat_runs st0) as (st1 & HS & Hh & Hb & Ho & Hr & Hw & Ht); [done|].
  rewrite (bind_Ret _ _ _ _ _ HS). cbv beta iota zeta.
  change (backing st0) with (backing st) in *. change (hdl st0) with (hdl st) in *.
  fold oldSize.
  assert ((newSize =? oldSize) = false) as -> by (apply Z.eqb_neq; lia).
  assert ((oldSize <? newSize) = false) as -> by (apply Z.ltb_ge; lia).
  fold blockNo. fold cipherOff. fold plainOff. fold lastBlockLen.
  assert (0 <= lastBlockLen) as Hl0.
  { unfold lastBlockLen, u64. apply Z.mod_pos_bound. lia. }
  unfold mbind at 1, M_bind at 1.
  destruct (0 <? lastBlockLen) eqn:Hl.
  - apply Z.ltb_lt in Hl.
    pose proof (view_doRead plainOff lastBlockLen st1) as Hv.
    destruct (doRead plainOff lastBlockLen st1) as [[data s0] st2|] eqn:HR; [|done].
    simpl in Hv. unfold fileView in Hv. injection Hv as Hb2 _ _ _ _ _ _.
    destruct (s0 =? fuse.OK) eqn:Hs0; simpl.
    2:{ intros [= <- <-]. left. simpl. split; [by apply Z.eqb_neq|]. congruence. }
    apply Z.eqb_eq in Hs0. subst s0.
    unfold mbind at 1, M_bind at 1.
    destruct (Ftruncate (i64 cipherOff) st2) as [[e|] st3|] eqn:HF; [| |done].
    { apply Ftruncate_fails in HF as (HbF & _ & Hne). simpl.
      intros [= <- <-]. left. simpl. split; [done|]. congruence. }
    destruct (Ftruncate_spec (i64 cipherOff) st2) as (r & x & st3' & Heq & _ & HrF).
    rewrite HF in Heq. injection Heq as <- <-.
    destruct HrF as (_ & _ & Hb3 & Hh3 & _ & _).
    unfold mbind at 1, M_bind at 1.
    destruct (doWrite data (i64 plainOff) st3) as [[w s4] st4|] eqn:HW; [|done].
    simpl. intros [= <- <-]. right. right. split; [done|].
    exists st1, data, st2, st3, w, st4. split_and!; try done. congruence.
  - apply Z.ltb_ge in Hl. assert (lastBlockLen = 0) as Hz by lia.
    simpl. unfold mbind at 1, M_bind at 1.
    destruct (Ftruncate (i64 cipherOff) st1) as [[e|] st3|] eqn:HF; [| |done].
    { apply Ftruncate_fails in HF as (HbF & _ & Hne). simpl.
      intros [= <- <-]. left. simpl. split; [done|]. congruence. }
    destruct (Ftruncate_spec (i64 cipherOff) st1) as (r & x & st3' & Heq & _ & HrF).
    rewrite HF in Heq. injection Heq as <- <-.
    destruct HrF as (_ & _ & Hb3 & Hh3 & _ & _).
    simpl. intros [= <- <-]. right. left. simpl. split_and!; try done. congruence.
Qed.

End handle_facts.

(** *** The claims on the stand-in instance *)

Section handle_examples.

Import contentenc fusefrontend Demo.

(** C1 as stated fails.  The file holds one block; [Truncate] to three
    blocks returns OK and the plaintext size is 12288, yet no block was
    encrypted and nothing was written: the two new blocks are 8256 zero
    bytes that two [Ftruncate] calls appended to the backing file. *)
Lemma C1_counterexample_full_blocks_are_holes :
  Truncate 12288 oneBlock = Ret fuse.OK (final (Truncate 12288 oneBlock)) /\
  CipherSizeToPlainSize (u64 (len (backing oneBlock))) = 4096 /\
  CipherSizeToPlainSize (u64 (len (backing (final (Truncate 12288 oneBlock))))) = 12288 /\
  trace (final (Truncate 12288 oneBlock)) =
    trace oneBlock ++
      [EvRLock; EvWlockLock 7; EvSyscall ScFstat None;
       EvSyscall (ScFtruncate 8274) None; EvSyscall (ScFtruncate 12402) None;
       EvWlockUnlock 7; EvRUnlock] /\
  drop 4146 (backing (final (Truncate 12288 oneBlock))) = replicate 8256 x00.
Proof. split_and!; vm_compute; reflexivity. Qed.

(** C1 on the stand-in instance: growing the empty file to 10000 bytes
    extends it by [Ftruncate] for the blocks 0 and 1 and writes 1808 zero
    bytes of block 2 with [doWrite]. *)
Lemma C1_witness_grow_to_10000 :
  exists evs,
    trace (final (Truncate 10000 handle0)) = trace handle0 ++ evs /\
    List.filter isGrow evs =
      [EvSyscall (ScFtruncate 4146) None; EvSyscall (ScFtruncate 8274) None;
       EvDoWrite 8192 1808].
Proof.
  destruct (C1_truncate_grows_by_blocks (ce := demoEnc) 10000 handle0
              (final (Truncate 10000 handle0)))
    as [(evs & Ht & HF) _].
  - reflexivity.
  - split; [reflexivity|]. intros e. vm_compute. discriminate.
  - discriminate.
  - vm_compute. reflexivity.
  - vm_compute. reflexivity.
  - exists evs. split; [exact Ht|]. rewrite HF. vm_compute. reflexivity.
Defined.

(** C2 as stated fails: on the released handle [Allocate] returns ENOSYS,
    which is not EBADF. *)
Lemma C2_counterexample_allocate_after_release :
  Release handle0 = Ret tt releasedHandle /\
  released (hdl releasedHandle) = true /\
  Allocate 0 4096 0 releasedHandle = Ret fuse.ENOSYS releasedHandle /\
  fuse.ENOSYS <> fuse.EBADF.
Proof. split_and!; try (vm_compute; reflexivity). discriminate. Qed.

(** C2 on the stand-in instance: after [Release], [Write] and [Truncate]
    are stopped by the flag, [Read] by the closed descriptor. *)
Lemma C2_witness_after_release :
  Write createsHole zeroPad [x58] 0 releasedHandle
    = Ret (0, fuse.EBADF) (log EvRUnlock (log EvRLock releasedHandle)) /\
  Truncate 4096 releasedHandle
    = Ret fuse.EBADF (log EvRUnlock (log EvRLock releasedHandle)) /\
  (exists st', Flush releasedHandle = Ret fuse.EBADF st') /\
  (exists st', Read [x00] 0 releasedHandle = Ret (None, fuse.EBADF) st').
Proof.
  destruct (C2_released_handle (ce := demoEnc) createsHole zeroPad releasedHandle eq_refl)
    as (HW & HT & _ & Hclosed).
  destruct (Hclosed eq_refl) as (HF & _ & _ & _ & _ & _ & HR).
  split; [apply HW|]. split; [apply HT|]. split; [exact HF|].
  apply HR. right. left. split; reflexivity.
Defined.

(** C3 as stated fails.  A write of two blocks whose second preallocation
    fails with ENOSPC: by then both blocks have been encrypted, and the
    first has been written; 4096 bytes are reported written. *)
Lemma C3_counterexample_encrypted_before_the_abort :
  let st := set_faults [None; None; None; None; None; Some 28%positive] handle0 in
  doWrite (replicate 8192 x41) 0 st
    = Ret (4096, fuse.ENOSPC) (final (doWrite (replicate 8192 x41) 0 st)) /\
  trace (final (doWrite (replicate 8192 x41) 0 st)) =
    [EvDoWrite 0 8192; EvSyscall (ScReadAt 0 18) None;
     EvSyscall (ScPrealloc 0 18) None; EvSyscall (ScWriteAt 0 18) None;
     EvEncryptBlock 0 4096; EvSyscall (ScPrealloc 18 4128) None;
     EvSyscall (ScWriteAt 18 4128) None;
     EvEncryptBlock 1 4096; EvSyscall (ScPrealloc 4146 4128) (Some fuse.ENOSPC)].
Proof. split; vm_compute; reflexivity. Qed.

(** C3 on the stand-in instance: the preallocation of a full block fails;
    the block was encrypted, the file is untouched. *)
Lemma C3_witness_full_block :
  let st := set_faults [Some 28%positive] withHeader in
  let b := {| BlockNo := 0; Skip := 0; Length := 4096 |} in
  exists st',
    doWrite_blocks [b] (replicate 4096 x41) 0 st = Ret (0, fuse.ENOSPC) st' /\
    backing st' = backing st /\
    trace st' = trace st ++
      [EvEncryptBlock 0 4096; EvSyscall (ScPrealloc 18 4128) (Some fuse.ENOSPC)].
Proof.
  intros st b.
  destruct (C3_prealloc_failure_stops_the_write (ce := demoEnc) b [] (replicate 4096 x41) 0
              st st (replicate 4096 x41)
              {| Version := 2; Id := map (tape tape0) (seq 0 16) |} fuse.ENOSPC)
    as (st' & HW & Hb & _ & Ht).
  - vm_compute. discriminate.
  - left. split_and!; vm_compute; reflexivity.
  - vm_compute. reflexivity.
  - right. split; [reflexivity|]. exists 28%positive. split; reflexivity.
  - exists st'. split; [exact HW|]. split; [exact Hb|]. exact Ht.
Defined.

(** C7 as stated fails.  [Write] hands [zeroPad] the plaintext size and
    nothing else, so what is padded is the same for every write offset: no
    [createsHole] and [zeroPad] make the padding of the empty file end at
    the write offset for each offset. *)
Lemma C7_counterexample_padding_ignores_the_offset :
  let st1 := log (EvZeroPad 0)
               (log (EvSyscall ScFstat None) (log (EvWlockLock 7) (log EvRLock handle0))) in
  ~ exists (createsHole : file -> Z -> Z -> bool) (zeroPad : Z -> M State fuse.Status),
      forall off, 0 < off ->
        exists st2,
          zeroPad 0 st1 = Ret fuse.OK st2 /\
          CipherSizeToPlainSize (u64 (len (backing st2))) = off /\
          Write createsHole zeroPad [x58] off handle0
            = unlocks 7 (doWrite [x58] off st2).
Proof.
  intros st1 (ch & zp & H).
  destruct (H 1 ltac:(lia)) as (st2 & Hz & Hs & _).
  destruct (H 2 ltac:(lia)) as (st2' & Hz' & Hs' & _).
  rewrite Hz in Hz'. injection Hz' as <-. rewrite Hs in Hs'. discriminate.
Qed.

(** C7 on the stand-in instance: a write of one byte at offset 8193 into
    the empty file calls [zeroPad(0)] first and then writes. *)
Lemma C7_witness_write_past_the_end :
  exists st1,
    trace st1 = [EvRLock; EvWlockLock 7; EvSyscall ScFstat None] /\
    Write createsHole zeroPad [x58] 8193 handle0 =
      unlocks 7
        match zeroPad 0 (log (EvZeroPad 0) st1) with
        | Ret status st2 =>
            if status =? fuse.OK then doWrite [x58] 8193 st2 else Ret (0, status) st2
        | Panic m st2 => Panic m st2
        end.
Proof.
  destruct (C7_write_pads_before_writing (ce := demoEnc) createsHole zeroPad
              [x58] 8193 handle0) as (st1 & _ & _ & _ & _ & _ & _ & Ht & HW).
  - reflexivity.
  - split; [reflexivity|]. intros e. vm_compute. discriminate.
  - exists st1. split; [exact Ht|]. exact HW.
Defined.

(** X9 on the stand-in instance: a write past the end of the empty file,
    with the stand-in [zeroPad]. *)
Lemma X9_witness_write_past_the_end :
  brackets [EvRLock; EvWlockLock 7] [EvWlockUnlock 7; EvRUnlock]
    (Write createsHole zeroPad [x58] 8193) handle0.
Proof.
  apply (X9_write_releases_its_locks (ce := demoEnc) createsHole zeroPad [x58] 8193 handle0).
  intros n. unfold zeroPad.
  apply adds_bind; [apply calm_doWrite|]. intros [w status]. apply adds_ret.
Defined.

(** X11 on the stand-in instance: 50 bytes from offset 100 of the file
    of one block. *)
Lemma X11_witness_read_50 :
  doRead 100 50 oneBlock = Ret (replicate 50 x41, fuse.OK) (final (doRead 100 50 oneBlock)) /\
  len (replicate 50 x41) <= 50.
Proof.
  assert (doRead 100 50 oneBlock
            = Ret (replicate 50 x41, fuse.OK) (final (doRead 100 50 oneBlock))) as Heq
    by (vm_compute; reflexivity).
  assert (forall b0 rest, ExplodePlainRange 100 50 = b0 :: rest ->
            0 <= Skip b0 /\ Skip b0 + 50 < 2 ^ 63) as Hskip.
  { intros b0 rest H. vm_compute in H. injection H as <- _. simpl. lia. }
  pose proof (X11_doRead_returns_at_most_length (ce := demoEnc) 100 50 oneBlock
                (replicate 50 x41) fuse.OK (final (doRead 100 50 oneBlock))
                ltac:(discriminate) Hskip Heq) as [Hlen _].
  split; [exact Heq|exact Hlen].
Defined.

(** X12 on the stand-in instance: the empty file. *)
Lemma X12_witness_empty_file :
  exists st', doRead 0 10 handle0 = Ret ([], fuse.OK) st' /\ hdl st' = hdl handle0.
Proof.
  destruct (X12_short_file_reads_as_empty (ce := demoEnc) 0 10 handle0)
    as (st' & Heq & Hh & _).
  - reflexivity.
  - split; [reflexivity|]. intros e. vm_compute. discriminate.
  - vm_compute. reflexivity.
  - exists st'. split; [exact Heq|exact Hh].
Defined.

(** X13 on the stand-in instance: a write of nothing to the empty file
    leaves a file of 18 bytes, the header. *)
Lemma X13_witness_write_nothing :
  exists st1, doWrite [] 0 handle0 = Ret (0, fuse.OK) st1 /\ len (backing st1) = 18.
Proof.
  destruct (X13_first_write_lays_the_header (ce := demoEnc) [] 0 handle0)
    as (st1 & _ & Hb & _ & _ & HW).
  - reflexivity.
  - reflexivity.
  - reflexivity.
  - vm_compute. reflexivity.
  - vm_compute. reflexivity.
  - exists st1. split.
    + rewrite HW. reflexivity.
    + rewrite Hb. vm_compute. reflexivity.
Defined.

(** X14 on the stand-in instance: of two blocks, the second is not
    preallocated; the first is counted. *)
Lemma X14_witness_one_of_two :
  let st := set_faults [None; None; None; None; None; Some 28%positive] handle0 in
  exists k,
    doWrite (replicate 8192 x41) 0 st
      = Ret (4096, fuse.ENOSPC) (final (doWrite (replicate 8192 x41) 0 st)) /\
    (k <= 2)%nat /\
    4096 = lengthSum (take k (ExplodePlainRange 0 8192)) 0.
Proof.
  intros st.
  assert (doWrite (replicate 8192 x41) 0 st
            = Ret (4096, fuse.ENOSPC) (final (doWrite (replicate 8192 x41) 0 st))) as Heq
    by (vm_compute; reflexivity).
  destruct (X14_doWrite_counts_whole_blocks (ce := demoEnc) (replicate 8192 x41) 0 st
              4096 fuse.ENOSPC (final (doWrite (replicate 8192 x41) 0 st)))
    as (k & Hk & Hw & _).
  - intros buf e. unfold ParseHeader, demoEnc, impl.ops, impl.ParseHeader.
    destruct buf as [|hi [|lo id]]; try (intros [= <-]; done).
    destruct (negb _); [intros [= <-]; done|].
    destruct (negb _); intros [= <-]; done.
  - exact Heq.
  - exists k. split; [exact Heq|]. split; [exact Hk|exact Hw].
Defined.

(** X15 on the stand-in instance: the file of one block, emptied. *)
Lemma X15_witness_empty_it :
  exists st', Truncate 0 oneBlock = Ret fuse.OK st' /\
    backing st' = [] /\ header (hdl st') = None.
Proof.
  destruct (X15_truncate_to_zero (ce := demoEnc) oneBlock) as [H _].
  - vm_compute. reflexivity.
  - destruct H as (st' & Heq & Hb & Hh & _).
    + split; [vm_compute; reflexivity|]. intros e. vm_compute. discriminate.
    + exists st'. split; [exact Heq|]. split; [exact Hb|exact Hh].
Defined.

(** X16 on the stand-in instance: the file of one block, truncated to
    4096 bytes. *)
Lemma X16_witness_same_size :
  exists st', Truncate 4096 oneBlock = Ret fuse.OK st' /\
    backing st' = backing oneBlock.
Proof.
  destruct (X16_truncate_to_the_same_size (ce := demoEnc) 4096 oneBlock)
    as (st' & Heq & Hb & _).
  - vm_compute. reflexivity.
  - split; [vm_compute; reflexivity|]. intros e. vm_compute. discriminate.
  - lia.
  - vm_compute. reflexivity.
  - exists st'. split; [exact Heq|exact Hb].
Defined.

(** X17 on the stand-in instance: the file of one block, shrunk to 100
    bytes: the block is read, the file cut to its header, and what was
    read is written back. *)
Lemma X17_witness_shrink_to_100 :
  Truncate 100 oneBlock = Ret fuse.OK (final (Truncate 100 oneBlock)) /\
  exists data st3 w st4,
    backing st3 = take 18 (backing oneBlock) /\
    doWrite data 0 st3 = Ret (w, fuse.OK) st4 /\
    backing (final (Truncate 100 oneBlock)) = backing st4.
Proof.
  assert (Truncate 100 oneBlock = Ret fuse.OK (final (Truncate 100 oneBlock))) as Heq
    by (vm_compute; reflexivity).
  split; [exact Heq|].
  destruct (X17_shrink_reads_before_it_cuts (ce := demoEnc) 100 oneBlock fuse.OK
              (final (Truncate 100 oneBlock)))
    as [[Hne _]|[[Hz _]|(_ & st1 & data & st2 & st3 & w & st4 & _ & _ & _ & Hb3 & _ & HW & Hb')]].
  - vm_compute. reflexivity.
  - split; [vm_compute; reflexivity|]. intros e. vm_compute. discriminate.
  - lia.
  - vm_compute. reflexivity.
  - exact Heq.
  - by destruct Hne.
  - vm_compute in Hz. discriminate.
  - exists data, st3, w, st4. split_and!; [|exact HW|exact Hb'].
    rewrite Hb3. vm_compute. reflexivity.
Defined.

End handle_examples.

(** ** Plaintext and ciphertext paths *)

Section names_facts.

Import names.

Variable W : Type.
Variable EncryptPathNoIV : string -> W -> outcome W string.
Variable EncryptPathDirIV : string -> string -> W -> outcome W (string * option error).
Variable DecryptPathNoIV : string -> W -> outcome W (string * option error).
Variable DecryptPathDirIV : string -> string -> W -> outcome W (string * option error).
Variable filepath_Join : string -> string -> string.

Local Abbreviation isFiltered := (names.isFiltered W).
Local Abbreviation encryptPath := (names.encryptPath W EncryptPathNoIV EncryptPathDirIV).
Local Abbreviation decryptPath := (names.decryptPath W DecryptPathNoIV DecryptPathDirIV).
Local Abbreviation getBackingPath :=
  (names.getBackingPath W EncryptPathNoIV EncryptPathDirIV filepath_Join).

(** What [encryptPath] does when directory IVs are in use, by the outcome
    of the name transformation. *)
Lemma encryptPath_dirIV args path st :
  PlaintextNames args = false -> DirIV args = true ->
  encryptPath args path st =
    match EncryptPathDirIV path (Cipherdir args) (world st) with
    | Ret r w =>
        Ret r {| world := w;
                 trace := trace st ++ [EvRLock] ++
                            [EvEncryptPathDirIV path (Cipherdir args)] ++ [EvRUnlock] |}
    | Panic msg w =>
        Panic msg {| world := w;
                     trace := trace st ++ [EvRLock] ++
                                [EvEncryptPathDirIV path (Cipherdir args)] |}
    end.
Proof.
  intros Hp Hd. unfold names.encryptPath. rewrite Hp, Hd. simpl.
  unfold mbind, M_bind, emit, modify, call, mret, M_ret. simpl.
  destruct (EncryptPathDirIV _ _ _); simpl; by rewrite <- ?(assoc_L (++)).
Qed.

(** X7.  With directory IVs, both directions take the read lock
    [fs.dirIVLock] around the one call of the name transformation.
    [decryptPath] gives it back whatever the transformation does, also when
    it panics; [encryptPath] and [getBackingPath] give it back when the
    transformation returns, and leave it held when the transformation
    panics. *)
Theorem X7_dirIV_lock_is_held_around_the_transform args path st :
  PlaintextNames args = false -> DirIV args = true ->
  let dir := Cipherdir args in
  trace (final (decryptPath args path st))
    = trace st ++ [EvRLock; EvDecryptPathDirIV path dir; EvRUnlock] /\
  (forall r st', encryptPath args path st = Ret r st' ->
     trace st' = trace st ++ [EvRLock; EvEncryptPathDirIV path dir; EvRUnlock]) /\
  (forall msg st', encryptPath args path st = Panic msg st' ->
     trace st' = trace st ++ [EvRLock; EvEncryptPathDirIV path dir]) /\
  (forall r st', getBackingPath args path st = Ret r st' ->
     trace st' = trace st ++ [EvRLock; EvEncryptPathDirIV path dir; EvRUnlock]) /\
  (forall msg st', getBackingPath args path st = Panic msg st' ->
     trace st' = trace st ++ [EvRLock; EvEncryptPathDirIV path dir]).
Proof.
  intros Hp Hd dir. split_and!.
  - unfold names.decryptPath. rewrite Hp, Hd. simpl.
    unfold mbind, M_bind, emit, modify, defer, call. simpl. fold dir.
    destruct (DecryptPathDirIV _ _ _); simpl; by rewrite <- ?(assoc_L (++)).
  - intros r st'. rewrite (encryptPath_dirIV _ _ _ Hp Hd). fold dir.
    destruct (EncryptPathDirIV _ _ _); [|done]. by intros [= _ <-].
  - intros msg st'. rewrite (encryptPath_dirIV _ _ _ Hp Hd). fold dir.
    destruct (EncryptPathDirIV _ _ _); [done|]. by intros [= _ <-].
  - intros r st'. unfold names.getBackingPath, mbind, M_bind.
    rewrite (encryptPath_dirIV _ _ _ Hp Hd). fold dir.
    destruct (EncryptPathDirIV _ _ _) as [[c [e|]] w|]; [| |done];
      unfold mret, M_ret; by intros [= _ <-].
  - intros msg st'. unfold names.getBackingPath, mbind, M_bind.
    rewrite (encryptPath_dirIV _ _ _ Hp Hd). fold dir.
    destruct (EncryptPathDirIV _ _ _) as [[c [e|]] w|]; [done|done|].
    by intros [= _ <-].
Qed.

(** X18.  With plaintext names, paths pass through as they are: neither
    direction calls the name transformation or takes the lock, the backing
    path is the cipher directory joined with the plaintext path, and
    decrypting an encrypted path gives it back.  The one name that
    [isFiltered] refuses is that of the config file, and it refuses no
    name at all without plaintext names. *)
Theorem X18_plaintext_names_pass_through args path st :
  (PlaintextNames args = true ->
     encryptPath args path st = Ret (path, None) st /\
     decryptPath args path st = Ret (path, None) st /\
     (c ← encryptPath args path; decryptPath args c.1) st = Ret (path, None) st /\
     getBackingPath args path st
       = Ret (filepath_Join (Cipherdir args) path, None) st) /\
  (exists b st', isFiltered args path st = Ret b st' /\
     world st' = world st /\
     (b = true <-> PlaintextNames args = true /\ path = "gocryptfs.conf"%string) /\
     trace st' = trace st ++
       (if b then [EvInfo "The name /%s is reserved when -plaintextnames is used\n"
                     [ArgStr "gocryptfs.conf"]]
        else [])).
Proof.
  split.
  - intros Hp. unfold names.getBackingPath, names.encryptPath, names.decryptPath.
    unfold mbind, M_bind, mret, M_ret. by rewrite Hp.
  - unfold names.isFiltered. destruct (PlaintextNames args); simpl.
    + case_bool_decide as E.
      * eexists true, _. unfold mbind, M_bind, emit, modify, mret, M_ret. simpl.
        split_and!; try done.
      * exists false, st. unfold mret, M_ret. split_and!; try done.
        -- split; [done|]. by intros [_ ?].
        -- by rewrite app_nil_r.
    + exists false, st. unfold mret, M_ret. split_and!; try done.
      * split; [done|]. by intros [? _].
      * by rewrite app_nil_r.
Qed.

(** X19.  Without directory IVs the lock is never taken: each direction
    is one call of the name transformation and nothing else, and what
    [decryptPath] returns is what the transformation returned. *)
Theorem X19_no_dirIV_no_lock args path st :
  PlaintextNames args = false -> DirIV args = false ->
  trace (final (encryptPath args path st)) = trace st ++ [EvEncryptPathNoIV path] /\
  trace (final (getBackingPath args path st)) = trace st ++ [EvEncryptPathNoIV path] /\
  trace (final (decryptPath args path st)) = trace st ++ [EvDecryptPathNoIV path] /\
  (forall c w, EncryptPathNoIV path (world st) = Ret c w ->
     exists st', world st' = w /\
       encryptPath args path st = Ret (c, None) st' /\
       getBackingPath args path st = Ret (filepath_Join (Cipherdir args) c, None) st') /\
  (forall r w, DecryptPathNoIV path (world st) = Ret r w ->
     exists st', world st' = w /\ decryptPath args path st = Ret r st').
Proof.
  intros Hp Hd.
  unfold names.getBackingPath, names.encryptPath, names.decryptPath.
  rewrite Hp, Hd. simpl. unfold mbind, M_bind, call, mret, M_ret. simpl.
  split_and!.
  - destruct (EncryptPathNoIV _ _); reflexivity.
  - destruct (EncryptPathNoIV _ _); reflexivity.
  - destruct (DecryptPathNoIV _ _); reflexivity.
  - intros c w ->.
    exists {| world := w; trace := trace st ++ [EvEncryptPathNoIV path] |}.
    split_and!; reflexivity.
  - intros r w ->.
    exists {| world := w; trace := trace st ++ [EvDecryptPathNoIV path] |}.
    split_and!; reflexivity.
Qed.

End names_facts.

(** *** The paths on the stand-in instance *)

Section names_examples.

Import names Demo.

(** X7 where the name transformation panics: [decryptPath] has given the
    lock back, [encryptPath] has not. *)
Lemma X7_witness_transform_panics :
  trace (final (decryptPath nat toyDecryptPathNoIV toyDecryptPathDirIV dirIVArgs "gone" names0))
    = [EvRLock; EvDecryptPathDirIV "gone" "/c"; EvRUnlock] /\
  trace (final (encryptPath nat toyEncryptPathNoIV toyEncryptPathDirIV dirIVArgs "gone" names0))
    = [EvRLock; EvEncryptPathDirIV "gone" "/c"].
Proof.
  destruct (X7_dirIV_lock_is_held_around_the_transform nat
              toyEncryptPathNoIV toyEncryptPathDirIV toyDecryptPathNoIV
              toyDecryptPathDirIV toyJoin dirIVArgs "gone" names0 eq_refl eq_refl)
    as (Hdec & _ & Henc & _).
  split; [exact Hdec|].
  apply (Henc "no directory IV"%string). reflexivity.
Defined.

(** X19 on the path "a" of a filesystem without directory IVs. *)
Lemma X19_witness_one_call :
  trace (final (encryptPath nat toyEncryptPathNoIV toyEncryptPathDirIV noIVArgs "a" names0))
    = [EvEncryptPathNoIV "a"] /\
  exists st', world st' = 1%nat /\
    encryptPath nat toyEncryptPathNoIV toyEncryptPathDirIV noIVArgs "a" names0
      = Ret ("enc:a"%string, None) st' /\
    getBackingPath nat toyEncryptPathNoIV toyEncryptPathDirIV toyJoin noIVArgs "a" names0
      = Ret ("/c/enc:a"%string, None) st'.
Proof.
  destruct (X19_no_dirIV_no_lock nat
              toyEncryptPathNoIV toyEncryptPathDirIV toyDecryptPathNoIV
              toyDecryptPathDirIV toyJoin noIVArgs "a" names0 eq_refl eq_refl)
    as (Henc & _ & _ & Hret & _).
  split; [exact Henc|].
  exact (Hret "enc:a"%string 1%nat eq_refl).
Defined.

End names_examples.

(** ** Reading the password *)

Section password_facts.

Import main.

Variable ERREXIT_PASSWORD : Z.
Variable colorRed colorReset : string.
Variable program : string -> list string -> string * option error.

Local Abbreviation readPassword :=
  (main.readPassword ERREXIT_PASSWORD colorRed colorReset program).
Local Abbreviation readPasswordTwice :=
  (main.readPasswordTwice ERREXIT_PASSWORD colorRed colorReset program).

(** *** Bytes and pieces *)

Lemma lastByte_app p c : lastByte (p +:+ String c EmptyString) = Some c.
Proof.
  induction p as [|a p IH]; [done|].
  simpl. rewrite IH. by destruct (p +:+ String c EmptyString) eqn:E.
Qed.

Lemma dropLast_app p c : dropLast (p +:+ String c EmptyString) = p.
Proof.
  induction p as [|a p IH]; [done|].
  simpl. rewrite IH. destruct p; done.
Qed.

Lemma lastByte_None s : lastByte s = None -> s = EmptyString.
Proof.
  induction s as [|a s IH]; [done|]. simpl. destruct s; [done|].
  intros H. by specialize (IH H).
Qed.

Lemma Split_cons s : exists piece pieces, Split s = piece :: pieces.
Proof.
  induction s as [|c s (piece & pieces & IH)]; simpl; [by eauto|].
  destruct (Ascii.eqb c space); [by eauto|]. rewrite IH. eauto.
Qed.

(** [strings.Join(strings.Split(s, " "), " ")] is [s]. *)
Lemma concat_Split s : String.concat (String space EmptyString) (Split s) = s.
Proof.
  induction s as [|c s IH]; [done|].
  destruct (Split_cons s) as (piece & pieces & E).
  cbn [Split]. rewrite E in *.
  destruct (Ascii.eqb_spec c space) as [->|Hc].
  - change (String.concat (String space EmptyString) (EmptyString :: piece :: pieces))
      with (String space (String.concat (String space EmptyString) (piece :: pieces))).
    by rewrite IH.
  - destruct pieces as [|piece' pieces].
    + simpl in *. by rewrite IH.
    + change (String c (piece +:+ String space
                (String.concat (String space EmptyString) (piece' :: pieces)))
              = String c s).
      f_equal. exact IH.
Qed.

(** No piece holds a blank. *)
Lemma Split_no_blank s :
  Forall (fun piece => forall a b, piece <> a +:+ String space b) (Split s).
Proof.
  induction s as [|c s IH]; simpl.
  - constructor; [|done]. intros [|] b; done.
  - destruct (Ascii.eqb_spec c space) as [->|Hc].
    + constructor; [|done]. intros [|] b; done.
    + destruct (Split_cons s) as (piece & pieces & E). rewrite E in *.
      inversion IH as [|? ? Hpiece Hpieces]; subst.
      constructor; [|done].
      intros [|a0 a] b; simpl; intros [= ? ?]; [done|]. by eapply Hpiece.
Qed.

(** *** One read *)

(** [readPassword] at the terminal, by what the terminal gives. *)
Lemma readPassword_terminal st :
  readPassword "" st =
    match tty st with
    | (out, None) :: rest =>
        if bool_decide (out = ""%string) then
          (Exit ERREXIT_PASSWORD,
           {| stderr := stderr st ++ [String newline EmptyString];
              fatal := fatal st ++ [(colorRed +:+ "Password is empty\n" +:+ colorReset, [])];
              tty := rest; execs := execs st |})
        else
          (Val out,
           {| stderr := stderr st ++ [String newline EmptyString];
              fatal := fatal st; tty := rest; execs := execs st |})
    | (out, Some e) :: rest =>
        (Exit ERREXIT_PASSWORD,
         {| stderr := stderr st;
            fatal := fatal st ++
              [(colorRed +:+ "Could not read password from terminal: %v\n" +:+ colorReset,
                [ArgStr (Error e)])];
            tty := rest; execs := execs st |})
    | [] =>
        (Exit ERREXIT_PASSWORD,
         {| stderr := stderr st;
            fatal := fatal st ++
              [(colorRed +:+ "Could not read password from terminal: %v\n" +:+ colorReset,
                [ArgStr "EOF"])];
            tty := []; execs := execs st |})
    end.
Proof.
  unfold main.readPassword. simpl.
  unfold mbind, P_bind, terminal_ReadPassword.
  destruct st as [se fa [|[out [e|]] rest] ex]; simpl; try done.
  case_bool_decide; done.
Qed.

(** [readPassword] with an external program, by what the program gives. *)
Lemma readPassword_extpass extpass st :
  extpass <> ""%string ->
  let name := default ""%string (head (Split extpass)) in
  let args := tail (Split extpass) in
  let st1 := {| stderr := stderr st; fatal := fatal st; tty := tty st;
                execs := execs st ++ [(name, args)] |} in
  readPassword extpass st =
    match program name args with
    | (out, Some e) =>
        (Exit ERREXIT_PASSWORD,
         {| stderr := stderr st;
            fatal := fatal st ++
              [(colorRed +:+ "extpass program returned error: %v\n" +:+ colorReset,
                [ArgStr (Error e)])];
            tty := tty st; execs := execs st1 |})
    | (out, None) =>
        match lastByte out with
        | None => (Crash "index out of range", st1)
        | Some c =>
            let password := if Ascii.eqb c newline then dropLast out else out in
            if bool_decide (password = ""%string) then
              (Exit ERREXIT_PASSWORD,
               {| stderr := stderr st;
                  fatal := fatal st ++
                    [(colorRed +:+ "Password is empty\n" +:+ colorReset, [])];
                  tty := tty st; execs := execs st1 |})
            else (Val password, st1)
        end
    end.
Proof.
  intros Hne name args st1. unfold main.readPassword.
  rewrite (bool_decide_eq_false_2 _ Hne). simpl.
  unfold mbind, P_bind, cmd_Output. fold name args.
  destruct (program name args) as [out [e|]]; simpl; [done|].
  destruct (lastByte out) as [c|]; simpl; [|done].
  destruct (Ascii.eqb c newline); unfold mret, P_ret; case_bool_decide; done.
Qed.

(** X20.  A password that [readPassword] or [readPasswordTwice] returns is
    not empty, and no line was logged on the way.  When they end the
    process, the exit code is [ERREXIT_PASSWORD] and one line was logged
    before.  They panic in one case only: the external program succeeded
    and printed nothing. *)
Theorem X20_a_returned_password_is_not_empty extpass st :
  let ends (r : result string) (st' : State) :=
    match r with
    | Val password => password <> ""%string /\ fatal st' = fatal st
    | Exit code =>
        code = ERREXIT_PASSWORD /\ exists line, fatal st' = fatal st ++ [line]
    | Crash msg =>
        extpass <> ""%string /\ fatal st' = fatal st /\
        program (default ""%string (head (Split extpass))) (tail (Split extpass))
          = (""%string, None)
    end in
  ends (readPassword extpass st).1 (readPassword extpass st).2 /\
  ends (readPasswordTwice extpass st).1 (readPasswordTwice extpass st).2.
Proof.
  intros ends.
  assert (forall st0, fatal st0 = fatal st ->
            ends (readPassword extpass st0).1 (readPassword extpass st0).2) as Hone.
  { intros st0 H0. destruct (decide (extpass = ""%string)) as [->|Hne].
    - rewrite readPassword_terminal.
      destruct (tty st0) as [|[out [e|]] rest]; simpl; rewrite ?H0; eauto.
      case_bool_decide; simpl; rewrite ?H0; eauto.
    - rewrite (readPassword_extpass _ _ Hne). cbv zeta.
      destruct (program _ _) as [out [e|]] eqn:Hprog; simpl; rewrite ?H0; eauto.
      destruct (lastByte out) as [c|] eqn:Hlast; simpl.
      + case_bool_decide; simpl; rewrite ?H0; eauto.
      + apply lastByte_None in Hlast as ->. unfold ends. simpl. by rewrite ?H0. }
  split; [by apply Hone|].
  unfold main.readPasswordTwice. case_bool_decide as Hext; [|by apply Hone].
  subst extpass. unfold mbind, P_bind. simpl.
  rewrite readPassword_terminal. simpl.
  destruct (tty st) as [|[p1 [e|]] rest]; simpl; eauto.
  case_bool_decide as E1; simpl; eauto.
  rewrite readPassword_terminal. simpl.
  destruct rest as [|[p2 [e|]] rest]; simpl; eauto.
  case_bool_decide as E2; simpl; eauto.
  case_bool_decide; simpl; eauto.
Qed.

(** X21.  What becomes of the output of the external program.  One
    trailing newline is cut off, and no more than one.  Output that is the
    newline alone counts as an empty password; no output at all makes the
    index expression panic, and nothing is logged then.  When the program
    failed, its output is not looked at.  The terminal is not read. *)
Theorem X21_extpass_output_loses_one_newline extpass st out err :
  extpass <> ""%string ->
  program (default ""%string (head (Split extpass))) (tail (Split extpass)) = (out, err) ->
  let r := (readPassword extpass st).1 in
  let st' := (readPassword extpass st).2 in
  let nl := String newline EmptyString in
  tty st' = tty st /\
  (forall e, err = Some e ->
     r = Exit ERREXIT_PASSWORD /\
     fatal st' = fatal st ++
       [(colorRed +:+ "extpass program returned error: %v\n" +:+ colorReset,
         [ArgStr (Error e)])]) /\
  (err = None ->
     (out = ""%string -> r = Crash "index out of range" /\ fatal st' = fatal st) /\
     (out = nl ->
        r = Exit ERREXIT_PASSWORD /\
        fatal st' = fatal st ++
          [(colorRed +:+ "Password is empty\n" +:+ colorReset, [])]) /\
     (forall p, p <> ""%string -> out = p +:+ nl -> r = Val p) /\
     (forall p c, c <> newline -> out = p +:+ String c EmptyString -> r = Val out)).
Proof.
  intros Hne Hprog r st' nl. subst r st' nl.
  rewrite (readPassword_extpass _ _ Hne). cbv zeta. rewrite Hprog.
  split_and!.
  - destruct err; [done|]. destruct (lastByte out); [|done].
    simpl. by case_bool_decide.
  - by intros e ->.
  - intros ->. split_and!.
    + by intros ->.
    + by intros ->.
    + intros p Hp ->. rewrite lastByte_app. cbv zeta.
      rewrite Ascii.eqb_refl, dropLast_app. by rewrite bool_decide_eq_false_2.
    + intros p c Hc ->. rewrite lastByte_app. cbv zeta.
      destruct (Ascii.eqb_spec c newline) as [|_]; [done|].
      rewrite bool_decide_eq_false_2; [done|]. by destruct p.
Qed.

(** X22.  The command line of the external program is cut at every
    blank, and at blanks only: the pieces, joined with a blank between
    them, are [extpass], no piece holds a blank, and the first piece is the
    program that is run, once, with the other pieces as its arguments,
    whether [readPassword] or [readPasswordTwice] is called. *)
Theorem X22_extpass_is_split_at_blanks extpass st :
  extpass <> ""%string ->
  exists name args,
    String.concat (String space EmptyString) (name :: args) = extpass /\
    Forall (fun piece => forall a b, piece <> a +:+ String space b) (name :: args) /\
    execs (readPassword extpass st).2 = execs st ++ [(name, args)] /\
    execs (readPasswordTwice extpass st).2 = execs st ++ [(name, args)].
Proof.
  intros Hne. destruct (Split_cons extpass) as (name & args & E).
  exists name, args.
  assert (execs (readPassword extpass st).2 = execs st ++ [(name, args)]) as Hrun.
  { rewrite (readPassword_extpass _ _ Hne). cbv zeta. rewrite E. simpl.
    destruct (program name args) as [out [e|]]; [done|].
    destruct (lastByte out); [|done]. simpl. by case_bool_decide. }
  split_and!.
  - rewrite <- E. apply concat_Split.
  - rewrite <- E. apply Split_no_blank.
  - exact Hrun.
  - unfold main.readPasswordTwice. by rewrite (bool_decide_eq_false_2 _ Hne).
Qed.

(** X23.  [readPasswordTwice] at the terminal, when two passwords are
    typed that are not empty: both prompts are written, each read is
    followed by a newline, and the password is returned when the two are
    the same; when they differ, "Passwords do not match" is logged and the
    process ends with [ERREXIT_PASSWORD].  When the first read fails or
    gives the empty password, the process ends before the second prompt,
    and the second line is left unread. *)
Theorem X23_passwords_typed_twice st p1 e1 rest :
  tty st = (p1, e1) :: rest ->
  let r := (readPasswordTwice "" st).1 in
  let st' := (readPasswordTwice "" st).2 in
  let nl := String newline EmptyString in
  execs st' = execs st /\
  (e1 <> None \/ p1 = ""%string ->
     r = Exit ERREXIT_PASSWORD /\ tty st' = rest /\
     stderr st' = stderr st ++ "Password: "%string ::
       match e1 with Some _ => [] | None => [nl] end) /\
  (forall p2 rest', e1 = None -> p1 <> ""%string ->
     rest = (p2, None) :: rest' -> p2 <> ""%string ->
     tty st' = rest' /\
     stderr st' = stderr st ++ ["Password: "%string; nl; "Repeat: "%string; nl] /\
     (p1 = p2 -> r = Val p1 /\ fatal st' = fatal st) /\
     (p1 <> p2 ->
        r = Exit ERREXIT_PASSWORD /\
        fatal st' = fatal st ++
          [(colorRed +:+ "Passwords do not match" +:+ colorReset, [])])).
Proof.
  intros Htty r st' nl. subst r st' nl.
  unfold main.readPasswordTwice. simpl. unfold mbind, P_bind. simpl.
  rewrite readPassword_terminal. simpl. rewrite Htty.
  split_and!.
  - destruct e1 as [e|]; [done|]. case_bool_decide; [done|].
    simpl. rewrite readPassword_terminal. simpl.
    destruct rest as [|[p2 [e|]] rest']; try done.
    case_bool_decide; [done|]. simpl. by case_bool_decide.
  - intros H. destruct e1 as [e|]; [by rewrite <- ?(assoc_L (++))|].
    destruct H as [H | ->]; [done|]. simpl. by rewrite <- ?(assoc_L (++)).
  - intros p2 rest' -> Hp1 -> Hp2.
    rewrite (bool_decide_eq_false_2 _ Hp1). simpl.
    rewrite readPassword_terminal. simpl.
    rewrite (bool_decide_eq_false_2 _ Hp2).
    split_and!.
    + by case_bool_decide.
    + case_bool_decide; simpl; by rewrite <- !(assoc_L (++)).
    + intros <-. by rewrite bool_decide_eq_true_2.
    + intros Hne. by rewrite (bool_decide_eq_false_2 _ Hne).
Qed.

End password_facts.

(** *** The password on the stand-in instance *)

Section password_examples.

Import main Demo.

(** X21: "echo secret" gives the password "secret"; "true" prints
    nothing, and the read panics. *)
Lemma X21_witness_echo_and_true :
  (readPassword 9 "" "" toyProgram "echo secret" main0).1 = Val "secret"%string /\
  (readPassword 9 "" "" toyProgram "true" main0).1 = Crash "index out of range".
Proof.
  split.
  - pose proof (X21_extpass_output_loses_one_newline 9 "" "" toyProgram
                  "echo secret" main0 _ None ltac:(discriminate) eq_refl)
      as (_ & _ & H).
    destruct (H eq_refl) as (_ & _ & Hcut & _).
    apply (Hcut "secret"%string); [discriminate|reflexivity].
  - pose proof (X21_extpass_output_loses_one_newline 9 "" "" toyProgram
                  "true" main0 _ None ltac:(discriminate) eq_refl)
      as (_ & _ & H).
    destruct (H eq_refl) as (Hcrash & _).
    apply Hcrash. reflexivity.
Defined.

(** X22: "echo  secret", with two blanks, runs "echo" with an empty first
    argument. *)
Lemma X22_witness_two_blanks :
  exists name args,
    String.concat " " (name :: args) = "echo  secret"%string /\
    Forall (fun piece => forall a b, piece <> (a +:+ String space b)%string) (name :: args) /\
    execs (readPassword 9 "" "" toyProgram "echo  secret" main0).2 = [(name, args)] /\
    execs (readPasswordTwice 9 "" "" toyProgram "echo  secret" main0).2 = [(name, args)].
Proof.
  apply (X22_extpass_is_split_at_blanks 9 "" "" toyProgram "echo  secret" main0).
  discriminate.
Defined.

(** X23: "abc" typed twice is returned, after both prompts. *)
Lemma X23_witness_abc_abc :
  (readPasswordTwice 9 "" "" toyProgram "" typedTwice).1 = Val "abc"%string /\
  stderr (readPasswordTwice 9 "" "" toyProgram "" typedTwice).2
    = ["Password: "%string; String newline EmptyString;
       "Repeat: "%string; String newline EmptyString].
Proof.
  pose proof (X23_passwords_typed_twice 9 "" "" toyProgram typedTwice
                "abc" None [("abc"%string, None)] eq_refl) as (_ & _ & H).
  destruct (H "abc"%string [] eq_refl ltac:(discriminate) eq_refl ltac:(discriminate))
    as (_ & Hprompts & Hsame & _).
  split; [|exact Hprompts].
  apply Hsame. reflexivity.
Defined.

End password_examples.
